(** * EcoAtlas: bounding-box aggregation of EDGAR grids

    A shallow embedding of [ecoatlas/scripts/edgar/aggregate_bbox.py] and
    the properties of its bounding-box normalisation, spatial reduction,
    temporal labelling and multi-source merge.

    Conventions of the embedding:
    - a Python [float] is an IEEE 754 binary64 value, modelled by the
      Standard Library's [spec_float] at precision 53 and exponent bound
      1024 (module [Float]);
    - a Python [str] is a [string] whose characters are the code points
      below 256, the strings CPython stores one byte per character; text
      with other characters is outside the embedding, and a property that
      holds of ASCII text only says so;
    - a Python exception is a value of type [error], threaded through the
      program with the [result] monad;
    - the objects handed out by xarray are records holding the coordinate
      labels and the cell values; the library calls the script makes on them
      are functions over these records;
    - the file system is a record of what [xr.open_dataset] finds at a
      path, of the paths that can be written and of the files written; two
      texts name the same file when [Path] gives them the same normal form
      (symbolic links and [..] are not followed).  *)

From Stdlib Require Import ZArith Lia List Bool Ascii String.
From Stdlib Require Import SpecFloat.
From Stdlib Require Import Sorted Permutation.
From stdpp Require Import gmap strings.

Local Open Scope Z_scope.

(** ** Exceptions and the error monad *)

(** The script raises [ValueError] in three places; the three are kept
    apart under the names the specification gives them.  Every exception
    raised inside a library call is a [LibraryError]. *)
Inductive error : Type :=
  | InvalidArgument      (* float() rejects a token, or "bbox must have 4 comma-separated values" *)
  | VariableNotFound     (* "Variable ... not found in dataset." *)
  | MissingYear          (* "No year found in filename: ..." *)
  | ZeroDivisionError    (* float modulo by zero *)
  | LibraryError.        (* raised by xarray, pandas or numpy *)

Inductive result (A : Type) : Type :=
  | Ok (a : A)
  | Err (e : error).
Arguments Ok {A} a.
Arguments Err {A} e.

Definition bind {A B : Type} (r : result A) (k : A -> result B) : result B :=
  match r with
  | Ok a => k a
  | Err e => Err e
  end.

Notation "'do' x <- c ; k" := (bind c (fun x => k))
  (at level 10, x name, c at level 100, k at level 200).

Definition is_ok {A : Type} (r : result A) : bool :=
  match r with Ok _ => true | Err _ => false end.

(** ** Python floats *)

Module Float.

Definition prec : Z := 53.
Definition emax : Z := 1024.
(** Exponent of the smallest subnormal, [3 - emax - prec]. *)
Definition emin : Z := -1074.

Definition float : Type := spec_float.

Definition valid (x : float) : bool := valid_binary prec emax x.

Definition add (x y : float) : float := SFadd prec emax x y.

(** The addition of numpy's [float32], IEEE 754 binary32. *)
Definition add32 (x y : float) : float := SFadd 24 128 x y.

(** [float(x)] on a [float32]: the binary64 number of the same value. *)
Definition widen (x : float) : float :=
  match x with
  | S754_finite s m e => binary_normalize prec emax (cond_Zopp s (Zpos m)) e s
  | _ => x
  end.
Definition eqb (x y : float) : bool := SFeqb x y.
Definition ltb (x y : float) : bool := SFltb x y.
Definition leb (x y : float) : bool := SFleb x y.

Definition zero : float := S754_zero false.
Definition nan : float := S754_nan.

Definition is_nan (x : float) : bool :=
  match x with S754_nan => true | _ => false end.

Definition is_finite (x : float) : bool :=
  match x with
  | S754_zero _ | S754_finite _ _ _ => true
  | _ => false
  end.

(** The integer literal [z] converted to a float. *)
Definition of_Z (z : Z) : float := binary_normalize prec emax z 0 false.

Definition f180 : float := Eval vm_compute in of_Z 180.
Definition f360 : float := Eval vm_compute in of_Z 360.

(** A finite float is an integer multiple of [2 ^ emin]; [scaled x] is
    that integer. *)
Definition scaled (x : float) : Z :=
  match x with
  | S754_finite s m e => cond_Zopp s (Zpos m * 2 ^ (e - emin))
  | _ => 0
  end.

Definition sign_of (x : float) : bool :=
  match x with
  | S754_zero s | S754_infinity s | S754_finite s _ _ => s
  | S754_nan => false
  end.

(** C's [fmod]: the exact remainder of the truncated division, with the
    sign of the dividend. *)
Definition fmod (x y : float) : float :=
  match x, y with
  | S754_nan, _ | _, S754_nan => S754_nan
  | S754_infinity _, _ => S754_nan
  | _, S754_zero _ => S754_nan
  | S754_zero _, _ => x
  | S754_finite _ _ _, S754_infinity _ => x
  | S754_finite sx _ _, S754_finite _ _ _ =>
      match Z.rem (scaled x) (scaled y) with
      | Z0 => S754_zero sx
      | r => binary_normalize prec emax r emin false
      end
  end.

Definition copysign (x y : float) : float :=
  match x with
  | S754_zero _ => S754_zero (sign_of y)
  | S754_infinity _ => S754_infinity (sign_of y)
  | S754_finite _ m e => S754_finite (sign_of y) m e
  | S754_nan => S754_nan
  end.

(** CPython's [float_rem], the [%] of two floats: the remainder takes the
    sign of the divisor. *)
Definition float_rem (vx wx : float) : result float :=
  if eqb wx zero then Err ZeroDivisionError
  else
    let md := fmod vx wx in
    if negb (eqb md zero) then
      if xorb (ltb wx zero) (ltb md zero) then Ok (add md wx) else Ok md
    else Ok (copysign zero wx).

(** *** [float(str)] *)

(** The characters [float] strips from both ends: the ASCII blanks, and
    NEL (133) and the no-break space (160), which it reads as blanks. *)
Definition is_space (c : ascii) : bool :=
  let n := N_of_ascii c in
  ((9 <=? n) && (n <=? 13) || (n =? 32) || (n =? 133) || (n =? 160))%N.

Definition is_ascii_digit (c : ascii) : bool :=
  let n := N_of_ascii c in ((48 <=? n) && (n <=? 57))%N.

Definition digit_val (c : ascii) : Z := Z.of_N (N_of_ascii c) - 48.

Fixpoint lstrip (s : list ascii) : list ascii :=
  match s with
  | c :: s' => if is_space c then lstrip s' else s
  | [] => []
  end.

Definition strip (s : list ascii) : list ascii :=
  rev (lstrip (rev (lstrip s))).

(** Underscores may only stand between two digits; they are dropped.
    [prev] is the previous character (NUL at the start). *)
Fixpoint drop_underscores (prev : ascii) (s : list ascii) : option (list ascii) :=
  match s with
  | [] => if Ascii.eqb prev "_" then None else Some []
  | c :: s' =>
      if Ascii.eqb c "_" then
        if is_ascii_digit prev then drop_underscores c s' else None
      else
        if Ascii.eqb prev "_" && negb (is_ascii_digit c) then None
        else option_map (cons c) (drop_underscores c s')
  end.

(** Reads a run of digits: the accumulated value, the number of digits
    read and the rest of the input. *)
Fixpoint read_digits (acc : Z) (n : Z) (s : list ascii) : Z * Z * list ascii :=
  match s with
  | c :: s' =>
      if is_ascii_digit c then read_digits (10 * acc + digit_val c) (n + 1) s'
      else (acc, n, s)
  | [] => (acc, n, [])
  end.

Definition read_sign (s : list ascii) : bool * list ascii :=
  match s with
  | c :: s' =>
      if Ascii.eqb c "-" then (true, s')
      else if Ascii.eqb c "+" then (false, s')
      else (false, s)
  | [] => (false, [])
  end.

Definition lower (c : ascii) : ascii :=
  let n := N_of_ascii c in
  if ((65 <=? n) && (n <=? 90))%N then ascii_of_N (n + 32) else c.

Definition lower_string (s : list ascii) : string :=
  string_of_list_ascii (map lower s).

(** The correctly rounded (nearest, ties to even) value of
    [(-1)^s * n * 10^k]. *)
Definition of_decimal (s : bool) (n : Z) (k : Z) : float :=
  match n with
  | Zpos p =>
      if 0 <=? k then
        if 400 <? k then S754_infinity s
        else binary_normalize prec emax (cond_Zopp s (n * 10 ^ k)) 0 false
      else if Z.log2 n + 1 <? 3 * (- k) - 1100 then S754_zero s
      else
        let '(q, e, l) := SFdiv_core_binary prec emax n 0 (10 ^ (- k)) 0 in
        binary_round_aux prec emax s q e l
  | _ => S754_zero s
  end.

(** The optional exponent part; an [e] that no digit follows is not part
    of the number. *)
Definition read_exponent (s : list ascii) : Z * list ascii :=
  match s with
  | c :: s' =>
      if Ascii.eqb (lower c) "e" then
        let '(sg, s1) := read_sign s' in
        let '(v, n, rest) := read_digits 0 0 s1 in
        if n =? 0 then (0, s) else (cond_Zopp sg v, rest)
      else (0, s)
  | [] => (0, [])
  end.

Definition parse_number (sg : bool) (s : list ascii) : option float :=
  let '(ip, ni, s1) := read_digits 0 0 s in
  let '(fp, nf, s2) :=
    match s1 with
    | c :: s1' => if Ascii.eqb c "." then read_digits ip 0 s1' else (ip, 0, s1)
    | [] => (ip, 0, [])
    end in
  if ni + nf =? 0 then None
  else
    let '(ex, s3) := read_exponent s2 in
    match s3 with
    | [] => Some (of_decimal sg fp (ex - nf))
    | _ => None
    end.

(** Python's [float(s)] on a string; [None] is [ValueError]. *)
Definition of_string (s : string) : option float :=
  match drop_underscores Ascii.zero (strip (list_ascii_of_string s)) with
  | None => None
  | Some body =>
      let '(sg, rest) := read_sign body in
      let w := lower_string rest in
      if (String.eqb w "inf" || String.eqb w "infinity")%bool then Some (S754_infinity sg)
      else if String.eqb w "nan" then Some S754_nan
      else parse_number sg rest
  end.

End Float.


(** ** Python strings *)

Module Str.

(** [s.split(sep)] for a one-character separator: the pieces between the
    separators, empty pieces included; never the empty list. *)
Fixpoint split (sep : ascii) (s : string) : list string :=
  match s with
  | EmptyString => [EmptyString]
  | String c s' =>
      if Ascii.eqb c sep then EmptyString :: split sep s'
      else
        match split sep s' with
        | h :: t => String c h :: t
        | [] => [String c EmptyString]
        end
  end.

(** The characters with the Unicode property of a digit: the ten ASCII
    digits and the superscripts two (178), three (179) and one (185). *)
Definition is_digit (c : ascii) : bool :=
  let n := N_of_ascii c in
  ((48 <=? n) && (n <=? 57) || (n =? 178) || (n =? 179) || (n =? 185))%N.

Fixpoint all_digits (s : string) : bool :=
  match s with
  | EmptyString => true
  | String c s' => is_digit c && all_digits s'
  end.

(** [s.isdigit()]: at least one character, and digits only. *)
Definition isdigit (s : string) : bool :=
  match s with
  | EmptyString => false
  | _ => all_digits s
  end.

(** [s.isascii()]: every character is below 128. *)
Fixpoint isascii (s : string) : bool :=
  match s with
  | EmptyString => true
  | String c s' => (N_of_ascii c <? 128)%N && isascii s'
  end.

Definition len (s : string) : nat := String.length s.

(** [sep.join(l)]. *)
Fixpoint join (sep : string) (l : list string) : string :=
  match l with
  | [] => EmptyString
  | x :: l' =>
      match l' with
      | [] => x
      | _ :: _ => x ++ sep ++ join sep l'
      end
  end.

(** The root of a POSIX path: one slash, or two when the path starts with
    exactly two. *)
Definition path_root (p : string) : string :=
  match p with
  | String c0 p0 =>
      if Ascii.eqb c0 "/" then
        match p0 with
        | String c1 p1 =>
            if Ascii.eqb c1 "/" then
              match p1 with
              | String c2 _ => if Ascii.eqb c2 "/" then "/" else "//"
              | EmptyString => "//"
              end
            else "/"
        | EmptyString => "/"
        end
      else EmptyString
  | EmptyString => EmptyString
  end.

(** The components of a POSIX path; empty components and [.] are not
    components, [..] is one. *)
Definition path_parts (p : string) : list string :=
  List.filter (fun c => negb (String.eqb c "" || String.eqb c ".")) (split "/" p).

(** [str(Path(p))] on a POSIX path: the root and the components joined by
    single slashes, and [.] for the path without root or component. *)
Definition path_str (p : string) : string :=
  let s := (path_root p ++ join "/" (path_parts p))%string in
  if String.eqb s "" then "." else s.

(** [Path(p).name] on a POSIX path: the last component, where empty
    components and [.] are not components. *)
Definition path_name (p : string) : string :=
  List.last (List.filter (fun c => negb (String.eqb c "" || String.eqb c "."))
                         (split "/" p)) EmptyString.

Fixpoint digits_of_pos (fuel : nat) (n : Z) (acc : string) : string :=
  match fuel with
  | O => acc
  | S fuel' =>
      let acc' := String (ascii_of_N (Z.to_N (48 + n mod 10))) acc in
      if n <? 10 then acc' else digits_of_pos fuel' (n / 10) acc'
  end.

(** The decimal digits of a natural number [n]. *)
Definition decimal (n : Z) : string :=
  digits_of_pos (S (Z.to_nat (Z.log2 n))) n EmptyString.

Fixpoint zeros (k : nat) : string :=
  match k with
  | O => EmptyString
  | S k' => String "0" (zeros k')
  end.

(** C's [%04d]. *)
Definition format_04d (n : Z) : string :=
  if n <? 0 then
    let d := decimal (- n) in
    String "-" (zeros (3 - String.length d) ++ d)
  else
    let d := decimal n in
    zeros (4 - String.length d) ++ d.

End Str.

(** ** numpy's [datetime64] *)

Module Datetime.

(** A [datetime64[ns]] value is a signed 64-bit count of nanoseconds
    since 1970-01-01T00:00; the least 64-bit integer is NaT. *)
Definition datetime64 : Type := Z.

Definition NaT : datetime64 := - 2 ^ 63.

Definition in_range (t : datetime64) : bool :=
  (- 2 ^ 63 <=? t) && (t <? 2 ^ 63).

Definition ns_per_day : Z := 24 * 60 * 60 * 1000 * 1000 * 1000.

(** numpy's [days_to_yearsdays]: the civil year of a day count since
    1970-01-01 in the proleptic Gregorian calendar. *)
Definition days_to_year (days : Z) : Z :=
  let days_per_400years := 400 * 365 + 100 - 4 + 1 in
  let d0 := days - (365 * 30 + 7) in
  let year := 400 * (d0 / days_per_400years) in
  let d := d0 mod days_per_400years in
  let year :=
    if 366 <=? d then
      let year := year + 100 * ((d - 1) / (100 * 365 + 25 - 1)) in
      let d := (d - 1) mod (100 * 365 + 25 - 1) in
      if 365 <=? d then
        let year := year + 4 * ((d + 1) / (4 * 365 + 1)) in
        let d := (d + 1) mod (4 * 365 + 1) in
        if 366 <=? d then year + (d - 1) / 365 else year
      else year
    else year in
  year + 2000.

(** [str(np.datetime64(t, "Y"))]. *)
Definition year_str (t : datetime64) : string :=
  if t =? NaT then "NaT"
  else Str.format_04d (days_to_year (t / ns_per_day)).

(** [str(np.datetime64(t, "Y")).split("-")[0]]. *)
Definition year_label (t : datetime64) : string :=
  hd EmptyString (Str.split "-" (year_str t)).

End Datetime.

(** ** The gridded-data library: xarray over pandas and numpy *)

Module Xr.
Import Float.

(** *** pandas: label-based slicing of an index *)

(** numpy's sort order: NaN after every number. *)
Definition np_lt (a b : float) : bool :=
  ltb a b || (negb (is_nan a) && is_nan b).

(** Two labels are the same key. *)
Definition label_eq (a b : float) : bool :=
  eqb a b || (is_nan a && is_nan b).

Fixpoint monotonic (le : float -> float -> bool) (l : list float) : bool :=
  match l with
  | a :: t => match t with
              | b :: _ => le a b && monotonic le t
              | [] => true
              end
  | [] => true
  end.

Definition is_monotonic_increasing (idx : list float) : bool :=
  monotonic leb idx.

Definition is_monotonic_decreasing (idx : list float) : bool :=
  monotonic (fun a b => leb b a) idx.

Definition count (p : float -> bool) (l : list float) : nat :=
  length (List.filter p l).

Inductive side : Type := Left | Right.

Definition flip (sd : side) : side :=
  match sd with Left => Right | Right => Left end.

(** [numpy.searchsorted] on an ascending array: the insertion point that
    keeps the array sorted, before ([Left]) or after ([Right]) the
    entries equal to [v]. *)
Definition searchsorted (a : list float) (v : float) (sd : side) : nat :=
  match sd with
  | Left => count (fun e => np_lt e v) a
  | Right => count (fun e => negb (np_lt v e)) a
  end.

(** [Index._searchsorted_monotonic]. *)
Definition searchsorted_monotonic (idx : list float) (label : float) (sd : side)
  : result nat :=
  if is_monotonic_increasing idx then Ok (searchsorted idx label sd)
  else if is_monotonic_decreasing idx then
    Ok (length idx - searchsorted (rev idx) label (flip sd))%nat
  else Err LibraryError.

Fixpoint positions_from (i : nat) (idx : list float) (label : float) : list nat :=
  match idx with
  | [] => []
  | e :: idx' =>
      if label_eq e label then i :: positions_from (S i) idx' label
      else positions_from (S i) idx' label
  end.

(** The positions at which [label] occurs in the index. *)
Definition positions (idx : list float) (label : float) : list nat :=
  positions_from 0 idx label.

(** The positions [p :: ps] are consecutive. *)
Fixpoint contiguous (p : nat) (ps : list nat) : bool :=
  match ps with
  | [] => true
  | q :: ps' => (q =? S p)%nat && contiguous q ps'
  end.

(** [Index.get_slice_bound]: the position of a label that occurs in the
    index (the first occurrence on the left, one past the last on the
    right; [KeyError] when the occurrences are scattered), and the
    insertion point of a label that does not occur, which only a
    monotonic index has. *)
Definition get_slice_bound (idx : list float) (label : float) (sd : side)
  : result nat :=
  match positions idx label with
  | [] => searchsorted_monotonic idx label sd
  | p :: ps =>
      if contiguous p ps then
        Ok (match sd with Left => p | Right => S (List.last ps p) end)
      else Err LibraryError
  end.

(** [l[start:stop]] for positions within the list. *)
Definition slice_list {A : Type} (start stop : nat) (l : list A) : list A :=
  firstn (stop - start) (skipn start l).

(** *** xarray: labelled arrays *)

(** The floating types of a variable. *)
Inductive Dtype : Type := Float32 | Float64.

(** A variable of floating type over the axes (time, lat, lon) or
    (lat, lon).  [lon], [lat] and [time] are the coordinates of those
    names, when the variable has them; [cells] holds one slab of rows (lat)
    of columns (lon) per time step, and a single slab when there is no time
    axis; the cells of a [Float32] variable are binary32 numbers. *)
Record DataArray : Type := {
  dtype : Dtype;
  lon : option (list float);
  lat : option (list float);
  time : option (list Datetime.datetime64);
  cells : list (list (list float))
}.

(** [data.sel(lon=slice(lon_min, lon_max), lat=slice(lat_min, lat_max))].
    An axis without coordinate is indexed by position, which the float
    bounds of the slice do not allow. *)
Definition sel (data : DataArray) (lon_min lon_max lat_min lat_max : float)
  : result DataArray :=
  match lon data, lat data with
  | Some lons, Some lats =>
      do j0 <- get_slice_bound lons lon_min Left;
      do j1 <- get_slice_bound lons lon_max Right;
      do i0 <- get_slice_bound lats lat_min Left;
      do i1 <- get_slice_bound lats lat_max Right;
      Ok {| dtype := dtype data;
            lon := Some (slice_list j0 j1 lons);
            lat := Some (slice_list i0 i1 lats);
            time := time data;
            cells := map (fun slab => map (slice_list j0 j1) (slice_list i0 i1 slab))
                         (cells data) |}
  | _, _ => Err LibraryError
  end.

Definition nan_to_zero (v : float) : float :=
  if is_nan v then zero else v.

(** *** numpy: the sum of a contiguous array *)

(** The addition of the type [t]. *)
Definition add_as (t : Dtype) : float -> float -> float :=
  match t with
  | Float32 => add32
  | Float64 => add
  end.

Section PairwiseSum.
Context {A : Type} (plus : A -> A -> A) (z : A).

(** The eight running sums of numpy's unrolled loop. *)
Definition lanes : Type := A * A * A * A * A * A * A * A.

(** The unrolled loop: as long as eight elements are left, the k-th of
    them is added to the k-th running sum.  Returns the running sums and
    the elements left over, fewer than eight. *)
Fixpoint sum_blocks (r : lanes) (a : list A) {struct a} : lanes * list A :=
  match a with
  | a0 :: a1 :: a2 :: a3 :: a4 :: a5 :: a6 :: a7 :: rest =>
      let '(r0, r1, r2, r3, r4, r5, r6, r7) := r in
      sum_blocks (plus r0 a0, plus r1 a1, plus r2 a2, plus r3 a3,
                  plus r4 a4, plus r5 a5, plus r6 a6, plus r7 a7) rest
  | _ => (r, a)
  end.

(** numpy's [pairwise_sum] of the elements [a]:
    - fewer than eight elements are added one by one, starting from [z];
    - up to 128 elements are added in eight running sums, which are then
      added two by two, and the elements left over are added one by one;
    - a longer array is cut in two, the first part holding half of the
      elements rounded down to a multiple of eight, and the sums of the
      two parts are added.
    [fuel] bounds the depth of the cutting; the length of [a] is enough
    (see [pairwise_sum_unfold]). *)
Fixpoint pairwise_sum (fuel : nat) (a : list A) : A :=
  match a with
  | a0 :: a1 :: a2 :: a3 :: a4 :: a5 :: a6 :: a7 :: rest =>
      let n := length a in
      if (n <=? 128)%nat then
        let '(r0, r1, r2, r3, r4, r5, r6, r7, tail) :=
          sum_blocks (a0, a1, a2, a3, a4, a5, a6, a7) rest in
        fold_left plus tail
          (plus (plus (plus r0 r1) (plus r2 r3)) (plus (plus r4 r5) (plus r6 r7)))
      else
        match fuel with
        | S fuel' =>
            let n2 := (n / 2 - (n / 2) mod 8)%nat in
            plus (pairwise_sum fuel' (firstn n2 a)) (pairwise_sum fuel' (skipn n2 a))
        | O => z
        end
  | _ => fold_left plus a z
  end.

End PairwiseSum.

(** [numpy.add.reduce] over a contiguous run of elements of type [t]: the
    pairwise sum is added to the initial value, zero.  Some versions of
    numpy add a short run up from the negative zero; the reduction is the
    same ([add_reduce_start]). *)
Definition add_reduce (t : Dtype) (l : list float) : float :=
  add_as t zero (pairwise_sum (add_as t) zero (length l) l).

(** The sum with [skipna=True]: missing cells are replaced by zero, then
    the cells are added. *)
Definition nansum (t : Dtype) (l : list float) : float :=
  add_reduce t (map nan_to_zero l).

(** The Python [float] of a value of type [t]. *)
Definition as_python (t : Dtype) (v : float) : float :=
  match t with
  | Float32 => widen v
  | Float64 => v
  end.

(** The result of reducing the two horizontal axes: one value per time
    step, and the time coordinate when the variable has one.  The values
    are held as the Python floats that [float(...)] makes of them on lines
    55 and 61, which are the same numbers. *)
Record Reduced : Type := {
  r_time : option (list Datetime.datetime64);
  r_values : list float
}.

(** [sliced.sum(dim=("lat", "lon"), skipna=True)]: the rows of a slab lie
    one after the other in memory, and numpy sums them as one run, in the
    type of the variable. *)
Definition sum_lat_lon (d : DataArray) : Reduced :=
  {| r_time := time d;
     r_values := map (fun slab => as_python (dtype d) (nansum (dtype d) (concat slab)))
                     (cells d) |}.

(** [float(summed.values)]: only an array of one element converts. *)
Definition to_float (vals : list float) : result float :=
  match vals with
  | [v] => Ok v
  | _ => Err LibraryError
  end.

Fixpoint time_positions_from (i : nat) (times : list Datetime.datetime64)
    (tv : Datetime.datetime64) : list nat :=
  match times with
  | [] => []
  | t :: times' =>
      if t =? tv then i :: time_positions_from (S i) times' tv
      else time_positions_from (S i) times' tv
  end.

(** [summed.sel(time=tv).values]: the values at the positions of the
    label [tv]. *)
Definition sel_time (summed : Reduced) (times : list Datetime.datetime64)
    (tv : Datetime.datetime64) : list float :=
  flat_map (fun i => match nth_error (r_values summed) i with
                     | Some v => [v]
                     | None => []
                     end)
           (time_positions_from 0 times tv).

Definition fmax (a b : float) : float := if ltb a b then b else a.

(** [lon.max()]: the greatest value that is not NaN; NaN when there is
    none, and an error on an empty coordinate. *)
Definition nanmax (l : list float) : result float :=
  match l with
  | [] => Err LibraryError
  | _ :: _ =>
      match List.filter (fun v => negb (is_nan v)) l with
      | [] => Ok nan
      | x :: xs => Ok (fold_left fmax xs x)
      end
  end.

End Xr.

(** ** The script *)

Import Float Xr Datetime.

Record SeriesPoint : Type := { date : string; value : float }.

(** The command line. *)
Record Args : Type := {
  input : string;
  bbox : string;
  var : string;
  output : string
}.

(** What the script reads and writes: the dataset [xr.open_dataset] finds
    at each path, whether the file system lets the script create the parent
    directories of a path and write a file there, the files written, under
    the normal form of their path (the series stands for its JSON text),
    and the lines printed. *)
Record World : Type := {
  store : gmap string (gmap string DataArray);
  writable : string -> bool;
  files : gmap string (list SeriesPoint);
  stdout : list string
}.

(** The local variables of [main] that the loop over the inputs updates. *)
Record State : Type := {
  lon_min : float;
  lat_min : float;
  lon_max : float;
  lat_max : float;
  series : list SeriesPoint
}.

Fixpoint map_result {A B : Type} (f : A -> result B) (l : list A) : result (list B) :=
  match l with
  | [] => Ok []
  | x :: xs => do y <- f x; do ys <- map_result f xs; Ok (y :: ys)
  end.

Definition py_float (x : string) : result float :=
  match Float.of_string x with
  | Some v => Ok v
  | None => Err InvalidArgument
  end.

Definition parse_bbox (value : string) : result (list float) :=
  do parts <- map_result py_float (Str.split "," value);
  if negb (length parts =? 4)%nat then Err InvalidArgument
  else Ok parts.

Definition extract_year_from_filename (filename : string) : option string :=
  List.find (fun part => Str.isdigit part && (Str.len part =? 4)%nat)
            (Str.split "_" filename).

Definition open_dataset (w : World) (input_path : string)
  : result (gmap string DataArray) :=
  match store w !! input_path with
  | Some dataset => Ok dataset
  | None => Err LibraryError
  end.

(** Lines 43 to 47: the longitude bounds are remapped when the grid runs
    from 0 to 360. *)
Definition normalize (data : DataArray) (st : State) : result State :=
  match lon data with
  | Some lon =>
      do m <- nanmax lon;
      if ltb f180 m then
        do lo <- float_rem (lon_min st) f360;
        do hi <- float_rem (lon_max st) f360;
        Ok {| lon_min := lo; lat_min := lat_min st;
              lon_max := hi; lat_max := lat_max st;
              series := series st |}
      else Ok st
  | None => Ok st
  end.

(** Lines 53 to 56: one point per value of the time coordinate. *)
Fixpoint label_times (summed : Reduced) (times todo : list Datetime.datetime64)
    (acc : list SeriesPoint) : result (list SeriesPoint) :=
  match todo with
  | [] => Ok acc
  | time_value :: rest =>
      let year := Datetime.year_label time_value in
      do val <- to_float (sel_time summed times time_value);
      label_times summed times rest (acc ++ [{| date := year; value := val |}])
  end.

(** Lines 49 to 62: the series after the points of one source have been
    appended, for the bounds [st] left by the normalisation. *)
Definition reduce_and_label (data : DataArray) (st : State) (input_path : string)
  : result (list SeriesPoint) :=
  do sliced <- sel data (lon_min st) (lon_max st) (lat_min st) (lat_max st);
  let summed := sum_lat_lon sliced in
  match r_time summed with
  | Some times => label_times summed times times (series st)
  | None =>
      match extract_year_from_filename (Str.path_name input_path) with
      | None => Err MissingYear
      | Some year =>
          if String.eqb year "" then Err MissingYear
          else
            do val <- to_float (r_values summed);
            Ok (series st ++ [{| date := year; value := val |}])
      end
  end.

(** The body of the loop over the inputs. *)
Definition process_source (v : string) (w : World) (st : State) (input_path : string)
  : result State :=
  do dataset <- open_dataset w input_path;
  match dataset !! v with
  | None => Err VariableNotFound
  | Some data =>
      do st1 <- normalize data st;
      do series1 <- reduce_and_label data st1 input_path;
      Ok {| lon_min := lon_min st1; lat_min := lat_min st1;
            lon_max := lon_max st1; lat_max := lat_max st1;
            series := series1 |}
  end.

Fixpoint run_sources (v : string) (w : World) (st : State) (input_paths : list string)
  : result State :=
  match input_paths with
  | [] => Ok st
  | input_path :: rest =>
      do st' <- process_source v w st input_path;
      run_sources v w st' rest
  end.

(** [sorted(series, key=lambda x: x["date"])]: Python's sort is stable and
    compares strings by code point; a stable sort has one result, computed
    here by insertion. *)
Fixpoint insert_point (x : SeriesPoint) (l : list SeriesPoint) : list SeriesPoint :=
  match l with
  | [] => [x]
  | y :: l' =>
      if String.leb (date x) (date y) then x :: y :: l'
      else y :: insert_point x l'
  end.

Fixpoint sorted (l : list SeriesPoint) : list SeriesPoint :=
  match l with
  | [] => []
  | x :: l' => insert_point x (sorted l')
  end.

(** Lines 31 to 64: everything before the output is written. *)
Definition collect (args : Args) (w : World) : result (list SeriesPoint) :=
  do box <- parse_bbox (bbox args);
  match box with
  | [lon_min0; lat_min0; lon_max0; lat_max0] =>
      let st0 := {| lon_min := lon_min0; lat_min := lat_min0;
                    lon_max := lon_max0; lat_max := lat_max0;
                    series := [] |} in
      do st <- run_sources (var args) w st0 (Str.split "," (input args));
      Ok (sorted (series st))
  | _ => Err InvalidArgument
  end.

(** The datasets left once a file has been written at [output_path]:
    what was a dataset under a name of that file is one no longer. *)
Definition overwritten (output_path : string)
    (st : gmap string (gmap string DataArray)) : gmap string (gmap string DataArray) :=
  filter (fun kv => Str.path_str (fst kv) <> output_path) st.

(** Lines 66 to 70: the sorted series is written at [Path(args.output)] and
    one line is printed.  The file holds the list of points rather than its
    JSON text; an exception, of [mkdir] and [write_text] too, leaves the
    world as it was. *)
Definition main (args : Args) (w : World) : result unit * World :=
  match collect args w with
  | Err e => (Err e, w)
  | Ok out =>
      let output_path := Str.path_str (output args) in
      if writable w output_path then
        (Ok tt,
         {| store := overwritten output_path (store w);
            writable := writable w;
            files := <[output_path := out]> (files w);
            stdout := stdout w ++
              [("Wrote " ++ Str.decimal (Z.of_nat (length out)) ++ " rows to "
                ++ output_path)%string] |})
      else (Err LibraryError, w)
  end.

(** * Vocabulary of the statements *)

(** ** Rounding *)

(** The right shift keeps the quotient in [shr_m] and records in the two
    bits whether the remainder is zero. *)
Definition shr_inv (m0 k : Z) (r : shr_record) : Prop :=
  0 <= shr_m r /\
  exists rem, m0 = shr_m r * 2 ^ k + rem /\ 0 <= rem < 2 ^ k /\
              (rem = 0 <-> shr_r r = false /\ shr_s r = false).

Definition ulp_of (V : Z) : Z := 2 ^ (fexp prec emax (Zdigits2 V + emin) - emin).

(** [r] is one of the two floats of sign [s] next to the magnitude
    [V * 2 ^ emin], and it is that value when the value is a float. *)
Definition rounds_to (s : bool) (V : Z) (r : float) : Prop :=
  exists q, V / ulp_of V <= q <= V / ulp_of V + 1 /\
            (V mod ulp_of V = 0 -> q = V / ulp_of V) /\
            ((r = S754_infinity s /\ 2 ^ (emax - emin) <= q * ulp_of V) \/
             (exists m e, r = S754_finite s m e /\ valid r = true /\
                          Zpos m * 2 ^ (e - emin) = q * ulp_of V)).

(** The divisor of the normalisation, as a multiple of [2 ^ emin]. *)
Definition Y360 : Z := scaled f360.

(** [r] is what Python computes for [x % 360]: NaN when [x] is not
    finite, and otherwise a float between 0 and 360, which is below 360
    and exact when [x] is not negative. *)
Definition remapped (x r : float) : Prop :=
  float_rem x f360 = Ok r /\ valid r = true /\
  (is_finite x = false -> r = nan) /\
  (is_finite x = true -> leb zero r = true /\ leb r f360 = true) /\
  (is_finite x = true -> sign_of x = false ->
   ltb r f360 = true /\ scaled r = scaled x mod Y360).

(** ** The order of floats *)

(** The place of a float in the order of [SFcompare]: its class, then its
    exponent and mantissa. *)
Definition rank (x : float) : Z * (Z * Z) :=
  match x with
  | S754_infinity true => (-2, (0, 0))
  | S754_finite true m e => (-1, (- e, - Zpos m))
  | S754_zero _ => (0, (0, 0))
  | S754_finite false m e => (1, (e, Zpos m))
  | S754_infinity false => (2, (0, 0))
  | S754_nan => (3, (0, 0))
  end.

Definition lex_lt (a b : Z * (Z * Z)) : Prop :=
  fst a < fst b \/
  (fst a = fst b /\
   (fst (snd a) < fst (snd b) \/
    (fst (snd a) = fst (snd b) /\ snd (snd a) < snd (snd b)))).

(** ** Grids and boxes *)

Definition no_nan (l : list float) : bool :=
  forallb (fun v => negb (is_nan v)) l.

(** A coordinate whose labels are numbers in ascending order. *)
Definition ascending (idx : list float) : bool :=
  is_monotonic_increasing idx && no_nan idx.




(** The grid's longitudes run from 0 to 360: its longitude coordinate has
    a greatest value above 180. *)
Definition uses_0_360 (data : DataArray) : bool :=
  match lon data with
  | Some l => match nanmax l with
              | Ok m => ltb f180 m
              | Err _ => false
              end
  | None => false
  end.

(** ** States of the loop *)

(** The state [main] starts the loop with. *)
Definition initial_state (a b c d : float) : State :=
  {| lon_min := a; lat_min := b; lon_max := c; lat_max := d; series := [] |}.

Definition with_lon (st : State) (lo hi : float) : State :=
  {| lon_min := lo; lat_min := lat_min st; lon_max := hi; lat_max := lat_max st;
     series := series st |}.

Definition with_series (st : State) (s : list SeriesPoint) : State :=
  {| lon_min := lon_min st; lat_min := lat_min st;
     lon_max := lon_max st; lat_max := lat_max st; series := s |}.

(** What the longitude bounds can be after some sources: the ones the
    loop started with, or their remainders. *)
Definition carried (st0 st : State) : Prop :=
  (lon_min st = lon_min st0 \/ float_rem (lon_min st0) f360 = Ok (lon_min st)) /\
  (lon_max st = lon_max st0 \/ float_rem (lon_max st0) f360 = Ok (lon_max st)).

(** The points one source contributes: those it appends to an empty
    series. *)
Definition source_points (v : string) (w : World) (st : State) (p : string)
  : result (list SeriesPoint) :=
  do st' <- process_source v w (with_series st []) p; Ok (series st').

(** The points of every source, in the order the sources are processed. *)
Fixpoint points_by_source (v : string) (w : World) (st : State) (paths : list string)
  : result (list (list SeriesPoint)) :=
  match paths with
  | [] => Ok []
  | p :: rest =>
      do pts <- source_points v w st p;
      do st' <- process_source v w st p;
      do more <- points_by_source v w st' rest;
      Ok (pts :: more)
  end.

(** ** File names and timestamps *)

(** A token the script takes for a year. *)
Definition year_token (part : string) : bool :=
  Str.isdigit part && (Str.len part =? 4)%nat.

(** Modelled on the specification's words: [tok] is the first
    underscore-delimited token of [name] that is all-numeric and exactly
    four characters long. *)
Definition first_year_token (name tok : string) : Prop :=
  exists before after,
    Str.split "_" name = before ++ tok :: after /\
    Forall (fun t => year_token t = false) before /\
    Str.isdigit tok = true /\ Str.len tok = 4%nat.

Definition no_year_token (name : string) : Prop :=
  Forall (fun t => year_token t = false) (Str.split "_" name).

(** The number of leap years before year [y] in the proleptic Gregorian
    calendar. *)
Definition leap_years_before (y : Z) : Z :=
  (y - 1) / 4 - (y - 1) / 100 + (y - 1) / 400.

(** The day count, since 1970-01-01, of January 1st of year [y]. *)
Definition days_before_year (y : Z) : Z :=
  365 * (y - 1970) + leap_years_before y - leap_years_before 1970.

(** The first nanosecond of year [y]. *)
Definition start_of_year (y : Z) : Z := days_before_year y * ns_per_day.

(** A timestamp: a 64-bit count that is not NaT. *)
Definition valid_time (t : datetime64) : bool := in_range t && negb (t =? NaT).

(** The label [numpy] prints for year [y], cut at the first hyphen. *)
Definition year_text (y : Z) : string :=
  hd EmptyString (Str.split "-" (Str.format_04d y)).

Definition year_text_ok (y : Z) : bool :=
  String.eqb (year_text y) (Str.decimal y) && (String.length (Str.decimal y) =? 4)%nat.

(** The point the loop over the time coordinate emits for a time step. *)
Definition time_point (tv : datetime64 * float) : SeriesPoint :=
  {| date := year_label (fst tv); value := snd tv |}.

(** ** The order of the output *)

(** The order of the output: periods compared as strings. *)
Definition date_le (x y : SeriesPoint) : Prop := String.leb (date x) (date y) = true.

Definition same_date (p : string) (x : SeriesPoint) : bool := String.eqb (date x) p.

(** ** Examples *)


(** A grid with latitudes in descending order. *)
Definition descending_grid : DataArray :=
  {| dtype := Float64; lon := Some [of_Z 0; of_Z 10];
     lat := Some [of_Z 10; of_Z 0];
     time := None;
     cells := [[[of_Z 1; of_Z 2]; [of_Z 3; of_Z 4]]] |}.

(** A grid on the 0 to 360 convention and one on the -180 to 180
    convention, without time axis. *)
Definition grid_0_360 : DataArray :=
  {| dtype := Float64; lon := Some [of_Z 0; of_Z 90; of_Z 180; of_Z 270; of_Z 350];
     lat := Some [of_Z 0];
     time := None;
     cells := [[[of_Z 1; of_Z 2; of_Z 3; of_Z 4; of_Z 5]]] |}.

Definition grid_180 : DataArray :=
  {| dtype := Float64; lon := Some [of_Z (-180); of_Z (-90); of_Z (-10); of_Z 0; of_Z 10; of_Z 90];
     lat := Some [of_Z 0];
     time := None;
     cells := [[[of_Z 1; of_Z 2; of_Z 3; of_Z 4; of_Z 5; of_Z 6]]] |}.

(** Two years of yearly data on a 2 by 2 grid. *)
Definition yearly_grid : DataArray :=
  {| dtype := Float64; lon := Some [of_Z 0; of_Z 10];
     lat := Some [of_Z 0; of_Z 10];
     time := Some [1546300800000000000; 1577836800000000000];
     cells := [ [[of_Z 1; of_Z 1]; [of_Z 1; of_Z 2]];
                [[of_Z 2; of_Z 2]; [of_Z 2; Float.add (of_Z 1) (SFdiv prec emax (of_Z 1) (of_Z 2))]] ] |}.

(** The same year twice on the time axis, and a time axis whose only
    value is missing. *)
Definition repeated_time_grid : DataArray :=
  {| dtype := Float64; lon := Some [of_Z 0; of_Z 10];
     lat := Some [of_Z 0; of_Z 10];
     time := Some [1546300800000000000; 1546300800000000000];
     cells := [ [[of_Z 1; of_Z 1]; [of_Z 1; of_Z 2]];
                [[of_Z 2; of_Z 2]; [of_Z 2; of_Z 2]] ] |}.

Definition missing_time_grid : DataArray :=
  {| dtype := Float64; lon := Some [of_Z 0; of_Z 10];
     lat := Some [of_Z 0; of_Z 10];
     time := Some [NaT];
     cells := [ [[of_Z 1; of_Z 1]; [of_Z 1; of_Z 2]] ] |}.

Definition box_10 : State := initial_state (of_Z (-10)) (of_Z 0) (of_Z 10) (of_Z 0).

(** Two files for the examples: a grid on each convention, the year in
    the file name. *)
Definition two_conventions : World :=
  {| store := <["edgar_2020_co2.nc" := {["v" := grid_0_360]}]>
              (<["edgar_2021_co2.nc" := {["v" := grid_180]}]> ∅);
     writable := fun _ => true;
     files := ∅;
     stdout := [] |}.

(** Two files whose years are out of order on the command line. *)
Definition two_years : World :=
  {| store := <["edgar_2021_co2.nc" := {["v" := grid_180]}]>
              (<["edgar_2019_co2.nc" := {["v" := grid_180]}]> ∅);
     writable := fun _ => true;
     files := ∅;
     stdout := [] |}.

Definition two_years_args : Args :=
  {| input := "edgar_2021_co2.nc,edgar_2019_co2.nc"; bbox := "-10,0,10,0";
     var := "v"; output := "out/series.json" |}.

(** Three files: the second holds another variable than the one asked
    for. *)
Definition missing_variable : World :=
  {| store := <["edgar_2019_co2.nc" := {["v" := grid_180]}]>
              (<["edgar_2020_ch4.nc" := {["ch4" := grid_180]}]>
               (<["edgar_2021_co2.nc" := {["v" := grid_180]}]> ∅));
     writable := fun _ => true;
     files := ∅;
     stdout := [] |}.

Definition missing_variable_args : Args :=
  {| input := "edgar_2019_co2.nc,edgar_2020_ch4.nc,edgar_2021_co2.nc";
     bbox := "-10,0,10,0"; var := "v"; output := "out/series.json" |}.

(** Two files: the first has no year in its name, the second lacks the
    variable. *)
Definition missing_year_first : World :=
  {| store := <["edgar_co2.nc" := {["v" := grid_180]}]>
              (<["edgar_2020_ch4.nc" := {["ch4" := grid_180]}]> ∅);
     writable := fun _ => true;
     files := ∅;
     stdout := [] |}.

Definition missing_year_first_args : Args :=
  {| input := "edgar_co2.nc,edgar_2020_ch4.nc";
     bbox := "-10,0,10,0"; var := "v"; output := "out/series.json" |}.

(** * Vocabulary of the further properties *)

(** ** Runs *)

(** The number of rows a source contributes: one per value of the time
    coordinate of the variable, and one when it has no time coordinate. *)
Definition rows_of (v : string) (w : World) (p : string) : nat :=
  match store w !! p with
  | Some ds =>
      match ds !! v with
      | Some data => match time data with
                     | Some times => length times
                     | None => 1%nat
                     end
      | None => 0%nat
      end
  | None => 0%nat
  end.

(** The number of times the character [c] occurs in [s]. *)
Fixpoint occurrences (c : ascii) (s : string) : nat :=
  match s with
  | EmptyString => 0%nat
  | String a s' => if Ascii.eqb a c then S (occurrences c s') else occurrences c s'
  end.

(** The script finds the variable [v] in the dataset at path [p]. *)
Definition has_variable (v : string) (w : World) (p : string) : Prop :=
  exists ds data, store w !! p = Some ds /\ ds !! v = Some data.

(** The grid of the variable at path [p] is not on the 0 to 360
    convention. *)
Definition conventional (v : string) (w : World) (p : string) : Prop :=
  forall ds data, store w !! p = Some ds -> ds !! v = Some data -> uses_0_360 data = false.

(** The reason for which processing the source at path [p] can fail with
    the error [e]. *)
Definition cause (v : string) (w : World) (p : string) (e : error) : Prop :=
  match e with
  | InvalidArgument | ZeroDivisionError => False
  | VariableNotFound => exists ds, store w !! p = Some ds /\ ds !! v = None
  | MissingYear =>
      exists ds data,
        store w !! p = Some ds /\ ds !! v = Some data /\ time data = None /\
        extract_year_from_filename (Str.path_name p) = None
  | LibraryError => True
  end.

(** ** Paths *)




(** ** Numbers and their text *)

(** Python's [str(z)] for an integer [z]. *)
Definition int_text (z : Z) : string :=
  if z <? 0 then String "-" (Str.decimal (- z)) else Str.decimal z.

(** The character of the decimal digit [k]. *)
Definition digit_chr (k : Z) : ascii := ascii_of_N (Z.to_N (48 + k)).

(** The four decimal digits of [n], for [n] below 10000. *)
Definition four_digits (n : Z) : string :=
  String (digit_chr (n / 1000))
    (String (digit_chr (n / 100 mod 10))
       (String (digit_chr (n / 10 mod 10))
          (String (digit_chr (n mod 10)) EmptyString))).

(** [%04d] prints the four digits of [n]. *)
Definition four_digits_ok (n : Z) : bool := String.eqb (Str.format_04d n) (four_digits n).

(** The label of year [y] is not above the label of the next year. *)
Definition next_year_ok (y : Z) : bool :=
  String.leb (Str.decimal y) (Str.decimal (y + 1)).

(** The text of year [n] is below the text of the next year, and not the
    other way round. *)
Definition next_four_digits_ok (n : Z) : bool :=
  String.leb (Str.format_04d n) (Str.format_04d (n + 1)) &&
  negb (String.leb (Str.format_04d (n + 1)) (Str.format_04d n)).

(** ** Bounds, time steps and coordinates *)

(** A bound the normalisation can leave: NaN, or a float from 0 to 360. *)
Definition normalised (x : float) : bool :=
  is_nan x || (leb zero x && leb x f360).

(** The time steps are timestamps in ascending order. *)
Definition chronological (times : list datetime64) : Prop :=
  Forall (fun t => valid_time t = true) times /\ StronglySorted Z.lt times.

(** A coordinate whose labels are numbers in descending order (and not
    all the same). *)
Definition descending (idx : list float) : bool :=
  is_monotonic_decreasing idx && negb (is_monotonic_increasing idx) && no_nan idx.

(** ** Cells that hold whole numbers *)

(** A cell that holds the whole number [k], or a missing cell. *)
Definition cell (c : option Z) : float :=
  match c with Some k => of_Z k | None => nan end.

(** The sum of the whole numbers in the cells that are not missing. *)
Definition total (l : list (option Z)) : Z :=
  fold_right (fun c acc => match c with Some k => k + acc | None => acc end) 0 l.

(** The cells that are not missing hold natural numbers. *)
Definition counts (l : list (option Z)) : Prop :=
  Forall (fun c => match c with Some k => 0 <= k | None => True end) l.

(** ** A further example *)

(** The command line of [two_years_args] with the two files in the other
    order. *)
Definition two_years_ordered_args : Args :=
  {| input := "edgar_2019_co2.nc,edgar_2021_co2.nc"; bbox := "-10,0,10,0";
     var := "v"; output := "out/series.json" |}.


(** * Properties *)

(** ** Floats: rounding and the remainder modulo 360 *)

Lemma fexp_eq e : fexp prec emax e = Z.max (e - 53) (-1074).
Proof. reflexivity. Qed.

Lemma digits2_pos_bounds p :
  2 ^ (Zpos (digits2_pos p) - 1) <= Zpos p < 2 ^ Zpos (digits2_pos p).
Proof.
  induction p as [p IH | p IH |]; cbn [digits2_pos].
  - rewrite Pos2Z.inj_succ, Z.pow_succ_r by lia.
    replace (Z.succ (Z.pos (digits2_pos p)) - 1) with (Z.succ (Z.pos (digits2_pos p) - 1)) by lia.
    rewrite Z.pow_succ_r by lia. lia.
  - rewrite Pos2Z.inj_succ, Z.pow_succ_r by lia.
    replace (Z.succ (Z.pos (digits2_pos p)) - 1) with (Z.succ (Z.pos (digits2_pos p) - 1)) by lia.
    rewrite Z.pow_succ_r by lia. lia.
  - cbn. lia.
Qed.

Lemma Zdigits2_unique v D :
  2 ^ (D - 1) <= v < 2 ^ D -> 0 < v -> Zdigits2 v = D.
Proof.
  intros H Hv. destruct v as [|p|p]; try lia. cbn [Zdigits2].
  pose proof (digits2_pos_bounds p) as B.
  set (d := Zpos (digits2_pos p)) in *.
  assert (0 < D). { destruct (Z.ltb_spec 0 D); auto. rewrite (Z.pow_neg_r 2 (D-1)) in H by lia. 
    assert (2 ^ D <= 2 ^ 0) by (apply Z.pow_le_mono_r; lia). cbn in H0. lia. }
  destruct (Z.lt_trichotomy d D) as [L|[L|L]]; auto.
  - assert (2 ^ d <= 2 ^ (D - 1)) by (apply Z.pow_le_mono_r; lia). lia.
  - assert (2 ^ D <= 2 ^ (d - 1)) by (apply Z.pow_le_mono_r; lia). lia.
Qed.

Lemma Zdigits2_shift p k :
  0 <= k -> Zdigits2 (Zpos p * 2 ^ k) = Zpos (digits2_pos p) + k.
Proof.
  intros Hk. pose proof (digits2_pos_bounds p) as B.
  assert (0 < 2 ^ k) by (apply Z.pow_pos_nonneg; lia).
  apply Zdigits2_unique; [|nia].
  replace (Zpos (digits2_pos p) + k - 1) with ((Zpos (digits2_pos p) - 1) + k) by lia.
  rewrite !Z.pow_add_r by lia. nia.
Qed.

Lemma Zdigits2_le a b : 0 < a -> a <= b -> Zdigits2 a <= Zdigits2 b.
Proof.
  intros Ha Hab. destruct a as [|p|p]; try lia. destruct b as [|q|q]; try lia.
  cbn [Zdigits2]. pose proof (digits2_pos_bounds p). pose proof (digits2_pos_bounds q).
  destruct (Z.leb_spec (Zpos (digits2_pos p)) (Zpos (digits2_pos q))); auto.
  assert (2 ^ Zpos (digits2_pos q) <= 2 ^ (Zpos (digits2_pos p) - 1)) by (apply Z.pow_le_mono_r; lia).
  lia.
Qed.

Lemma pos_iter_xO m d : Zpos (Pos.iter xO m d) = Zpos m * 2 ^ Zpos d.
Proof.
  induction d as [|d IH] using Pos.peano_ind.
  - cbn. lia.
  - rewrite Pos.iter_succ, Pos2Z.inj_xO, IH, Pos2Z.inj_succ, Z.pow_succ_r by lia. lia.
Qed.

Lemma shr_1_inv m0 k r : 0 <= k -> shr_inv m0 k r -> shr_inv m0 (k + 1) (shr_1 r).
Proof.
  intros Hk (Hm & rem & E & Hr & Hz).
  assert (P : 0 < 2 ^ k) by (apply Z.pow_pos_nonneg; lia).
  unfold shr_inv. rewrite Z.pow_add_r, Z.pow_1_r by lia.
  destruct r as [m r s]; cbn [shr_m shr_r shr_s] in *.
  destruct m as [|[p|p|]|p]; cbn [shr_1 shr_m shr_r shr_s]; try lia.
  - split; [lia|]. exists rem. split; [lia|]. split; [lia|].
    rewrite orb_false_iff. intuition congruence.
  - split; [lia|]. exists (rem + 2 ^ k). split; [lia|]. split; [lia|].
    split; [lia|]. intros [? ?]; congruence.
  - split; [lia|]. exists rem. split; [lia|]. split; [lia|].
    rewrite orb_false_iff. intuition congruence.
  - split; [lia|]. exists (rem + 2 ^ k). split; [lia|]. split; [lia|].
    split; [lia|]. intros [? ?]; congruence.
Qed.

Lemma iter_pos_shr_inv m0 p : forall k r,
  0 <= k -> shr_inv m0 k r -> shr_inv m0 (k + Zpos p) (SpecFloat.iter_pos shr_1 p r).
Proof.
  induction p as [p IH|p IH|]; intros k r Hk H; cbn [SpecFloat.iter_pos].
  - replace (k + Zpos p~1) with (((k + 1) + Zpos p) + Zpos p) by lia.
    apply IH; [lia|]. apply IH; [lia|]. apply shr_1_inv; auto.
  - replace (k + Zpos p~0) with ((k + Zpos p) + Zpos p) by lia.
    apply IH; [lia|]. apply IH; auto.
  - apply shr_1_inv; auto.
Qed.

Lemma shr_exact_spec m e n :
  0 <= m -> 0 <= n ->
  exists r, shr (shr_record_of_loc m loc_Exact) e n = (r, e + n) /\ shr_inv m n r.
Proof.
  intros Hm Hn.
  assert (I0 : shr_inv m 0 (shr_record_of_loc m loc_Exact)).
  { split; [exact Hm|]. exists 0. cbn. split; [lia|]. split; [lia|]. tauto. }
  destruct n as [|p|p]; try lia.
  - exists (shr_record_of_loc m loc_Exact). rewrite Z.add_0_r. auto.
  - eexists. split; [reflexivity|].
    apply (iter_pos_shr_inv m p 0); [lia|exact I0].
Qed.

Lemma round_nearest_even_bounds q r :
  q <= round_nearest_even q (loc_of_shr_record r) <= q + 1 /\
  (shr_r r = false /\ shr_s r = false -> round_nearest_even q (loc_of_shr_record r) = q).
Proof.
  destruct r as [m [|] [|]]; cbn; try destruct (Z.even q); split; try lia; intros [? ?]; congruence.
Qed.

Lemma shr_inv_div m n r :
  0 <= n -> shr_inv m n r -> shr_m r = m / 2 ^ n /\
  (m mod 2 ^ n = 0 -> shr_r r = false /\ shr_s r = false).
Proof.
  intros Hn (Hm & rem & E & Hr & Hz).
  assert (P : 0 < 2 ^ n) by (apply Z.pow_pos_nonneg; lia).
  assert (Q : shr_m r = m / 2 ^ n).
  { apply (Z.div_unique m (2 ^ n) (shr_m r) rem); [left; lia | lia]. }
  split; [exact Q|].
  intros Hmod. apply Hz.
  assert (rem = m mod 2 ^ n).
  { apply (Z.mod_unique m (2 ^ n) (shr_m r) rem); [left; lia | lia]. }
  lia.
Qed.

Lemma binary_round_aux_exact s m e :
  fexp prec emax (Zpos (digits2_pos m) + e) = e ->
  binary_round_aux prec emax s (Zpos m) e loc_Exact =
  if e <=? emax - prec then S754_finite s m e else S754_infinity s.
Proof.
  intros H. unfold binary_round_aux, shr_fexp. cbn [Zdigits2].
  rewrite H, Z.sub_diag. cbn [shr shr_record_of_loc shr_m loc_of_shr_record round_nearest_even].
  cbn [Zdigits2]. rewrite H, Z.sub_diag. cbn [shr shr_record_of_loc shr_m].
  reflexivity.
Qed.

Lemma binary_round_aux_shift s m e :
  let d := Zpos (digits2_pos m) in
  let n := d - 53 in
  let E := e + n in
  emin <= e -> 0 < n ->
  exists q, Zpos m / 2 ^ n <= q <= Zpos m / 2 ^ n + 1 /\
            (Zpos m mod 2 ^ n = 0 -> q = Zpos m / 2 ^ n) /\
            2 ^ 52 <= Zpos m / 2 ^ n < 2 ^ 53 /\
            binary_round_aux prec emax s (Zpos m) e loc_Exact =
            if q <? 2 ^ 53 then
              if E <=? emax - prec then S754_finite s (Z.to_pos q) E else S754_infinity s
            else
              if E + 1 <=? emax - prec then S754_finite s (Z.to_pos (2 ^ 52)) (E + 1)
              else S754_infinity s.
Proof.
  intros d n E He Hn.
  pose proof (digits2_pos_bounds m) as B. fold d in B.
  assert (P : 0 < 2 ^ n) by (apply Z.pow_pos_nonneg; lia).
  assert (F1 : fexp prec emax (d + e) - e = n).
  { rewrite fexp_eq. unfold emin in He. lia. }
  unfold binary_round_aux, shr_fexp. cbn [Zdigits2]. fold d. rewrite F1.
  destruct (shr_exact_spec (Zpos m) e n) as (r & Hr & Inv); [lia|lia|].
  rewrite Hr. destruct (shr_inv_div _ _ _ (Z.lt_le_incl _ _ Hn) Inv) as [Hq Hex].
  pose proof (round_nearest_even_bounds (shr_m r) r) as [Rb Rex].
  set (q := round_nearest_even (shr_m r) (loc_of_shr_record r)) in *.
  assert (Q : 2 ^ 52 <= Zpos m / 2 ^ n < 2 ^ 53).
  { replace (d - 1) with (52 + n) in B by lia.
    replace d with (53 + n) in B by lia.
    rewrite !Z.pow_add_r in B by lia.
    split.
    - apply Z.div_le_lower_bound; lia.
    - apply Z.div_lt_upper_bound; lia. }
  exists q. rewrite <- Hq. repeat split; try lia.
  - intros Hz. apply Rex. apply Hex. exact Hz.
  - fold E. destruct (Z.ltb_spec q (2 ^ 53)) as [L|L].
    + assert (Dq : Zdigits2 q = 53) by (apply Zdigits2_unique; lia).
      rewrite Dq, fexp_eq.
      assert (HE : -1074 <= E) by (unfold E, emin in *; lia).
      replace (Z.max (53 + E - 53) (-1074) - E) with 0 by lia.
      cbn [shr shr_record_of_loc shr_m].
      destruct q as [|qq|qq]; try lia. reflexivity.
    + assert (q = 2 ^ 53) by lia. subst q. rewrite H.
      replace (Zdigits2 (2 ^ 53)) with 54 by reflexivity.
      rewrite fexp_eq.
      assert (HE : -1074 <= E) by (unfold E, emin in *; lia).
      replace (Z.max (54 + E - 53) (-1074) - E) with 1 by lia.
      reflexivity.
Qed.

Lemma shl_align_le m e E :
  E <= e -> exists mz, shl_align m e E = (mz, E) /\ Zpos mz = Zpos m * 2 ^ (e - E).
Proof.
  intros H. unfold shl_align.
  destruct (E - e) as [|p|p] eqn:D; try lia.
  - exists m. replace E with e by lia. rewrite Z.sub_diag, Z.pow_0_r. split; [reflexivity|lia].
  - exists (Pos.iter xO m p). split; [reflexivity|].
    rewrite pos_iter_xO. f_equal. f_equal. lia.
Qed.

Lemma shl_align_gt m e E : e <= E -> shl_align m e E = (m, e).
Proof.
  intros H. unfold shl_align. destruct (E - e) as [|p|p] eqn:D; try lia; reflexivity.
Qed.

Lemma valid_finite s m e :
  fexp prec emax (Zpos (digits2_pos m) + e) = e -> e <= emax - prec ->
  valid (S754_finite s m e) = true.
Proof.
  intros H1 H2. unfold valid, valid_binary, bounded, canonical_mantissa.
  rewrite H1, Z.eqb_refl. cbn [andb]. apply Z.leb_le. exact H2.
Qed.

Lemma valid_finite_inv s m e :
  valid (S754_finite s m e) = true ->
  fexp prec emax (Zpos (digits2_pos m) + e) = e /\ e <= emax - prec /\ emin <= e.
Proof.
  unfold valid, valid_binary, bounded, canonical_mantissa.
  intros H. apply andb_true_iff in H. destruct H as [H1 H2].
  apply Z.eqb_eq in H1. apply Z.leb_le in H2.
  split; [exact H1|]. split; [exact H2|].
  rewrite fexp_eq in H1. unfold emin. lia.
Qed.

Lemma pow2_split a b : 0 <= a -> 0 <= b -> 2 ^ (a + b) = 2 ^ a * 2 ^ b.
Proof. intros. apply Z.pow_add_r; lia. Qed.

Lemma pow2_pos a : 0 <= a -> 0 < 2 ^ a.
Proof. intros. apply Z.pow_pos_nonneg; lia. Qed.

Lemma binary_round_spec s m e :
  emin <= e ->
  rounds_to s (Zpos m * 2 ^ (e - emin)) (binary_round prec emax s m e).
Proof.
  intros He. unfold rounds_to, ulp_of.
  set (V := Zpos m * 2 ^ (e - emin)).
  set (d := Zpos (digits2_pos m)).
  assert (DV : Zdigits2 V + emin = d + e).
  { unfold V. rewrite Zdigits2_shift by lia. fold d. lia. }
  rewrite DV. set (E := fexp prec emax (d + e)).
  assert (HE : E = Z.max (d + e - 53) (-1074)) by (unfold E; apply fexp_eq).
  pose proof (digits2_pos_bounds m) as B. fold d in B.
  assert (Pd : 0 < d) by (unfold d; lia).
  unfold binary_round. fold d. fold E.
  destruct (Z.le_gt_cases E e) as [L|L].
  - (* the value is a float: no bit is lost *)
    destruct (shl_align_le m e E L) as (mz & Hs & Hz). rewrite Hs.
    assert (Dz : Zpos (digits2_pos mz) = d + (e - E)).
    { change (Zpos (digits2_pos mz)) with (Zdigits2 (Zpos mz)).
      rewrite Hz. rewrite Zdigits2_shift by lia. reflexivity. }
    assert (Fz : fexp prec emax (Zpos (digits2_pos mz) + E) = E).
    { rewrite Dz. replace (d + (e - E) + E) with (d + e) by lia. reflexivity. }
    rewrite (binary_round_aux_exact s mz E Fz).
    assert (HEm : emin <= E) by (unfold emin; lia).
    assert (Pu : 0 < 2 ^ (E - emin)) by (apply pow2_pos; lia).
    assert (VV : V = Zpos mz * 2 ^ (E - emin)).
    { unfold V. rewrite Hz. replace (e - emin) with ((e - E) + (E - emin)) by lia.
      rewrite pow2_split by lia. lia. }
    assert (Vd : V / 2 ^ (E - emin) = Zpos mz).
    { rewrite VV. apply Z.div_mul. lia. }
    exists (Zpos mz). rewrite Vd. split; [lia|]. split; [reflexivity|].
    destruct (Z.leb_spec E (emax - prec)) as [Lb|Lb].
    + right. exists mz, E. split; [reflexivity|]. split; [|reflexivity].
      apply valid_finite; assumption.
    + left. split; [reflexivity|]. rewrite <- VV. unfold V.
      assert (d + e - 1 >= emax) by (unfold emax, prec in *; lia).
      assert (2 ^ (d - 1) * 2 ^ (e - emin) <= Zpos m * 2 ^ (e - emin)).
      { apply Z.mul_le_mono_nonneg_r; [apply Z.lt_le_incl, pow2_pos; lia | lia]. }
      rewrite <- pow2_split in H0 by lia.
      assert (2 ^ (emax - emin) <= 2 ^ (d - 1 + (e - emin))).
      { apply Z.pow_le_mono_r; unfold emax, emin in *; lia. }
      lia.
  - (* bits are shifted out *)
    rewrite (shl_align_gt m e E) by lia.
    assert (Hn : E = e + (d - 53)) by (unfold emin in He; lia).
    assert (Hn0 : 0 < d - 53) by lia.
    destruct (binary_round_aux_shift s m e He Hn0) as (q & Hq & Hex & Hr & Heq).
    fold d in Hq, Hex, Hr, Heq. rewrite <- Hn in Heq. rewrite Heq.
    assert (Pu : 0 < 2 ^ (e - emin)) by (apply pow2_pos; lia).
    assert (Pn : 0 < 2 ^ (d - 53)) by (apply pow2_pos; lia).
    assert (U : 2 ^ (E - emin) = 2 ^ (d - 53) * 2 ^ (e - emin)).
    { rewrite <- pow2_split by lia. f_equal. lia. }
    assert (Vd : V / 2 ^ (E - emin) = Zpos m / 2 ^ (d - 53)).
    { unfold V. rewrite U. apply Z.div_mul_cancel_r; lia. }
    assert (Vm : V mod 2 ^ (E - emin) = (Zpos m mod 2 ^ (d - 53)) * 2 ^ (e - emin)).
    { unfold V. rewrite U. apply Z.mul_mod_distr_r; lia. }
    exists q. rewrite Vd. split; [exact Hq|]. split.
    { intros Hz. apply Hex. rewrite Vm in Hz. nia. }
    destruct (Z.ltb_spec q (2 ^ 53)) as [Lq|Lq].
    + assert (Dq : Zdigits2 q = 53) by (apply Zdigits2_unique; lia).
      destruct q as [|qq|qq]; try lia. cbn [Z.to_pos].
      destruct (Z.leb_spec E (emax - prec)) as [Lb|Lb].
      * right. exists qq, E. split; [reflexivity|]. split; [|reflexivity].
        apply valid_finite; [|exact Lb]. cbn [Zdigits2] in Dq. rewrite Dq, fexp_eq.
        unfold emin in *. lia.
      * left. split; [reflexivity|].
        assert (2 ^ 52 * 2 ^ (E - emin) <= Zpos qq * 2 ^ (E - emin)).
        { apply Z.mul_le_mono_nonneg_r; [apply Z.lt_le_incl, pow2_pos; unfold emin in *; lia | lia]. }
        rewrite <- pow2_split in H by (unfold emin in *; lia).
        assert (2 ^ (emax - emin) <= 2 ^ (52 + (E - emin))).
        { apply Z.pow_le_mono_r; unfold emax, emin, prec in *; lia. }
        lia.
    + assert (Q53 : q = 2 ^ 53) by lia.
      assert (V2 : q * 2 ^ (E - emin) = 2 ^ (53 + (E - emin))).
      { rewrite Q53. symmetry. apply pow2_split; unfold emin in *; lia. }
      destruct (Z.leb_spec (E + 1) (emax - prec)) as [Lb|Lb].
      * right. exists (Z.to_pos (2 ^ 52)), (E + 1). split; [reflexivity|]. split.
        -- apply valid_finite; [|exact Lb].
           replace (Zpos (digits2_pos (Z.to_pos (2 ^ 52)))) with 53 by reflexivity.
           rewrite fexp_eq. unfold emin in *. lia.
        -- rewrite V2.
           replace (Zpos (Z.to_pos (2 ^ 52))) with (2 ^ 52) by reflexivity.
           rewrite <- pow2_split by (unfold emin in *; lia). f_equal. lia.
      * left. split; [reflexivity|]. rewrite V2.
        apply Z.pow_le_mono_r; unfold emax, emin, prec in *; lia.
Qed.

Lemma ulp_of_pos V : 0 < ulp_of V.
Proof.
  unfold ulp_of. apply pow2_pos. rewrite fexp_eq. unfold emin. lia.
Qed.

Lemma rounds_to_exact s V r :
  rounds_to s V r -> V mod ulp_of V = 0 -> V < 2 ^ (emax - emin) ->
  exists m e, r = S754_finite s m e /\ valid r = true /\ Zpos m * 2 ^ (e - emin) = V.
Proof.
  intros (q & Hq & Hex & Hr) Hz Hlt.
  pose proof (ulp_of_pos V) as Pu.
  assert (q * ulp_of V = V).
  { rewrite (Hex Hz). pose proof (Z.div_mod V (ulp_of V)). lia. }
  destruct Hr as [[_ Hinf]|(m & e & -> & Hv & Hm)]; [lia|].
  exists m, e. split; [reflexivity|]. split; [exact Hv|]. lia.
Qed.

(** Rounding is bounded by every float above the value: a multiple [B] of
    the unit in the last place. *)
Lemma rounds_to_le s V r B :
  rounds_to s V r -> 0 < V -> V <= B -> B mod ulp_of V = 0 -> B < 2 ^ (emax - emin) ->
  exists m e, r = S754_finite s m e /\ valid r = true /\ Zpos m * 2 ^ (e - emin) <= B.
Proof.
  intros (q & Hq & Hex & Hr) HV HB Hdiv Hlt.
  pose proof (ulp_of_pos V) as Pu.
  assert (Hle : q * ulp_of V <= B).
  { pose proof (Z.div_mod B (ulp_of V)) as DB.
    pose proof (Z.div_mod V (ulp_of V)) as DV.
    pose proof (Z.mod_pos_bound V (ulp_of V) Pu) as MV.
    assert (V / ulp_of V <= B / ulp_of V) by (apply Z.div_le_mono; lia).
    destruct (Z.eq_dec (V / ulp_of V) (B / ulp_of V)) as [E|N].
    - assert (V mod ulp_of V = 0) by nia. rewrite (Hex H0). nia.
    - assert (q <= B / ulp_of V) by lia. nia. }
  destruct Hr as [[_ Hinf]|(m & e & -> & Hv & Hm)]; [lia|].
  exists m, e. split; [reflexivity|]. split; [exact Hv|]. lia.
Qed.

(** Among the valid floats the exponent orders the magnitudes. *)
Lemma valid_exponent_lt s1 m1 e1 s2 m2 e2 :
  valid (S754_finite s1 m1 e1) = true -> valid (S754_finite s2 m2 e2) = true ->
  e1 < e2 -> Zpos m1 * 2 ^ (e1 - emin) < Zpos m2 * 2 ^ (e2 - emin).
Proof.
  intros V1 V2 L.
  destruct (valid_finite_inv _ _ _ V1) as (F1 & _ & M1).
  destruct (valid_finite_inv _ _ _ V2) as (F2 & _ & M2).
  rewrite fexp_eq in F1, F2. unfold emin in *.
  pose proof (digits2_pos_bounds m1) as B1. pose proof (digits2_pos_bounds m2) as B2.
  set (d1 := Zpos (digits2_pos m1)) in *. set (d2 := Zpos (digits2_pos m2)) in *.
  assert (D2 : d2 = 53) by lia. assert (D1 : d1 <= 53) by lia.
  assert (P1 : 0 < 2 ^ (e1 - -1074)) by (apply pow2_pos; lia).
  assert (P2 : 0 < 2 ^ (e2 - -1074)) by (apply pow2_pos; lia).
  assert (A : Zpos m1 * 2 ^ (e1 - -1074) < 2 ^ 53 * 2 ^ (e1 - -1074)).
  { apply Z.mul_lt_mono_pos_r; [lia|].
    assert (2 ^ d1 <= 2 ^ 53) by (apply Z.pow_le_mono_r; lia). lia. }
  assert (C : 2 ^ 52 * 2 ^ (e2 - -1074) <= Zpos m2 * 2 ^ (e2 - -1074)).
  { apply Z.mul_le_mono_nonneg_r; [lia|]. rewrite D2 in B2. apply B2. }
  rewrite <- pow2_split in A, C by lia.
  assert (2 ^ (53 + (e1 - -1074)) <= 2 ^ (52 + (e2 - -1074))) by (apply Z.pow_le_mono_r; lia).
  lia.
Qed.

Lemma valid_magnitude_inj s m1 e1 m2 e2 :
  valid (S754_finite s m1 e1) = true -> valid (S754_finite s m2 e2) = true ->
  Zpos m1 * 2 ^ (e1 - emin) = Zpos m2 * 2 ^ (e2 - emin) ->
  S754_finite s m1 e1 = S754_finite s m2 e2.
Proof.
  intros V1 V2 E.
  destruct (Z.lt_trichotomy e1 e2) as [L|[L|L]].
  - pose proof (valid_exponent_lt _ _ _ _ _ _ V1 V2 L). lia.
  - subst e2. destruct (valid_finite_inv _ _ _ V1) as (_ & _ & M1).
    assert (0 < 2 ^ (e1 - emin)) by (apply pow2_pos; lia).
    assert (Zpos m1 = Zpos m2) by nia. congruence.
  - pose proof (valid_exponent_lt _ _ _ _ _ _ V2 V1 L). lia.
Qed.

(** The comparison of two positive valid floats is the comparison of their
    magnitudes. *)
Lemma SFcompare_pos m1 e1 m2 e2 :
  valid (S754_finite false m1 e1) = true -> valid (S754_finite false m2 e2) = true ->
  SFcompare (S754_finite false m1 e1) (S754_finite false m2 e2) =
  Some (Zpos m1 * 2 ^ (e1 - emin) ?= Zpos m2 * 2 ^ (e2 - emin)).
Proof.
  intros V1 V2. cbn [SFcompare]. f_equal.
  destruct (Z.compare_spec e1 e2) as [E|L|L].
  - subst e2. destruct (valid_finite_inv _ _ _ V1) as (_ & _ & M1).
    assert (P : 0 < 2 ^ (e1 - emin)) by (apply pow2_pos; lia).
    rewrite Pos.compare_cont_spec. unfold Pos.switch_Eq.
    symmetry. destruct (Pos.compare_spec m1 m2) as [H|H|H].
    + rewrite H. apply Z.compare_refl.
    + apply Z.compare_lt_iff. nia.
    + apply Z.compare_gt_iff. nia.
  - symmetry. apply Z.compare_lt_iff. apply (valid_exponent_lt false m1 e1 false m2 e2); assumption.
  - symmetry. apply Z.compare_gt_iff. apply (valid_exponent_lt false m2 e2 false m1 e1); assumption.
Qed.

Lemma scaled_finite s m e :
  scaled (S754_finite s m e) = cond_Zopp s (Zpos m * 2 ^ (e - emin)).
Proof. reflexivity. Qed.

Lemma add_finite_pos sx mx ex sy my ey :
  valid (S754_finite sx mx ex) = true -> valid (S754_finite sy my ey) = true ->
  0 < scaled (S754_finite sx mx ex) + scaled (S754_finite sy my ey) ->
  rounds_to false (scaled (S754_finite sx mx ex) + scaled (S754_finite sy my ey))
            (add (S754_finite sx mx ex) (S754_finite sy my ey)).
Proof.
  intros Vx Vy Hpos.
  destruct (valid_finite_inv _ _ _ Vx) as (_ & _ & Mx).
  destruct (valid_finite_inv _ _ _ Vy) as (_ & _ & My).
  unfold add, SFadd. set (ez := Z.min ex ey).
  destruct (shl_align_le mx ex ez) as (mx' & Hx & Hx'); [unfold ez; lia|].
  destruct (shl_align_le my ey ez) as (my' & Hy & Hy'); [unfold ez; lia|].
  rewrite Hx, Hy. cbn [fst].
  assert (Hez : emin <= ez) by (unfold ez; lia).
  assert (P : 0 < 2 ^ (ez - emin)) by (apply pow2_pos; lia).
  assert (Sx : scaled (S754_finite sx mx ex) = cond_Zopp sx (Zpos mx') * 2 ^ (ez - emin)).
  { rewrite scaled_finite, Hx'. replace (ex - emin) with ((ex - ez) + (ez - emin)) by lia.
    rewrite pow2_split by (unfold ez; lia). destruct sx; cbn [cond_Zopp]; lia. }
  assert (Sy : scaled (S754_finite sy my ey) = cond_Zopp sy (Zpos my') * 2 ^ (ez - emin)).
  { rewrite scaled_finite, Hy'. replace (ey - emin) with ((ey - ez) + (ez - emin)) by lia.
    rewrite pow2_split by (unfold ez; lia). destruct sy; cbn [cond_Zopp]; lia. }
  rewrite Sx, Sy in *. rewrite <- Z.mul_add_distr_r in *.
  set (S := cond_Zopp sx (Zpos mx') + cond_Zopp sy (Zpos my')) in *.
  destruct S as [|p|p] eqn:ES; try lia.
  cbn [binary_normalize]. apply binary_round_spec. exact Hez.
Qed.

Lemma Y360_eq : Y360 = 6333186975989760 * 2 ^ 1030.
Proof. reflexivity. Qed.

Lemma valid_f360 : valid f360 = true.
Proof. reflexivity. Qed.

Lemma Y360_pos : 0 < Y360.
Proof. rewrite Y360_eq. assert (0 < 2 ^ 1030) by (apply pow2_pos; lia). lia. Qed.

Lemma Y360_digits : Zdigits2 Y360 = 1083.
Proof. vm_compute. reflexivity. Qed.

Lemma Y360_lt_max : Y360 < 2 ^ (emax - emin).
Proof.
  pose proof Y360_pos. pose proof Y360_digits as D.
  destruct Y360 as [|p|p] eqn:E; try lia.
  pose proof (digits2_pos_bounds p) as B. cbn [Zdigits2] in D. rewrite D in B.
  assert (2 ^ 1083 <= 2 ^ (emax - emin)) by (apply Z.pow_le_mono_r; unfold emax, emin; lia).
  lia.
Qed.

(** Below 360 the unit in the last place is at most [2 ^ -44]. *)
Lemma ulp_below_360 V :
  0 < V -> V <= Y360 -> exists k, 0 <= k <= 1030 /\ ulp_of V = 2 ^ k.
Proof.
  intros HV HY. unfold ulp_of.
  pose proof (Zdigits2_le V Y360 HV HY) as D. rewrite Y360_digits in D.
  assert (0 < Zdigits2 V) by (destruct V; cbn; lia).
  exists (fexp prec emax (Zdigits2 V + emin) - emin). split; [|reflexivity].
  rewrite fexp_eq. unfold emin. lia.
Qed.

Lemma Y360_mod_ulp V : 0 < V -> V <= Y360 -> Y360 mod ulp_of V = 0.
Proof.
  intros HV HY. destruct (ulp_below_360 V HV HY) as (k & Hk & ->).
  rewrite Y360_eq. replace 1030 with ((1030 - k) + k) by lia.
  rewrite pow2_split by lia. rewrite Z.mul_assoc. apply Z.mod_mul.
  assert (0 < 2 ^ k) by (apply pow2_pos; lia). lia.
Qed.

Lemma f360_eq : f360 = S754_finite false 6333186975989760 (-44).
Proof. reflexivity. Qed.

Lemma scaled_f360 : scaled f360 = Y360.
Proof. reflexivity. Qed.

(** [fmod x 360] on a finite [x] is exact. *)
Lemma fmod_f360 sx mx ex :
  valid (S754_finite sx mx ex) = true ->
  let A := Zpos mx * 2 ^ (ex - emin) in
  0 <= Z.rem A Y360 < Y360 /\
  ((Z.rem A Y360 = 0 /\ fmod (S754_finite sx mx ex) f360 = S754_zero sx) \/
   (0 < Z.rem A Y360 /\
    exists m e, fmod (S754_finite sx mx ex) f360 = S754_finite sx m e /\
                valid (S754_finite sx m e) = true /\
                Zpos m * 2 ^ (e - emin) = Z.rem A Y360)).
Proof.
  intros Vx A.
  destruct (valid_finite_inv _ _ _ Vx) as (Fx & _ & Mx).
  assert (PA : 0 < A).
  { unfold A. assert (0 < 2 ^ (ex - emin)) by (apply pow2_pos; lia). lia. }
  pose proof Y360_pos as PY.
  pose proof (Z.rem_bound_pos A Y360 (Z.lt_le_incl _ _ PA) PY) as RB.
  split; [exact RB|].
  assert (ER : Z.rem (scaled (S754_finite sx mx ex)) (scaled f360) =
               cond_Zopp sx (Z.rem A Y360)).
  { rewrite scaled_f360, scaled_finite. fold A.
    destruct sx; cbn [cond_Zopp]; [apply Z.rem_opp_l; lia | reflexivity]. }
  assert (EF : fmod (S754_finite sx mx ex) f360 =
               match cond_Zopp sx (Z.rem A Y360) with
               | 0 => S754_zero sx
               | r => binary_normalize prec emax r emin false
               end).
  { rewrite <- ER. reflexivity. }
  rewrite EF. clear EF ER.
  destruct (Z.rem A Y360) as [|p|p] eqn:ERem; [left | right | lia].
  - split; [reflexivity|]. destruct sx; reflexivity.
  - split; [lia|].
    assert (N : (match cond_Zopp sx (Zpos p) with
                 | 0 => S754_zero sx
                 | r => binary_normalize prec emax r emin false
                 end) = binary_round prec emax sx p emin).
    { destruct sx; reflexivity. }
    pose proof (binary_round_spec sx p emin (Z.le_refl _)) as RT.
    rewrite Z.sub_diag, Z.pow_0_r, Z.mul_1_r in RT.
    assert (LeA : Zpos p <= A).
    { rewrite <- ERem. apply Z.rem_le; lia. }
    destruct (ulp_below_360 (Zpos p)) as (k & Hk & Hu); [lia|lia|].
    assert (Hk2 : k <= ex - emin).
    { unfold ulp_of in Hu.
      assert (DA : Zdigits2 A = Zpos (digits2_pos mx) + (ex - emin)).
      { unfold A. apply Zdigits2_shift. lia. }
      pose proof (Zdigits2_le (Zpos p) A ltac:(lia) LeA) as DL.
      rewrite DA in DL. rewrite fexp_eq in Hu, Fx.
      apply Z.pow_inj_r in Hu; [|lia|unfold emin; lia|lia].
      unfold emin in *. lia. }
    assert (Pk : 0 < 2 ^ k) by (apply pow2_pos; lia).
    assert (Dv : Zpos p mod ulp_of (Zpos p) = 0).
    { rewrite Hu.
      assert (EA : A = Zpos mx * 2 ^ (ex - emin - k) * 2 ^ k).
      { unfold A. replace (ex - emin) with ((ex - emin - k) + k) at 1 by lia.
        rewrite pow2_split by lia. lia. }
      assert (EY : Y360 = 6333186975989760 * 2 ^ (1030 - k) * 2 ^ k).
      { rewrite Y360_eq. replace 1030 with ((1030 - k) + k) at 1 by lia.
        rewrite pow2_split by lia. lia. }
      pose proof (Z.quot_rem' A Y360) as QR. rewrite ERem in QR.
      assert (EP : Zpos p = (Zpos mx * 2 ^ (ex - emin - k)
                             - 6333186975989760 * 2 ^ (1030 - k) * (A ÷ Y360)) * 2 ^ k).
      { rewrite Z.mul_sub_distr_r. rewrite <- EA.
        replace (6333186975989760 * 2 ^ (1030 - k) * (A ÷ Y360) * 2 ^ k)
          with (6333186975989760 * 2 ^ (1030 - k) * 2 ^ k * (A ÷ Y360)) by lia.
        rewrite <- EY. lia. }
      rewrite EP. apply Z.mod_mul. lia. }
    destruct (rounds_to_exact sx (Zpos p) _ RT Dv) as (m & e & Hr & Hv & Hm).
    { pose proof Y360_lt_max. lia. }
    exists m, e. rewrite Hr in Hv.
    split; [exact (eq_trans N Hr)|]. split; [exact Hv|exact Hm].
Qed.

Lemma eqb_f360_zero : eqb f360 zero = false.
Proof. reflexivity. Qed.

(** [x % 360] in terms of [fmod]. *)
Lemma float_rem_of_fmod x :
  float_rem x f360 =
  Ok (match fmod x f360 with
      | S754_zero _ => zero
      | S754_finite true m e => add (S754_finite true m e) f360
      | md => md
      end).
Proof.
  unfold float_rem. rewrite eqb_f360_zero.
  destruct (fmod x f360) as [[|]|[|]| |[|] m e]; reflexivity.
Qed.

(** A bound below 360 is its own remainder. *)
Lemma float_rem_small m e :
  valid (S754_finite false m e) = true ->
  Zpos m * 2 ^ (e - emin) < Y360 ->
  float_rem (S754_finite false m e) f360 = Ok (S754_finite false m e).
Proof.
  intros Vx Hlt.
  destruct (fmod_f360 false m e Vx) as (RB & H).
  assert (P : 0 < Zpos m * 2 ^ (e - emin)).
  { destruct (valid_finite_inv _ _ _ Vx) as (_ & _ & Mx).
    assert (0 < 2 ^ (e - emin)) by (apply pow2_pos; lia). lia. }
  rewrite Z.rem_small in H by lia.
  destruct H as [[H _]|(_ & m' & e' & Hf & Hv & Hm)]; [lia|].
  rewrite float_rem_of_fmod, Hf.
  rewrite (valid_magnitude_inj false m' e' m e Hv Vx Hm).
  reflexivity.
Qed.

(** The remainder of a finite bound: zero, or a positive float that is at
    most 360. *)
Lemma float_rem_finite x :
  valid x = true -> is_finite x = true ->
  exists r, float_rem x f360 = Ok r /\ valid r = true /\
            (r = zero \/
             exists m e, r = S754_finite false m e /\ Zpos m * 2 ^ (e - emin) <= Y360).
Proof.
  intros Vx Fx. rewrite float_rem_of_fmod.
  destruct x as [s|s| |sx mx ex]; try discriminate.
  - exists zero. split; [reflexivity|]. split; [reflexivity|]. left; reflexivity.
  - destruct (fmod_f360 sx mx ex Vx) as (RB & H).
    destruct H as [[_ Hf]|(Hpos & m & e & Hf & Hv & Hm)]; rewrite Hf.
    + exists zero. split; [reflexivity|]. split; [reflexivity|]. left; reflexivity.
    + destruct sx.
      * (* a negative remainder: 360 is added, and the sum is rounded *)
        pose proof (add_finite_pos true m e false 6333186975989760 (-44) Hv valid_f360) as RT.
        rewrite <- f360_eq in RT. rewrite scaled_f360, scaled_finite in RT.
        cbn [cond_Zopp] in RT. rewrite Hm in RT.
        specialize (RT ltac:(lia)).
        destruct (rounds_to_le false _ _ Y360 RT) as (m' & e' & Hr & Hv' & Hle).
        { lia. } { lia. } { apply Y360_mod_ulp; lia. } { apply Y360_lt_max. }
        exists (add (S754_finite true m e) f360). split; [reflexivity|].
        split; [exact Hv'|]. right. exists m', e'. split; [exact Hr|exact Hle].
      * exists (S754_finite false m e). split; [reflexivity|]. split; [exact Hv|].
        right. exists m, e. split; [reflexivity|]. lia.
Qed.

Lemma float_rem_not_finite x :
  is_finite x = false -> float_rem x f360 = Ok nan.
Proof. destruct x as [s|s| |s m e]; try discriminate; intros _; reflexivity. Qed.

Lemma leb_f360 m e :
  valid (S754_finite false m e) = true ->
  (leb (S754_finite false m e) f360 = true <-> Zpos m * 2 ^ (e - emin) <= Y360) /\
  (ltb (S754_finite false m e) f360 = true <-> Zpos m * 2 ^ (e - emin) < Y360).
Proof.
  intros V. unfold leb, ltb, SFleb, SFltb. rewrite f360_eq.
  rewrite (SFcompare_pos m e _ _ V valid_f360).
  change (6333186975989760 * 2 ^ (-44 - emin)) with Y360.
  destruct (Z.compare_spec (Zpos m * 2 ^ (e - emin)) Y360); split; split; intros; try lia; try reflexivity; try discriminate.
Qed.

(** ** Floats: the floats the parser returns are valid *)

Lemma shr_1_div r : 0 <= shr_m r -> shr_m (shr_1 r) = shr_m r / 2 /\ 0 <= shr_m (shr_1 r).
Proof.
  destruct r as [m r s]. cbn [shr_m]. intros Hm.
  destruct m as [|[p|p|]|p]; cbn [shr_1 shr_m]; try lia.
  - split; [reflexivity|lia].
  - split; [|lia]. apply (Z.div_unique (Zpos p~1) 2 (Zpos p) 1); lia.
  - split; [|lia]. apply (Z.div_unique (Zpos p~0) 2 (Zpos p) 0); lia.
  - split; [reflexivity|lia].
Qed.

Lemma pow2_xO p : 2 ^ Zpos p~0 = 2 ^ Zpos p * 2 ^ Zpos p.
Proof. change (Zpos p~0) with (2 * Zpos p). apply Z.pow_twice_r. Qed.

Lemma pow2_xI p : 2 ^ Zpos p~1 = 2 * (2 ^ Zpos p * 2 ^ Zpos p).
Proof.
  change (Zpos p~1) with (2 * Zpos p + 1).
  rewrite Z.pow_add_r, Z.pow_twice_r, Z.pow_1_r by lia. lia.
Qed.

Lemma iter_pos_shr_div p : forall r,
  0 <= shr_m r ->
  shr_m (SpecFloat.iter_pos shr_1 p r) = shr_m r / 2 ^ Zpos p /\
  0 <= shr_m (SpecFloat.iter_pos shr_1 p r).
Proof.
  induction p as [p IH|p IH|]; intros r Hr; cbn [SpecFloat.iter_pos].
  - destruct (shr_1_div r Hr) as [E1 P1].
    destruct (IH _ P1) as [E2 P2]. destruct (IH _ P2) as [E3 P3].
    split; [|exact P3]. rewrite E3, E2, E1.
    assert (0 < 2 ^ Zpos p) by (apply pow2_pos; lia).
    rewrite !Z.div_div by lia. rewrite pow2_xI. reflexivity.
  - destruct (IH _ Hr) as [E2 P2]. destruct (IH _ P2) as [E3 P3].
    split; [|exact P3]. rewrite E3, E2.
    assert (0 < 2 ^ Zpos p) by (apply pow2_pos; lia).
    rewrite !Z.div_div by lia. rewrite pow2_xO. reflexivity.
  - destruct (shr_1_div r Hr) as [E1 P1]. split; [|exact P1]. rewrite E1. reflexivity.
Qed.

(** Whatever was lost before, a right shift by [n] bits leaves the
    quotient by [2 ^ n]. *)
Lemma shr_div m l e n :
  0 <= m -> 0 <= n ->
  exists r, shr (shr_record_of_loc m l) e n = (r, e + n) /\ shr_m r = m / 2 ^ n.
Proof.
  intros Hm Hn.
  assert (M0 : shr_m (shr_record_of_loc m l) = m) by (destruct l as [|[| |]]; reflexivity).
  destruct n as [|p|p]; try lia.
  - eexists. split; [rewrite Z.add_0_r; reflexivity|]. rewrite M0, Z.pow_0_r, Z.div_1_r.
    reflexivity.
  - eexists. split; [reflexivity|].
    destruct (iter_pos_shr_div p (shr_record_of_loc m l)) as [E _]; [rewrite M0; exact Hm|].
    rewrite E, M0. reflexivity.
Qed.

Lemma Zdigits2_ge q K : 0 <= K -> 2 ^ K <= q -> K + 1 <= Zdigits2 q.
Proof.
  intros HK H. assert (0 < 2 ^ K) by (apply pow2_pos; lia).
  destruct q as [|p|p]; try lia. cbn [Zdigits2].
  pose proof (digits2_pos_bounds p) as B.
  destruct (Z.le_gt_cases (K + 1) (Zpos (digits2_pos p))) as [L|L]; [exact L|].
  assert (2 ^ Zpos (digits2_pos p) <= 2 ^ K) by (apply Z.pow_le_mono_r; lia). lia.
Qed.

Lemma Zdigits2_nonneg q : 0 <= Zdigits2 q.
Proof. destruct q; cbn; lia. Qed.

(** Rounding a mantissa that has at least the bits of the format gives a
    valid float. *)
Lemma binary_round_aux_valid s q e l :
  0 <= q -> emin <= e -> e <= fexp prec emax (Zdigits2 q + e) ->
  valid (binary_round_aux prec emax s q e l) = true.
Proof.
  intros Hq He Hf. unfold binary_round_aux, shr_fexp.
  set (n := fexp prec emax (Zdigits2 q + e) - e).
  assert (Hn : 0 <= n) by (unfold n; lia).
  destruct (shr_div q l e n Hq Hn) as (r & -> & Hr).
  pose proof (round_nearest_even_bounds (shr_m r) r) as [Rb _].
  set (m2 := round_nearest_even (shr_m r) (loc_of_shr_record r)) in *.
  set (e1 := e + n).
  assert (He1 : e1 = fexp prec emax (Zdigits2 q + e)) by (unfold e1, n; lia).
  assert (Pn : 0 < 2 ^ n) by (apply pow2_pos; exact Hn).
  assert (M1 : 0 <= shr_m r < 2 ^ 53 /\ (emin < e1 -> 2 ^ 52 <= shr_m r)).
  { rewrite Hr. unfold emin in *.
    assert (Hn' : n = Z.max (Zdigits2 q + e - 53) (-1074) - e)
      by (unfold n; rewrite fexp_eq; reflexivity).
    assert (He1' : e1 = e + n) by reflexivity.
    clearbody n e1. clear He1 Hf.
    destruct q as [|p|p]; try lia.
    - rewrite Z.div_0_l by lia. cbn [Zdigits2] in *. split; [lia|]. intros. lia.
    - cbn [Zdigits2] in *. pose proof (digits2_pos_bounds p) as B.
      set (d := Zpos (digits2_pos p)) in *.
      destruct (Z.eq_dec n 0) as [N0|N0].
      + rewrite N0, Z.pow_0_r, Z.div_1_r.
        assert (d <= 53) by lia.
        assert (2 ^ d <= 2 ^ 53) by (apply Z.pow_le_mono_r; lia).
        split; [lia|]. intros G. assert (d = 53) by lia.
        replace 52 with (d - 1) by lia. lia.
      + assert (Nd : n = d - 53) by lia.
        replace (d - 1) with (52 + n) in B by lia.
        replace d with (53 + n) in B by lia.
        rewrite !Z.pow_add_r in B by lia.
        split; [split|].
        * apply Z.div_pos; lia.
        * apply Z.div_lt_upper_bound; lia.
        * intros _. apply Z.div_le_lower_bound; lia. }
  destruct M1 as (M1 & M1').
  assert (HE1 : emin <= e1) by (unfold e1; lia).
  destruct (Z.eq_dec m2 0) as [Z0|NZ].
  - rewrite Z0. cbn [Zdigits2]. rewrite Z.add_0_l.
    assert (N2 : fexp prec emax e1 - e1 <= 0) by (rewrite fexp_eq; unfold emin in *; lia).
    destruct (fexp prec emax e1 - e1) as [|p|p] eqn:D; try lia; reflexivity.
  - destruct (Z.ltb_spec m2 (2 ^ 53)) as [L|L].
    + assert (D2 : fexp prec emax (Zdigits2 m2 + e1) = e1).
      { rewrite fexp_eq. unfold emin in *.
        assert (0 < m2) by lia.
        assert (Zdigits2 m2 <= 53).
        { destruct (Z.le_gt_cases (Zdigits2 m2) 53); [assumption|].
          destruct m2 as [|p|p]; try lia. cbn [Zdigits2] in *.
          pose proof (digits2_pos_bounds p).
          assert (2 ^ 53 <= 2 ^ (Zpos (digits2_pos p) - 1)) by (apply Z.pow_le_mono_r; lia).
          lia. }
        destruct (Z.eq_dec e1 (-1074)); [lia|].
        assert (53 <= Zdigits2 m2) by (apply (Zdigits2_ge m2 52); lia). lia. }
      rewrite D2, Z.sub_diag. cbn [shr shr_record_of_loc shr_m].
      destruct m2 as [|p|p]; try lia.
      destruct (e1 <=? emax - prec) eqn:Le; [|reflexivity].
      apply valid_finite; [exact D2|apply Z.leb_le; exact Le].
    + assert (m2 = 2 ^ 53) by lia.
      replace m2 with (2 ^ 53) by lia.
      replace (Zdigits2 (2 ^ 53)) with 54 by reflexivity.
      rewrite fexp_eq. replace (Z.max (54 + e1 - 53) (-1074) - e1) with 1 by (unfold emin in *; lia).
      change (shr (shr_record_of_loc (2 ^ 53) loc_Exact) e1 1)
        with ({| shr_m := 2 ^ 52; shr_r := false; shr_s := false |}, e1 + 1).
      cbn [shr_m]. change (2 ^ 52) with (Zpos (Z.to_pos (2 ^ 52))).
      cbv iota. destruct (e1 + 1 <=? emax - prec) eqn:Le; [|reflexivity].
      apply valid_finite; [|apply Z.leb_le; exact Le].
      replace (Zpos (digits2_pos (Z.to_pos (2 ^ 52)))) with 53 by reflexivity.
      rewrite fexp_eq. unfold emin in *. lia.
Qed.

Lemma binary_round_valid s m e :
  emin <= e -> valid (binary_round prec emax s m e) = true.
Proof.
  intros He. destruct (binary_round_spec s m e He) as (q & _ & _ & [[-> _]|(m' & e' & _ & V & _)]).
  - reflexivity.
  - exact V.
Qed.

Lemma binary_normalize_valid z e b :
  emin <= e -> valid (binary_normalize prec emax z e b) = true.
Proof.
  intros He. destruct z as [|p|p]; cbn [binary_normalize].
  - reflexivity.
  - apply binary_round_valid. exact He.
  - apply binary_round_valid. exact He.
Qed.

(** The quotient of the division keeps at least the bits of the format. *)
Lemma SFdiv_core_valid n D :
  0 < n -> 0 < D ->
  let '(q, e, l) := SFdiv_core_binary prec emax n 0 D 0 in
  0 <= q /\ emin <= e /\ e <= fexp prec emax (Zdigits2 q + e).
Proof.
  intros Hn HD. unfold SFdiv_core_binary. cbv zeta.
  set (d1 := Zdigits2 n). set (d2 := Zdigits2 D).
  set (e' := Z.min (fexp prec emax (d1 + 0 - (d2 + 0))) (0 - 0)).
  assert (He' : e' = Z.min (Z.max (d1 - d2 - 53) (-1074)) 0).
  { unfold e'. rewrite fexp_eq. f_equal. f_equal. lia. }
  clearbody e'.
  set (m' := match 0 - 0 - e' with
             | 0 => n
             | Zpos _ => Z.shiftl n (0 - 0 - e')
             | Zneg _ => 0
             end).
  assert (Hm' : m' = n * 2 ^ (- e')).
  { unfold m'. replace (0 - 0 - e') with (- e') by lia.
    destruct (- e') as [|p|p] eqn:E.
    - rewrite Z.pow_0_r. lia.
    - rewrite Z.shiftl_mul_pow2 by lia. reflexivity.
    - lia. }
  clearbody m'.
  pose proof (Z.div_eucl_eq m' D ltac:(lia)) as DE.
  pose proof (Z.mod_pos_bound m' D HD) as MB. unfold Z.modulo in MB.
  destruct (Z.div_eucl m' D) as [q r] eqn:Eq.
  assert (P2 : 0 < 2 ^ (- e')) by (apply pow2_pos; lia).
  assert (Hq : 0 <= q) by nia.
  split; [exact Hq|]. split; [unfold emin; lia|].
  rewrite fexp_eq.
  destruct (Z.eq_dec e' (-1074)) as [E|E]; [lia|].
  assert (G : e' <= d1 - d2 - 53) by lia.
  (* the quotient has at least [d1 - d2 - e'] bits *)
  assert (B1 : 2 ^ (d1 - 1) <= n).
  { unfold d1. destruct n as [|p|p]; try lia. apply digits2_pos_bounds. }
  assert (B2 : D < 2 ^ d2).
  { unfold d2. destruct D as [|p|p]; try lia. apply digits2_pos_bounds. }
  assert (Pd2 : 0 < d2) by (unfold d2; destruct D; cbn; lia).
  assert (Pd1 : 0 < d1) by (unfold d1; destruct n; cbn; lia).
  set (K := d1 - d2 - 1 - e') in *.
  assert (HK : 0 <= K) by (unfold K; lia).
  assert (L : 2 ^ K <= q).
  { assert (S1 : 2 ^ (d1 - 1) * 2 ^ (- e') <= m') by nia.
    assert (S2 : 2 ^ (d1 - 1) * 2 ^ (- e') = 2 ^ K * 2 ^ d2).
    { rewrite <- !Z.pow_add_r by lia. f_equal. unfold K. lia. }
    assert (PK : 0 < 2 ^ K) by (apply pow2_pos; lia).
    assert (S3 : 2 ^ K * D < 2 ^ K * 2 ^ d2) by nia.
    destruct (Z.le_gt_cases (2 ^ K) q) as [?|C]; [assumption|]. nia. }
  pose proof (Zdigits2_ge q K HK L). unfold K in *. lia.
Qed.

(** The conversion of a decimal numeral returns a valid float. *)
Lemma of_decimal_valid s n k : valid (of_decimal s n k) = true.
Proof.
  unfold of_decimal. destruct n as [|p|p]; try reflexivity.
  destruct (Z.leb_spec 0 k) as [Hk|Hk].
  - destruct (400 <? k); [reflexivity|]. apply binary_normalize_valid. unfold emin. lia.
  - destruct (Z.log2 (Zpos p) + 1 <? 3 * - k - 1100); [reflexivity|].
    assert (HD : 0 < 10 ^ (- k)) by (apply Z.pow_pos_nonneg; lia).
    pose proof (SFdiv_core_valid (Zpos p) (10 ^ (- k)) ltac:(lia) HD) as H.
    destruct (SFdiv_core_binary prec emax (Zpos p) 0 (10 ^ (- k)) 0) as [[q e] l].
    destruct H as (Hq & He & Hf). apply binary_round_aux_valid; assumption.
Qed.

Lemma parse_number_valid sg s x : parse_number sg s = Some x -> valid x = true.
Proof.
  unfold parse_number.
  destruct (read_digits 0 0 s) as [[ip ni] s1].
  destruct (match s1 with
            | [] => (ip, 0, [])
            | c :: s1' => if Ascii.eqb c "." then read_digits ip 0 s1' else (ip, 0, s1)
            end) as [[fp nf] s2].
  destruct (ni + nf =? 0); [discriminate|].
  destruct (read_exponent s2) as [ex s3].
  destruct s3; [|discriminate]. intros [= <-]. apply of_decimal_valid.
Qed.

(** [float] returns valid floats. *)
Lemma of_string_valid s x : of_string s = Some x -> valid x = true.
Proof.
  unfold of_string.
  destruct (drop_underscores Ascii.zero (strip (list_ascii_of_string s))) as [body|];
    [|discriminate].
  destruct (read_sign body) as [sg rest].
  destruct (String.eqb (lower_string rest) "inf" || String.eqb (lower_string rest) "infinity").
  - intros [= <-]. reflexivity.
  - destruct (String.eqb (lower_string rest) "nan").
    + intros [= <-]. reflexivity.
    + apply parse_number_valid.
Qed.

(** ** Floats: the order of the comparisons *)

Lemma SFcompare_rank x y :
  is_nan x = false -> is_nan y = false ->
  match SFcompare x y with
  | Some Lt => lex_lt (rank x) (rank y)
  | Some Eq => rank x = rank y
  | Some Gt => lex_lt (rank y) (rank x)
  | None => False
  end.
Proof.
  intros Hx Hy.
  destruct x as [[|]|[|]| |[|] m1 e1]; try discriminate;
  destruct y as [[|]|[|]| |[|] m2 e2]; try discriminate;
  cbn [SFcompare rank]; unfold lex_lt; cbn [fst snd]; try reflexivity; try lia.
  - destruct (Z.compare_spec e1 e2) as [E|L|L]; cbn [fst snd]; try lia.
    rewrite Pos.compare_cont_spec. unfold Pos.switch_Eq.
    destruct (Pos.compare_spec m1 m2) as [H|H|H]; cbn [CompOpp]; subst; try reflexivity; lia.
  - destruct (Z.compare_spec e1 e2) as [E|L|L]; cbn [fst snd]; try lia.
    rewrite Pos.compare_cont_spec. unfold Pos.switch_Eq.
    destruct (Pos.compare_spec m1 m2) as [H|H|H]; subst; try reflexivity; lia.
Qed.

Lemma lex_lt_irrefl a : ~ lex_lt a a.
Proof. unfold lex_lt. lia. Qed.

Lemma lex_lt_asym a b : lex_lt a b -> ~ lex_lt b a.
Proof. unfold lex_lt. lia. Qed.

Lemma lex_lt_trans a b c : lex_lt a b -> lex_lt b c -> lex_lt a c.
Proof. unfold lex_lt. lia. Qed.

Lemma lex_total a b : lex_lt a b \/ a = b \/ lex_lt b a.
Proof.
  destruct a as [a1 [a2 a3]], b as [b1 [b2 b3]]. unfold lex_lt. cbn [fst snd].
  destruct (Z.lt_trichotomy a1 b1) as [?|[?|?]]; try lia.
  destruct (Z.lt_trichotomy a2 b2) as [?|[?|?]]; try lia.
  destruct (Z.lt_trichotomy a3 b3) as [?|[?|?]]; try lia.
  right; left. congruence.
Qed.

Lemma ltb_rank x y :
  is_nan x = false -> is_nan y = false ->
  (ltb x y = true <-> lex_lt (rank x) (rank y)).
Proof.
  intros Hx Hy. pose proof (SFcompare_rank x y Hx Hy) as H.
  unfold ltb, SFltb. destruct (SFcompare x y) as [[| |]|]; try contradiction.
  - split; [discriminate|]. rewrite H. intros C. exfalso. exact (lex_lt_irrefl _ C).
  - tauto.
  - split; [discriminate|]. intros C. exfalso. exact (lex_lt_asym _ _ H C).
Qed.

Lemma leb_rank x y :
  is_nan x = false -> is_nan y = false ->
  (leb x y = true <-> ~ lex_lt (rank y) (rank x)).
Proof.
  intros Hx Hy. pose proof (SFcompare_rank x y Hx Hy) as H.
  unfold leb, SFleb. destruct (SFcompare x y) as [[| |]|]; try contradiction.
  - split; [|reflexivity]. intros _. rewrite H. apply lex_lt_irrefl.
  - split; [|reflexivity]. intros _. apply lex_lt_asym. exact H.
  - split; [discriminate|]. tauto.
Qed.

Lemma eqb_rank x y :
  is_nan x = false -> is_nan y = false ->
  (eqb x y = true <-> rank x = rank y).
Proof.
  intros Hx Hy. pose proof (SFcompare_rank x y Hx Hy) as H.
  unfold eqb, SFeqb. destruct (SFcompare x y) as [[| |]|]; try contradiction.
  - tauto.
  - split; [discriminate|]. intros E. rewrite E in H. exfalso. exact (lex_lt_irrefl _ H).
  - split; [discriminate|]. intros E. rewrite E in H. exfalso. exact (lex_lt_irrefl _ H).
Qed.

Lemma leb_trans a b c :
  is_nan a = false -> is_nan b = false -> is_nan c = false ->
  leb a b = true -> leb b c = true -> leb a c = true.
Proof.
  intros Ha Hb Hc. rewrite !leb_rank by assumption.
  pose proof (lex_total (rank a) (rank b)) as [T|[T|T]];
    pose proof (lex_total (rank b) (rank c)) as [U|[U|U]]; 
    try rewrite T in *; try rewrite <- U in *; unfold lex_lt in *; try lia; try tauto.
Qed.

Lemma leb_negb_ltb x y :
  is_nan x = false -> is_nan y = false -> leb x y = negb (ltb y x).
Proof.
  intros Hx Hy. pose proof (leb_rank x y Hx Hy) as L. pose proof (ltb_rank y x Hy Hx) as T.
  destruct (leb x y), (ltb y x); cbn; try reflexivity; intuition congruence.
Qed.

(** ** Label slices of an ascending coordinate *)

Lemma np_lt_ltb a b : is_nan a = false -> is_nan b = false -> np_lt a b = ltb a b.
Proof. intros Ha Hb. unfold np_lt. rewrite Hb, andb_false_r, orb_false_r. reflexivity. Qed.

Lemma label_eq_eqb a b : is_nan a = false -> label_eq a b = eqb a b.
Proof. intros Ha. unfold label_eq. rewrite Ha, orb_false_r. reflexivity. Qed.

Lemma ascending_cons a idx :
  ascending (a :: idx) = true ->
  is_nan a = false /\ ascending idx = true /\
  Forall (fun b => is_nan b = false /\ leb a b = true) idx.
Proof.
  revert a. induction idx as [|b idx IH]; intros a H.
  - unfold ascending in *. cbn in *. destruct (is_nan a); [discriminate|]. auto.
  - unfold ascending in H. apply andb_true_iff in H. destruct H as [M N].
    unfold is_monotonic_increasing in *.
    change (monotonic leb (a :: b :: idx)) with (leb a b && monotonic leb (b :: idx)) in M.
    apply andb_true_iff in M. destruct M as [Lab M].
    cbn [no_nan forallb] in N. apply andb_true_iff in N. destruct N as [Na N].
    apply negb_true_iff in Na.
    assert (Ab : ascending (b :: idx) = true).
    { unfold ascending, is_monotonic_increasing. rewrite M. exact N. }
    destruct (IH b Ab) as (Nb & Ai & Fb).
    split; [exact Na|]. split; [exact Ab|].
    constructor; [split; assumption|].
    eapply List.Forall_impl; [|exact Fb]. cbn beta. intros c [Nc Lbc].
    split; [exact Nc|]. apply (leb_trans a b c); assumption.
Qed.

Lemma count_cons p a l : count p (a :: l) = if p a then S (count p l) else count p l.
Proof. unfold count. cbn [List.filter]. destruct (p a); reflexivity. Qed.

Lemma count_zero p l : Forall (fun b => p b = false) l -> count p l = 0%nat.
Proof.
  unfold count. induction 1 as [|b l Hb _ IH]; [reflexivity|].
  cbn [List.filter]. rewrite Hb. exact IH.
Qed.

(** In an ascending index nothing after a label that is not below the bound
    lies below it, and nothing after a label above the bound lies within. *)
Lemma above_tail a idx v :
  is_nan a = false -> is_nan v = false ->
  Forall (fun b => is_nan b = false /\ leb a b = true) idx ->
  (ltb a v = false -> Forall (fun b => np_lt b v = false) idx) /\
  (ltb v a = true -> Forall (fun b => negb (np_lt v b) = false) idx).
Proof.
  intros Na Nv F. split; intros H; eapply List.Forall_impl; try exact F; cbn beta; intros b [Nb Lab].
  - rewrite np_lt_ltb by assumption.
    destruct (ltb b v) eqn:E; [|reflexivity]. exfalso.
    apply ltb_rank in E; try assumption. apply leb_rank in Lab; try assumption.
    assert (~ lex_lt (rank a) (rank v)).
    { intros C. apply ltb_rank in C; try assumption. congruence. }
    pose proof (lex_total (rank a) (rank b)) as [T|[T|T]]; try tauto.
    + apply H0. eapply lex_lt_trans; eassumption.
    + rewrite T in H0. tauto.
  - rewrite np_lt_ltb by assumption. apply negb_false_iff.
    apply ltb_rank; try assumption.
    apply ltb_rank in H; try assumption. apply leb_rank in Lab; try assumption.
    pose proof (lex_total (rank a) (rank b)) as [T|[T|T]]; try tauto.
    + eapply lex_lt_trans; eassumption.
    + rewrite <- T. exact H.
Qed.

Lemma positions_from_ascending idx : forall i v,
  ascending idx = true -> is_nan v = false ->
  (searchsorted idx v Left <= searchsorted idx v Right)%nat /\
  positions_from i idx v =
  seq (i + searchsorted idx v Left) (searchsorted idx v Right - searchsorted idx v Left).
Proof.
  induction idx as [|a idx IH]; intros i v A Nv.
  - cbn. split; [lia|reflexivity].
  - destruct (ascending_cons a idx A) as (Na & Ai & F).
    destruct (IH (S i) v Ai Nv) as [Le Pos].
    destruct (above_tail a idx v Na Nv F) as [T1 T2].
    cbn [searchsorted positions_from] in *. rewrite !count_cons.
    rewrite label_eq_eqb by assumption. rewrite !np_lt_ltb by assumption.
    destruct (ltb a v) eqn:Lav.
    + (* a < v *)
      assert (Lva : ltb v a = false).
      { destruct (ltb v a) eqn:E; [|reflexivity]. apply ltb_rank in E; try assumption.
        apply ltb_rank in Lav; try assumption. exfalso. exact (lex_lt_asym _ _ E Lav). }
      assert (Eav : eqb a v = false).
      { destruct (eqb a v) eqn:E; [|reflexivity]. apply eqb_rank in E; try assumption.
        apply ltb_rank in Lav; try assumption. rewrite E in Lav. exfalso. exact (lex_lt_irrefl _ Lav). }
      rewrite Lva, Eav. cbn [negb]. split; [lia|].
      rewrite Pos. f_equal; lia.
    + (* v <= a: no later label is below v *)
      rewrite (count_zero _ _ (T1 eq_refl)) in *.
      destruct (ltb v a) eqn:Lva; cbn [negb].
      * assert (Eav : eqb a v = false).
        { destruct (eqb a v) eqn:E; [|reflexivity]. apply eqb_rank in E; try assumption.
          apply ltb_rank in Lva; try assumption. rewrite E in Lva. exfalso. exact (lex_lt_irrefl _ Lva). }
        rewrite Eav. rewrite (count_zero _ _ (T2 eq_refl)) in *. split; [lia|].
        rewrite Pos. cbn. reflexivity.
      * assert (Eav : eqb a v = true).
        { apply eqb_rank; try assumption.
          pose proof (lex_total (rank a) (rank v)) as [T|[T|T]]; [|exact T|].
          - apply ltb_rank in T; try assumption. congruence.
          - apply ltb_rank in T; try assumption. congruence. }
        rewrite Eav. split; [lia|]. rewrite Pos.
        rewrite !Nat.add_0_r, !Nat.sub_0_r. reflexivity.
Qed.

Lemma contiguous_seq p n : contiguous p (seq (S p) n) = true.
Proof.
  revert p. induction n as [|n IH]; intros p; [reflexivity|].
  cbn [seq contiguous]. rewrite Nat.eqb_refl. apply IH.
Qed.

Lemma last_seq n : forall p d, List.last (seq (S p) n) d = match n with O => d | S _ => (p + n)%nat end.
Proof.
  induction n as [|n IH]; intros p d; [reflexivity|].
  cbn [seq]. destruct n as [|n'].
  - cbn. lia.
  - change (List.last (S p :: seq (S (S p)) (S n')) d) with (List.last (seq (S (S p)) (S n')) d).
    rewrite (IH (S p) d). lia.
Qed.

Lemma ascending_monotonic idx : ascending idx = true -> is_monotonic_increasing idx = true.
Proof. unfold ascending. intros H. apply andb_true_iff in H. tauto. Qed.

(** On an ascending index the bounds of a label slice are insertion
    points, whether or not the label occurs. *)
Lemma get_slice_bound_ascending idx v sd :
  ascending idx = true -> is_nan v = false ->
  get_slice_bound idx v sd = Ok (searchsorted idx v sd).
Proof.
  intros A Nv. unfold get_slice_bound, positions.
  destruct (positions_from_ascending idx 0%nat v A Nv) as [Le ->].
  cbn [Nat.add].
  destruct (searchsorted idx v Right - searchsorted idx v Left)%nat as [|k] eqn:D.
  - cbn [seq]. unfold searchsorted_monotonic. rewrite (ascending_monotonic idx A). reflexivity.
  - cbn [seq]. rewrite contiguous_seq. rewrite last_seq.
    destruct sd; [reflexivity|]. f_equal. destruct k; lia.
Qed.


Lemma ascending_no_nan idx : ascending idx = true -> no_nan idx = true.
Proof. unfold ascending. intros H. apply andb_true_iff in H. tauto. Qed.


(** ** The spatial reduction *)



(** *** The depth of numpy's pairwise sum *)

Section PairwiseDepth.
Context {A : Type} (plus : A -> A -> A) (z : A).

Lemma pairwise_sum_eight fuel a0 a1 a2 a3 a4 a5 a6 a7 (rest : list A) :
  pairwise_sum plus z fuel (a0 :: a1 :: a2 :: a3 :: a4 :: a5 :: a6 :: a7 :: rest) =
  let a := a0 :: a1 :: a2 :: a3 :: a4 :: a5 :: a6 :: a7 :: rest in
  if (length a <=? 128)%nat then
    let '(r0, r1, r2, r3, r4, r5, r6, r7, tail) :=
      sum_blocks plus (a0, a1, a2, a3, a4, a5, a6, a7) rest in
    fold_left plus tail
      (plus (plus (plus r0 r1) (plus r2 r3)) (plus (plus r4 r5) (plus r6 r7)))
  else
    match fuel with
    | S fuel' =>
        let n2 := (length a / 2 - (length a / 2) mod 8)%nat in
        plus (pairwise_sum plus z fuel' (firstn n2 a)) (pairwise_sum plus z fuel' (skipn n2 a))
    | O => z
    end.
Proof. destruct fuel; reflexivity. Qed.

(** The place at which a long array is cut leaves two shorter arrays. *)
Lemma cut_lengths (a : list A) :
  (128 < length a)%nat ->
  let n2 := (length a / 2 - (length a / 2) mod 8)%nat in
  (length (firstn n2 a) < length a)%nat /\ (length (skipn n2 a) < length a)%nat /\
  (56 < length (firstn n2 a))%nat /\ (56 < length (skipn n2 a))%nat.
Proof.
  intros H n2. rewrite length_firstn, length_skipn.
  assert (E : (n2 = length a / 2 - (length a / 2) mod 8)%nat) by reflexivity.
  pose proof (Nat.div_mod_eq (length a) 2) as D.
  pose proof (Nat.mod_upper_bound (length a) 2 ltac:(lia)) as D'.
  pose proof (Nat.mod_upper_bound (length a / 2) 8 ltac:(lia)) as M.
  lia.
Qed.

(** Any fuel that is at least the length of the array gives the same sum:
    the cutting stops before the fuel runs out. *)
Lemma pairwise_sum_fuel : forall (f1 f2 : nat) (a : list A),
  (length a <= f1)%nat -> (length a <= f2)%nat ->
  pairwise_sum plus z f1 a = pairwise_sum plus z f2 a.
Proof.
  induction f1 as [|f1 IH]; intros f2 a H1 H2.
  - destruct a; [|cbn [length] in H1; lia]. destruct f2; reflexivity.
  - do 8 (destruct a as [|? a]; [destruct f2; reflexivity|]).
    rewrite !pairwise_sum_eight. cbv zeta.
    destruct (length _ <=? 128)%nat eqn:E; [reflexivity|].
    apply Nat.leb_gt in E. destruct f2 as [|f2]; [lia|].
    destruct (cut_lengths _ E) as (L1 & L2 & _).
    f_equal; apply IH; lia.
Qed.

(** An array of more than 128 elements is cut in two, and the sums of the
    two parts are added. *)
Lemma pairwise_sum_unfold (a : list A) :
  (128 < length a)%nat ->
  let n2 := (length a / 2 - (length a / 2) mod 8)%nat in
  pairwise_sum plus z (length a) a =
  plus (pairwise_sum plus z (length (firstn n2 a)) (firstn n2 a))
       (pairwise_sum plus z (length (skipn n2 a)) (skipn n2 a)).
Proof.
  intros H n2. destruct (cut_lengths a H) as (L1 & L2 & _). fold n2 in L1, L2.
  assert (E : exists f, length a = S f) by (destruct (length a); [lia|eauto]).
  destruct E as [f E]. rewrite E at 1.
  do 8 (destruct a as [|? a]; [cbn [length] in H; lia|]).
  rewrite pairwise_sum_eight. cbv zeta. fold n2.
  destruct (length _ <=? 128)%nat eqn:E'; [apply Nat.leb_le in E'; lia|].
  f_equal; apply pairwise_sum_fuel; lia.
Qed.

End PairwiseDepth.

Lemma nansum_nil t : nansum t [] = zero.
Proof. destruct t; reflexivity. Qed.

Lemma as_python_zero t : as_python t zero = zero.
Proof. destruct t; reflexivity. Qed.

Lemma empty_sum t : as_python t (nansum t []) = zero.
Proof. destruct t; reflexivity. Qed.




(** ** The normalisation of the longitude bounds *)

Lemma float_rem_nonneg x :
  valid x = true -> is_finite x = true -> sign_of x = false ->
  exists r, float_rem x f360 = Ok r /\ ltb r f360 = true /\
            scaled r = scaled x mod Y360.
Proof.
  intros Vx Fx Sx. rewrite float_rem_of_fmod.
  destruct x as [s|s| |sx mx ex]; try discriminate; cbn [sign_of] in Sx; subst.
  - exists zero. split; [reflexivity|]. split; [reflexivity|].
    cbn [scaled]. rewrite Z.mod_0_l; [reflexivity|]. pose proof Y360_pos. lia.
  - destruct (fmod_f360 false mx ex Vx) as (RB & H).
    rewrite scaled_finite. cbn [cond_Zopp].
    assert (P : 0 <= Zpos mx * 2 ^ (ex - emin)).
    { destruct (valid_finite_inv _ _ _ Vx) as (_ & _ & Mx).
      assert (0 < 2 ^ (ex - emin)) by (apply pow2_pos; lia). lia. }
    rewrite <- Z.rem_mod_nonneg by (pose proof Y360_pos; lia).
    destruct H as [[Hz Hf]|(Hpos & m & e & Hf & Hv & Hm)]; rewrite Hf.
    + exists zero. split; [reflexivity|]. split; [reflexivity|]. rewrite Hz. reflexivity.
    + exists (S754_finite false m e). split; [reflexivity|]. split.
      * apply (leb_f360 m e Hv). lia.
      * rewrite scaled_finite. cbn [cond_Zopp]. exact Hm.
Qed.

(** Every float has a remainder modulo 360. *)
Lemma remapped_exists x : valid x = true -> exists r, remapped x r.
Proof.
  intros Vx. destruct (is_finite x) eqn:Fx.
  - destruct (float_rem_finite x Vx Fx) as (r & Hr & Vr & Cases).
    exists r. split; [exact Hr|]. split; [exact Vr|]. split; [congruence|]. split.
    + intros _. destruct Cases as [->|(m & e & -> & Hle)]; [split; reflexivity|].
      split; [reflexivity|]. apply (leb_f360 m e Vr). exact Hle.
    + intros _ Sx. destruct (float_rem_nonneg x Vx Fx Sx) as (r' & Hr' & L & E).
      assert (r' = r) by congruence. subst r'. split; assumption.
  - exists nan. split; [apply float_rem_not_finite; exact Fx|]. split; [reflexivity|].
    split; [reflexivity|]. split; congruence.
Qed.

(** C1, as amended: on a grid whose greatest longitude exceeds 180 both
    longitude bounds are replaced by their Python remainders modulo 360,
    which lie in [0, 360] for finite bounds and are NaN otherwise; on any
    other grid the state is left as it is. *)
Theorem normalize_spec (data : DataArray) (st : State) :
  valid (lon_min st) = true -> valid (lon_max st) = true ->
  match lon data with
  | None => normalize data st = Ok st
  | Some l =>
      match nanmax l with
      | Err e => normalize data st = Err e
      | Ok m =>
          if ltb f180 m then
            exists lo hi,
              remapped (lon_min st) lo /\ remapped (lon_max st) hi /\
              normalize data st = Ok (with_lon st lo hi)
          else normalize data st = Ok st
      end
  end.
Proof.
  intros V1 V2. unfold normalize.
  destruct (lon data) as [l|]; [|reflexivity].
  destruct (nanmax l) as [m|e]; [|reflexivity]. cbn [bind].
  destruct (ltb f180 m); [|reflexivity].
  destruct (remapped_exists _ V1) as (lo & Hlo).
  destruct (remapped_exists _ V2) as (hi & Hhi).
  exists lo, hi. split; [exact Hlo|]. split; [exact Hhi|].
  destruct Hlo as (-> & _). destruct Hhi as (-> & _). reflexivity.
Qed.

Lemma normalize_spec_witness :
  normalize grid_0_360 (initial_state (of_Z (-10)) (of_Z 0) (of_Z 10) (of_Z 0)) =
    Ok (initial_state (of_Z 350) (of_Z 0) (of_Z 10) (of_Z 0)) /\
  normalize grid_180 (initial_state (of_Z (-10)) (of_Z 0) (of_Z 10) (of_Z 0)) =
    Ok (initial_state (of_Z (-10)) (of_Z 0) (of_Z 10) (of_Z 0)).
Proof.
  split.
  - pose proof (normalize_spec grid_0_360
                  (initial_state (of_Z (-10)) (of_Z 0) (of_Z 10) (of_Z 0))
                  eq_refl eq_refl) as H.
    cbv beta iota delta [lon grid_0_360] in H.
    destruct H as (lo & hi & (Hlo & _) & (Hhi & _) & Hn).
    refine (eq_trans Hn _). vm_compute in Hlo. vm_compute in Hhi.
    assert (E1 : lo = of_Z 350) by (vm_compute; congruence).
    assert (E2 : hi = of_Z 10) by (vm_compute; congruence).
    rewrite E1, E2. reflexivity.
  - exact (normalize_spec grid_180
             (initial_state (of_Z (-10)) (of_Z 0) (of_Z 10) (of_Z 0)) eq_refl eq_refl).
Defined.

(** C1 as stated fails: the remainder of a tiny negative bound is rounded
    to 360 itself, and the remainder of an infinite bound is NaN. *)
Lemma normalize_leaves_0_360 :
  exists tiny inf st1 st2,
    parse_bbox "-1e-20,0,10,0" = Ok [tiny; zero; of_Z 10; zero] /\
    normalize grid_0_360 (initial_state tiny zero (of_Z 10) zero) = Ok st1 /\
    lon_min st1 = f360 /\ ltb (lon_min st1) f360 = false /\
    parse_bbox "inf,0,10,0" = Ok [inf; zero; of_Z 10; zero] /\
    normalize grid_0_360 (initial_state inf zero (of_Z 10) zero) = Ok st2 /\
    lon_min st2 = nan /\ leb zero (lon_min st2) = false.
Proof.
  do 4 eexists.
  split; [vm_compute; reflexivity|].
  split; [vm_compute; reflexivity|].
  split; [reflexivity|]. split; [reflexivity|].
  split; [vm_compute; reflexivity|].
  split; [vm_compute; reflexivity|].
  split; reflexivity.
Qed.

(** ** The loop over the sources *)

Lemma normalize_frame data st st' :
  normalize data st = Ok st' ->
  lat_min st' = lat_min st /\ lat_max st' = lat_max st /\ series st' = series st.
Proof.
  unfold normalize. destruct (lon data) as [l|]; [|intros [= <-]; auto].
  destruct (nanmax l) as [m|e]; [|discriminate]. cbn [bind].
  destruct (ltb f180 m); [|intros [= <-]; auto].
  destruct (float_rem (lon_min st) f360) as [lo|]; [|discriminate].
  destruct (float_rem (lon_max st) f360) as [hi|]; [|discriminate].
  cbn [bind]. intros [= <-]. auto.
Qed.

Lemma normalize_cases data st st' :
  normalize data st = Ok st' ->
  (uses_0_360 data = true /\
   exists lo hi, float_rem (lon_min st) f360 = Ok lo /\
                 float_rem (lon_max st) f360 = Ok hi /\ st' = with_lon st lo hi) \/
  (uses_0_360 data = false /\ st' = st).
Proof.
  unfold normalize, uses_0_360. destruct (lon data) as [l|]; [|intros [= <-]; auto].
  destruct (nanmax l) as [m|e]; [|discriminate]. cbn [bind].
  destruct (ltb f180 m); [|intros [= <-]; auto].
  destruct (float_rem (lon_min st) f360) as [lo|]; [|discriminate].
  destruct (float_rem (lon_max st) f360) as [hi|]; [|discriminate].
  cbn [bind]. intros [= <-]. left. split; [reflexivity|]. exists lo, hi. auto.
Qed.

Lemma normalize_0_360 data st :
  uses_0_360 data = true ->
  normalize data st =
  (do lo <- float_rem (lon_min st) f360;
   do hi <- float_rem (lon_max st) f360;
   Ok (with_lon st lo hi)).
Proof.
  unfold normalize, uses_0_360. destruct (lon data) as [l|]; [|discriminate].
  destruct (nanmax l) as [m|e]; [|discriminate]. cbn [bind].
  intros ->. reflexivity.
Qed.

Lemma process_source_inv v w st p st' :
  process_source v w st p = Ok st' ->
  exists ds data stn,
    store w !! p = Some ds /\ ds !! v = Some data /\
    normalize data st = Ok stn /\
    reduce_and_label data stn p = Ok (series st') /\
    lon_min st' = lon_min stn /\ lon_max st' = lon_max stn /\
    lat_min st' = lat_min stn /\ lat_max st' = lat_max stn.
Proof.
  unfold process_source, open_dataset.
  destruct (store w !! p) as [ds|] eqn:E1; [|discriminate]. cbn [bind].
  destruct (ds !! v) as [data|] eqn:E2; [|discriminate].
  destruct (normalize data st) as [stn|] eqn:E3; [|discriminate]. cbn [bind].
  destruct (reduce_and_label data stn p) as [s1|] eqn:E4; [|discriminate]. cbn [bind].
  intros [= <-]. exists ds, data, stn. cbn. repeat split; try reflexivity; assumption.
Qed.

Lemma run_sources_app v w st before rest :
  run_sources v w st (before ++ rest) =
  (do st' <- run_sources v w st before; run_sources v w st' rest).
Proof.
  revert st. induction before as [|p before IH]; intros st; [reflexivity|].
  cbn [app run_sources]. destruct (process_source v w st p) as [st1|]; [|reflexivity].
  cbn [bind]. apply IH.
Qed.

Lemma process_source_lat v w st p st' :
  process_source v w st p = Ok st' ->
  lat_min st' = lat_min st /\ lat_max st' = lat_max st.
Proof.
  intros H. destruct (process_source_inv _ _ _ _ _ H)
    as (ds & data & stn & _ & _ & Hn & _ & _ & _ & E1 & E2).
  destruct (normalize_frame _ _ _ Hn) as (F1 & F2 & _). split; congruence.
Qed.

Lemma run_sources_lat v w paths : forall st st',
  run_sources v w st paths = Ok st' ->
  lat_min st' = lat_min st /\ lat_max st' = lat_max st.
Proof.
  induction paths as [|p paths IH]; intros st st' H.
  - cbn in H. injection H as <-. auto.
  - cbn [run_sources] in H. destruct (process_source v w st p) as [st1|] eqn:E; [|discriminate].
    cbn [bind] in H. destruct (IH _ _ H) as [A B].
    destruct (process_source_lat _ _ _ _ _ E) as [C D]. split; congruence.
Qed.

(** C9: whatever sources have been processed, the latitude bounds are
    those the loop started with, before and after the normalisation for
    the next source. *)
Theorem lat_bounds_never_change
    (v : string) (w : World) (st0 st : State) (paths : list string) :
  run_sources v w st0 paths = Ok st ->
  lat_min st = lat_min st0 /\ lat_max st = lat_max st0 /\
  forall data stn, normalize data st = Ok stn ->
                   lat_min stn = lat_min st0 /\ lat_max stn = lat_max st0.
Proof.
  intros H. destruct (run_sources_lat _ _ _ _ _ H) as [A B].
  split; [exact A|]. split; [exact B|].
  intros data stn Hn. destruct (normalize_frame _ _ _ Hn) as (C & D & _).
  split; congruence.
Qed.

Lemma lat_bounds_never_change_witness :
  exists st,
    run_sources "v" two_conventions box_10 ["edgar_2020_co2.nc"; "edgar_2021_co2.nc"] = Ok st /\
    lon_min st = of_Z 350 /\
    lat_min st = of_Z 0 /\ lat_max st = of_Z 0.
Proof.
  assert (E : exists st, run_sources "v" two_conventions box_10 ["edgar_2020_co2.nc"; "edgar_2021_co2.nc"] = Ok st
                         /\ lon_min st = of_Z 350).
  { eexists. split; vm_compute; reflexivity. }
  destruct E as (st & Hr & Hl). exists st.
  destruct (lat_bounds_never_change "v" two_conventions box_10 st _ Hr) as (A & B & _).
  repeat split; assumption.
Defined.

(** C2: a source is processed from the state the sources before it have
    left.  Its slice is taken with the bounds that the normalisation
    derives from that state, and these are the bounds left by the source
    before when its own grid is not on the 0 to 360 convention. *)
Theorem bounds_carry_over
    (v : string) (w : World) (st0 st1 st2 : State) (before : list string) (p : string)
    (ds : gmap string DataArray) (data : DataArray) :
  run_sources v w st0 before = Ok st1 ->
  store w !! p = Some ds -> ds !! v = Some data ->
  process_source v w st1 p = Ok st2 ->
  run_sources v w st0 (before ++ [p]) = Ok st2 /\
  exists stn,
    normalize data st1 = Ok stn /\
    reduce_and_label data stn p = Ok (series st2) /\
    lon_min st2 = lon_min stn /\ lon_max st2 = lon_max stn /\
    (uses_0_360 data = false ->
     lon_min stn = lon_min st1 /\ lon_max stn = lon_max st1).
Proof.
  intros Hrun Hds Hdata Hp. split.
  - rewrite run_sources_app, Hrun. cbn [bind run_sources]. rewrite Hp. reflexivity.
  - destruct (process_source_inv _ _ _ _ _ Hp)
      as (ds' & data' & stn & Hds' & Hdata' & Hn & Hr & E1 & E2 & _).
    assert (ds' = ds) by congruence. subst ds'.
    assert (data' = data) by congruence. subst data'.
    exists stn. split; [exact Hn|]. split; [exact Hr|]. split; [exact E1|]. split; [exact E2|].
    intros U. destruct (normalize_cases _ _ _ Hn) as [[U' _]|[_ ->]]; [congruence|]. auto.
Qed.

Lemma bounds_carry_over_witness :
  exists st1 st2,
    process_source "v" two_conventions box_10 "edgar_2020_co2.nc" = Ok st1 /\
    run_sources "v" two_conventions box_10 ["edgar_2020_co2.nc"; "edgar_2021_co2.nc"] = Ok st2 /\
    lon_min st1 = of_Z 350 /\ lon_max st1 = of_Z 10 /\
    reduce_and_label grid_180 st1 "edgar_2021_co2.nc" = Ok (series st2) /\
    series st2 = [{| date := "2020"; value := zero |}; {| date := "2021"; value := zero |}] /\
    reduce_and_label grid_180 box_10 "edgar_2021_co2.nc" =
      Ok [{| date := "2021"; value := of_Z 12 |}].
Proof.
  assert (E : exists st1 st2,
             run_sources "v" two_conventions box_10 ["edgar_2020_co2.nc"] = Ok st1 /\
             process_source "v" two_conventions box_10 "edgar_2020_co2.nc" = Ok st1 /\
             process_source "v" two_conventions st1 "edgar_2021_co2.nc" = Ok st2 /\
             lon_min st1 = of_Z 350 /\ lon_max st1 = of_Z 10 /\
             series st2 = [{| date := "2020"; value := zero |};
                           {| date := "2021"; value := zero |}]).
  { do 2 eexists. repeat split; vm_compute; reflexivity. }
  destruct E as (st1 & st2 & R1 & P1 & P2 & L1 & L2 & S2).
  destruct (bounds_carry_over "v" two_conventions box_10 st1 st2 ["edgar_2020_co2.nc"] "edgar_2021_co2.nc"
              {["v" := grid_180]} grid_180 R1 eq_refl eq_refl P2)
    as (Hrun & stn & Hn & Hr & _ & _ & Same).
  destruct (Same eq_refl) as [Sa Sb].
  exists st1, st2. split; [exact P1|]. split; [exact Hrun|].
  split; [exact L1|]. split; [exact L2|]. split.
  - assert (stn = st1).
    { destruct (normalize_cases _ _ _ Hn) as [[U _]|[_ E]]; [discriminate U|exact E]. }
    subst stn. exact Hr.
  - split; [exact S2|]. vm_compute. reflexivity.
Defined.

(** ** The bounds carried from source to source *)

(** The remainder modulo 360 is its own remainder, unless it is 360. *)
Lemma float_rem_idempotent x r :
  valid x = true -> float_rem x f360 = Ok r -> r <> f360 ->
  float_rem r f360 = Ok r.
Proof.
  intros Vx Hr Ne. destruct (is_finite x) eqn:Fx.
  - destruct (float_rem_finite x Vx Fx) as (r' & Hr' & Vr & Cases).
    assert (r' = r) by congruence. subst r'.
    destruct Cases as [->|(m & e & -> & Hle)]; [reflexivity|].
    apply float_rem_small; [exact Vr|].
    destruct (Z.eq_dec (Zpos m * 2 ^ (e - emin)) Y360) as [E|N]; [|lia].
    exfalso. apply Ne. rewrite f360_eq.
    apply valid_magnitude_inj; [exact Vr|exact valid_f360|exact E].
  - rewrite (float_rem_not_finite x Fx) in Hr. injection Hr as <-. reflexivity.
Qed.

Lemma float_rem_valid x r :
  valid x = true -> float_rem x f360 = Ok r -> valid r = true.
Proof.
  intros Vx Hr. destruct (remapped_exists x Vx) as (r' & Hr' & Vr & _).
  congruence.
Qed.

Lemma map_result_py_float_valid l parts :
  map_result py_float l = Ok parts -> Forall (fun x => valid x = true) parts.
Proof.
  revert parts. induction l as [|t l IH]; intros parts H.
  - cbn in H. injection H as <-. constructor.
  - cbn [map_result] in H. unfold py_float at 1 in H.
    destruct (of_string t) as [x|] eqn:E; [|discriminate]. cbn [bind] in H.
    destruct (map_result py_float l) as [xs|]; [|discriminate]. cbn [bind] in H.
    injection H as <-. constructor; [exact (of_string_valid _ _ E)|]. apply IH. reflexivity.
Qed.

(** The bounds the parser returns are valid floats. *)
Lemma parse_bbox_valid value parts :
  parse_bbox value = Ok parts -> Forall (fun x => valid x = true) parts.
Proof.
  unfold parse_bbox. destruct (map_result py_float (Str.split "," value)) as [ps|] eqn:E;
    [|discriminate].
  cbn [bind]. destruct (negb (length ps =? 4)%nat); [discriminate|].
  intros [= <-]. exact (map_result_py_float_valid _ _ E).
Qed.

(** The loop keeps the longitude bounds valid. *)
Lemma normalize_valid data st st' :
  valid (lon_min st) = true -> valid (lon_max st) = true ->
  normalize data st = Ok st' ->
  valid (lon_min st') = true /\ valid (lon_max st') = true.
Proof.
  intros V1 V2 H.
  destruct (normalize_cases _ _ _ H) as [(_ & lo & hi & Hlo & Hhi & ->)|[_ ->]];
    [|split; assumption].
  cbn [with_lon lon_min lon_max]. split.
  - exact (float_rem_valid _ _ V1 Hlo).
  - exact (float_rem_valid _ _ V2 Hhi).
Qed.

Lemma run_sources_valid v w paths : forall st st',
  valid (lon_min st) = true -> valid (lon_max st) = true ->
  run_sources v w st paths = Ok st' ->
  valid (lon_min st') = true /\ valid (lon_max st') = true.
Proof.
  induction paths as [|p paths IH]; intros st st' V1 V2 H.
  - cbn in H. injection H as <-. split; assumption.
  - cbn [run_sources] in H.
    destruct (process_source v w st p) as [st1|] eqn:E; [|discriminate]. cbn [bind] in H.
    destruct (process_source_inv _ _ _ _ _ E)
      as (ds & data & stn & _ & _ & Hn & _ & E1 & E2 & _).
    destruct (normalize_valid _ _ _ V1 V2 Hn) as [W1 W2].
    apply (IH st1 st'); [rewrite E1; exact W1|rewrite E2; exact W2|exact H].
Qed.

Lemma carried_step st0 st data stn :
  valid (lon_min st0) = true -> valid (lon_max st0) = true ->
  float_rem (lon_min st0) f360 <> Ok f360 -> float_rem (lon_max st0) f360 <> Ok f360 ->
  carried st0 st -> normalize data st = Ok stn -> carried st0 stn.
Proof.
  intros V1 V2 N1 N2 [C1 C2] Hn.
  destruct (normalize_cases _ _ _ Hn) as [(_ & lo & hi & Hlo & Hhi & ->)|[_ ->]];
    [|split; assumption].
  unfold carried. cbn [with_lon lon_min lon_max]. split.
  - right. destruct C1 as [E|E]; [rewrite <- E; exact Hlo|].
    rewrite (float_rem_idempotent _ _ V1 E) in Hlo by congruence. congruence.
  - right. destruct C2 as [E|E]; [rewrite <- E; exact Hhi|].
    rewrite (float_rem_idempotent _ _ V2 E) in Hhi by congruence. congruence.
Qed.

Lemma run_sources_carried v w st0 paths : forall st st',
  valid (lon_min st0) = true -> valid (lon_max st0) = true ->
  float_rem (lon_min st0) f360 <> Ok f360 -> float_rem (lon_max st0) f360 <> Ok f360 ->
  carried st0 st -> run_sources v w st paths = Ok st' -> carried st0 st'.
Proof.
  induction paths as [|p paths IH]; intros st st' V1 V2 N1 N2 C H.
  - cbn in H. injection H as <-. exact C.
  - cbn [run_sources] in H.
    destruct (process_source v w st p) as [st1|] eqn:E; [|discriminate]. cbn [bind] in H.
    apply (IH st1 st' V1 V2 N1 N2); [|exact H].
    destruct (process_source_inv _ _ _ _ _ E)
      as (ds & data & stn & _ & _ & Hn & _ & E1 & E2 & _).
    pose proof (carried_step st0 st data stn V1 V2 N1 N2 C Hn) as [D1 D2].
    unfold carried. rewrite E1, E2. split; assumption.
Qed.

(** C10, as amended: when the remainders of the two longitude bounds are
    not 360 itself, they are their own remainders; so at a grid on the 0
    to 360 convention the bounds carried over from any earlier sources are
    remapped to what the bounds parsed at the start are remapped to, and a
    further grid of that convention leaves them as they are. *)
Theorem normalisation_idempotent
    (v : string) (w : World) (st0 st : State) (paths : list string) (data : DataArray) :
  valid (lon_min st0) = true -> valid (lon_max st0) = true ->
  float_rem (lon_min st0) f360 <> Ok f360 ->
  float_rem (lon_max st0) f360 <> Ok f360 ->
  run_sources v w st0 paths = Ok st ->
  uses_0_360 data = true ->
  exists lo hi,
    float_rem (lon_min st0) f360 = Ok lo /\ float_rem (lon_max st0) f360 = Ok hi /\
    float_rem lo f360 = Ok lo /\ float_rem hi f360 = Ok hi /\
    normalize data st0 = Ok (with_lon st0 lo hi) /\
    normalize data st = Ok (with_lon st lo hi) /\
    normalize data (with_lon st lo hi) = Ok (with_lon st lo hi).
Proof.
  intros V1 V2 N1 N2 Hrun U.
  destruct (remapped_exists _ V1) as (lo & Hlo & _).
  destruct (remapped_exists _ V2) as (hi & Hhi & _).
  assert (Ilo : float_rem lo f360 = Ok lo)
    by (apply (float_rem_idempotent _ _ V1 Hlo); congruence).
  assert (Ihi : float_rem hi f360 = Ok hi)
    by (apply (float_rem_idempotent _ _ V2 Hhi); congruence).
  assert (C0 : carried st0 st0) by (split; left; reflexivity).
  destruct (run_sources_carried v w st0 paths st0 st V1 V2 N1 N2 C0 Hrun) as [C1 C2].
  exists lo, hi. split; [exact Hlo|]. split; [exact Hhi|].
  split; [exact Ilo|]. split; [exact Ihi|].
  rewrite !(normalize_0_360 data) by exact U. split; [|split].
  - rewrite Hlo, Hhi. reflexivity.
  - assert (E1 : float_rem (lon_min st) f360 = Ok lo)
      by (destruct C1 as [E|E]; [rewrite E; exact Hlo | congruence]).
    assert (E2 : float_rem (lon_max st) f360 = Ok hi)
      by (destruct C2 as [E|E]; [rewrite E; exact Hhi | congruence]).
    rewrite E1, E2. reflexivity.
  - cbn [with_lon lon_min lon_max]. rewrite Ilo, Ihi. reflexivity.
Qed.

Lemma normalisation_idempotent_witness :
  exists st,
    run_sources "v" two_conventions box_10 ["edgar_2020_co2.nc"; "edgar_2021_co2.nc"] = Ok st /\
    float_rem (of_Z (-10)) f360 = Ok (of_Z 350) /\
    float_rem (of_Z 350) f360 = Ok (of_Z 350) /\
    normalize grid_0_360 box_10 = Ok (with_lon box_10 (of_Z 350) (of_Z 10)) /\
    normalize grid_0_360 st = Ok (with_lon st (of_Z 350) (of_Z 10)).
Proof.
  assert (E : exists st,
             run_sources "v" two_conventions box_10
               ["edgar_2020_co2.nc"; "edgar_2021_co2.nc"] = Ok st).
  { eexists. vm_compute. reflexivity. }
  destruct E as (st & Hrun). exists st.
  assert (N1 : float_rem (lon_min box_10) f360 <> Ok f360) by (vm_compute; discriminate).
  assert (N2 : float_rem (lon_max box_10) f360 <> Ok f360) by (vm_compute; discriminate).
  destruct (normalisation_idempotent "v" two_conventions box_10 st _ grid_0_360
              eq_refl eq_refl N1 N2 Hrun eq_refl)
    as (lo & hi & Hlo & Hhi & Ilo & Ihi & Hf & Hc & _).
  assert (E1 : lo = of_Z 350) by (vm_compute in Hlo; vm_compute; congruence).
  assert (E2 : hi = of_Z 10) by (vm_compute in Hhi; vm_compute; congruence).
  subst lo hi.
  split; [exact Hrun|]. split; [exact Hlo|]. split; [exact Ilo|]. split; [exact Hf|exact Hc].
Defined.

(** C10 as stated fails: the remainder of a tiny negative bound is 360,
    whose remainder is 0, so a second grid on the 0 to 360 convention
    changes the bound again. *)
Lemma normalisation_not_idempotent :
  exists tiny st1 st2,
    parse_bbox "-1e-20,0,10,0" = Ok [tiny; zero; of_Z 10; zero] /\
    float_rem tiny f360 = Ok f360 /\ float_rem f360 f360 = Ok zero /\
    normalize grid_0_360 (initial_state tiny zero (of_Z 10) zero) = Ok st1 /\
    normalize grid_0_360 st1 = Ok st2 /\
    lon_min st1 = f360 /\ lon_min st2 = zero /\
    eqb (lon_min st2) (lon_min st1) = false.
Proof.
  do 3 eexists.
  split; [vm_compute; reflexivity|].
  split; [vm_compute; reflexivity|].
  split; [vm_compute; reflexivity|].
  split; [vm_compute; reflexivity|].
  split; [vm_compute; reflexivity|].
  split; [reflexivity|]. split; reflexivity.
Qed.

(** ** The parser of the bounding box *)

Lemma map_result_py_float l :
  match map_result py_float l with
  | Ok parts => length parts = length l
  | Err e => e = InvalidArgument
  end.
Proof.
  induction l as [|x l IH]; [reflexivity|]. cbn [map_result].
  unfold py_float at 1. destruct (of_string x); cbn [bind]; [|reflexivity].
  destruct (map_result py_float l); cbn [bind]; [|exact IH]. cbn. congruence.
Qed.

(** C6: the parser returns the four floats of the four comma-separated
    tokens in their order, and fails with InvalidArgument for any other
    number of tokens or when [float] rejects a token; the values are not
    compared with each other or with any range. *)
Theorem parse_bbox_spec :
  (forall value : string,
     parse_bbox value =
     match Str.split "," value with
     | [ta; tb; tc; td] =>
         match of_string ta, of_string tb, of_string tc, of_string td with
         | Some a, Some b, Some c, Some d => Ok [a; b; c; d]
         | _, _, _, _ => Err InvalidArgument
         end
     | _ => Err InvalidArgument
     end) /\
  parse_bbox "500,95,-500,-95" = Ok [of_Z 500; of_Z 95; of_Z (-500); of_Z (-95)] /\
  parse_bbox "-10,0,10" = Err InvalidArgument /\
  parse_bbox "-10,0,10,0,5" = Err InvalidArgument /\
  parse_bbox "-10,0,east,0" = Err InvalidArgument.
Proof.
  split; [|repeat split; vm_compute; reflexivity].
  intros value. unfold parse_bbox.
  destruct (Str.split "," value) as [|ta [|tb [|tc [|td [|te rest]]]]].
  - reflexivity.
  - cbn. unfold py_float. destruct (of_string ta); reflexivity.
  - cbn. unfold py_float. destruct (of_string ta), (of_string tb); reflexivity.
  - cbn. unfold py_float.
    destruct (of_string ta), (of_string tb), (of_string tc); reflexivity.
  - cbn. unfold py_float.
    destruct (of_string ta), (of_string tb), (of_string tc), (of_string td); reflexivity.
  - pose proof (map_result_py_float (ta :: tb :: tc :: td :: te :: rest)) as H.
    destruct (map_result py_float (ta :: tb :: tc :: td :: te :: rest)) as [parts|e];
      cbn [bind].
    + cbn [length] in H.
      destruct parts as [|? [|? [|? [|? [|? ?]]]]]; cbn [length] in H; try lia. reflexivity.
    + rewrite H. reflexivity.
Qed.

(** ** The year in the file name *)

Lemma find_first {A : Type} (f : A -> bool) l :
  match List.find f l with
  | Some x => exists before after,
                l = before ++ x :: after /\ Forall (fun t => f t = false) before /\ f x = true
  | None => Forall (fun t => f t = false) l
  end.
Proof.
  induction l as [|a l IH]; [constructor|]. cbn [List.find].
  destruct (f a) eqn:E.
  - exists [], l. split; [reflexivity|]. split; [constructor|exact E].
  - destruct (List.find f l) as [x|].
    + destruct IH as (before & after & -> & F & Fx).
      exists (a :: before), after. split; [reflexivity|]. split; [|exact Fx].
      constructor; assumption.
    + constructor; assumption.
Qed.

Lemma find_unique {A : Type} (f : A -> bool) before x after :
  Forall (fun t => f t = false) before -> f x = true ->
  List.find f (before ++ x :: after) = Some x.
Proof.
  induction 1 as [|a before Ha _ IH]; intros Fx; cbn [app List.find].
  - rewrite Fx. reflexivity.
  - rewrite Ha. apply IH. exact Fx.
Qed.

Lemma find_none {A : Type} (f : A -> bool) l :
  Forall (fun t => f t = false) l -> List.find f l = None.
Proof.
  induction 1 as [|a l Ha _ IH]; [reflexivity|]. cbn [List.find]. rewrite Ha. exact IH.
Qed.

Lemma extract_year_first name tok :
  first_year_token name tok -> extract_year_from_filename name = Some tok.
Proof.
  intros (before & after & E & F & D & L). unfold extract_year_from_filename. rewrite E.
  apply (find_unique (fun part => Str.isdigit part && (Str.len part =? 4)%nat)).
  - exact F.
  - rewrite D, L. reflexivity.
Qed.

Lemma extract_year_none name :
  no_year_token name -> extract_year_from_filename name = None.
Proof. intros F. unfold extract_year_from_filename. apply find_none. exact F. Qed.

(** C4: for a source whose reduced result has no time coordinate, the
    first token of the file name that is all-numeric and four characters
    long labels the one point emitted, which carries the single value; a
    name with no such token fails with MissingYear.  Every name falls
    under one of the two cases. *)
Theorem filename_year
    (data : DataArray) (st : State) (input_path : string) (sliced : DataArray) :
  sel data (lon_min st) (lon_max st) (lat_min st) (lat_max st) = Ok sliced ->
  r_time (sum_lat_lon sliced) = None ->
  (forall tok v,
     first_year_token (Str.path_name input_path) tok ->
     r_values (sum_lat_lon sliced) = [v] ->
     reduce_and_label data st input_path =
       Ok (series st ++ [{| date := tok; value := v |}])) /\
  (no_year_token (Str.path_name input_path) ->
   reduce_and_label data st input_path = Err MissingYear) /\
  ((exists tok, first_year_token (Str.path_name input_path) tok) \/
   no_year_token (Str.path_name input_path)).
Proof.
  intros Hsel Ht. unfold reduce_and_label. rewrite Hsel. cbn [bind]. rewrite Ht.
  split; [|split].
  - intros tok v Hf Hv. rewrite (extract_year_first _ _ Hf).
    destruct Hf as (_ & _ & _ & _ & _ & L).
    destruct tok as [|c tok]; [discriminate L|]. cbn [String.eqb].
    rewrite Hv. reflexivity.
  - intros Hn. rewrite (extract_year_none _ Hn). reflexivity.
  - pose proof (find_first year_token (Str.split "_" (Str.path_name input_path))) as H.
    destruct (List.find year_token (Str.split "_" (Str.path_name input_path))) as [tok|].
    + left. exists tok. destruct H as (before & after & E & F & Y).
      exists before, after. unfold year_token in Y. apply andb_true_iff in Y.
      destruct Y as [Y1 Y2]. apply Nat.eqb_eq in Y2. auto.
    + right. exact H.
Qed.

Lemma filename_year_witness :
  reduce_and_label grid_180 box_10 "/data/edgar/data_emissions_2021_v2.nc" =
    Ok [{| date := "2021"; value := of_Z 12 |}] /\
  reduce_and_label grid_180 box_10 "/data/edgar/data_v2.nc" = Err MissingYear.
Proof.
  assert (E : exists sliced,
             sel grid_180 (lon_min box_10) (lon_max box_10) (lat_min box_10) (lat_max box_10)
               = Ok sliced /\
             r_time (sum_lat_lon sliced) = None /\
             r_values (sum_lat_lon sliced) = [of_Z 12]).
  { eexists. repeat split; vm_compute; reflexivity. }
  destruct E as (sliced & Hs & Ht & Hv). split.
  - destruct (filename_year grid_180 box_10 "/data/edgar/data_emissions_2021_v2.nc"
                sliced Hs Ht) as (H & _ & _).
    apply (H "2021" (of_Z 12)); [|exact Hv].
    exists ["data"; "emissions"], ["v2.nc"].
    split; [reflexivity|]. split; [repeat constructor|]. split; reflexivity.
  - destruct (filename_year grid_180 box_10 "/data/edgar/data_v2.nc" sliced Hs Ht)
      as (_ & H & _).
    apply H. repeat constructor.
Defined.

(** ** The labels of the time axis *)

Lemma days_to_year_spec d :
  -106752 <= d <= 106751 ->
  1677 <= days_to_year d <= 2262 /\
  days_before_year (days_to_year d) <= d < days_before_year (days_to_year d + 1).
Proof.
  intros H. unfold days_to_year, days_before_year, leap_years_before.
  cbv zeta.
  repeat match goal with
  | |- context [if ?a <=? ?b then _ else _] => destruct (Z.leb_spec a b)
  end; Z.div_mod_to_equations; lia.
Qed.

Lemma year_text_all : forallb year_text_ok (map Z.of_nat (seq 1677 586)) = true.
Proof. vm_compute. reflexivity. Qed.

Lemma year_text_four y :
  1677 <= y <= 2262 ->
  year_text y = Str.decimal y /\ String.length (Str.decimal y) = 4%nat.
Proof.
  intros H. pose proof year_text_all as A. rewrite forallb_forall in A.
  specialize (A y). unfold year_text_ok in A.
  assert (I : In y (map Z.of_nat (seq 1677 586))).
  { apply in_map_iff. exists (Z.to_nat y). split; [lia|]. apply in_seq. lia. }
  specialize (A I). apply andb_true_iff in A. destruct A as [A1 A2].
  apply String.eqb_eq in A1. apply Nat.eqb_eq in A2. auto.
Qed.

(** The label of a timestamp is the four digits of its civil year. *)
Lemma year_label_spec t :
  valid_time t = true ->
  exists y, year_label t = Str.decimal y /\ String.length (year_label t) = 4%nat /\
            start_of_year y <= t < start_of_year (y + 1).
Proof.
  unfold valid_time, in_range, NaT. intros H.
  apply andb_true_iff in H. destruct H as [R N]. apply andb_true_iff in R.
  destruct R as [R1 R2]. apply Z.leb_le in R1. apply Z.ltb_lt in R2.
  apply negb_true_iff in N. apply Z.eqb_neq in N.
  assert (D : -106752 <= t / ns_per_day <= 106751).
  { unfold ns_per_day. Z.div_mod_to_equations. lia. }
  destruct (days_to_year_spec _ D) as (Y & B).
  destruct (year_text_four _ Y) as (T1 & T2).
  exists (days_to_year (t / ns_per_day)).
  assert (L : year_label t = Str.decimal (days_to_year (t / ns_per_day))).
  { unfold year_label, year_str, NaT. rewrite (proj2 (Z.eqb_neq _ _) N). exact T1. }
  split; [exact L|]. split; [rewrite L; exact T2|].
  unfold start_of_year. revert B.
  generalize (days_before_year (days_to_year (t / ns_per_day))).
  generalize (days_before_year (days_to_year (t / ns_per_day) + 1)).
  intros hi lo B. unfold ns_per_day in *. Z.div_mod_to_equations. nia.
Qed.

Lemma time_positions_skip k times tv :
  ~ In tv times -> time_positions_from k times tv = [].
Proof.
  revert k. induction times as [|t times IH]; intros k H; [reflexivity|].
  cbn [time_positions_from]. destruct (Z.eqb_spec t tv) as [E|E].
  - exfalso. apply H. left. exact E.
  - apply IH. intros C. apply H. right. exact C.
Qed.

Lemma time_positions_unique done tv rest : forall k,
  List.NoDup (done ++ tv :: rest) ->
  time_positions_from k (done ++ tv :: rest) tv = [(k + length done)%nat].
Proof.
  induction done as [|t done IH]; intros k H.
  - cbn [app time_positions_from length]. rewrite Z.eqb_refl.
    inversion H as [|? ? Hn Hr]. subst.
    rewrite (time_positions_skip _ _ _ Hn). f_equal. lia.
  - cbn [app time_positions_from length]. inversion H as [|? ? Hn Hr]. subst.
    destruct (Z.eqb_spec t tv) as [E|E].
    + exfalso. apply Hn. subst. apply in_or_app. right. left. reflexivity.
    + rewrite (IH (S k) Hr). f_equal. lia.
Qed.

Lemma label_times_suffix summed times : forall todo done acc,
  times = done ++ todo -> List.NoDup times ->
  length (r_values summed) = length times ->
  label_times summed times todo acc =
  Ok (acc ++ map time_point (combine todo (skipn (length done) (r_values summed)))).
Proof.
  induction todo as [|tv rest IH]; intros done acc E N L.
  - cbn. rewrite app_nil_r. reflexivity.
  - cbn [label_times]. unfold sel_time. subst times.
    rewrite (time_positions_unique done tv rest 0%nat N). cbn [Nat.add flat_map].
    assert (Lt : (length done < length (r_values summed))%nat).
    { rewrite L, length_app. cbn [length]. lia. }
    destruct (nth_error (r_values summed) (length done)) as [v|] eqn:Ev.
    2:{ apply nth_error_None in Ev. lia. }
    cbn [app to_float bind].
    rewrite (IH (done ++ [tv]) (acc ++ [{| date := year_label tv; value := v |}])); 
      [|rewrite <- app_assoc; reflexivity|exact N|exact L].
    f_equal. rewrite <- app_assoc. f_equal.
    rewrite length_app. cbn [length].
    assert (Sk : skipn (length done) (r_values summed) =
                 v :: skipn (length done + 1) (r_values summed)).
    { clear -Ev. revert Ev. generalize (r_values summed) as vals. generalize (length done) as n.
      induction n as [|n IHn]; intros [|x vals] Hv; try discriminate.
      - cbn in Hv. injection Hv as ->. reflexivity.
      - cbn [nth_error] in Hv. cbn [skipn Nat.add]. apply IHn. exact Hv. }
    rewrite Sk. reflexivity.
Qed.

(** C5, as amended: for a source whose reduced result has a time
    coordinate of distinct values, with one reduced value per time step,
    the points emitted are one per time step, in coordinate order, each
    with the value of its step; the label of a timestamp is the four
    digits of the civil year it falls in. *)
Theorem time_labels
    (data : DataArray) (st : State) (input_path : string) (sliced : DataArray)
    (times : list datetime64) :
  sel data (lon_min st) (lon_max st) (lat_min st) (lat_max st) = Ok sliced ->
  r_time (sum_lat_lon sliced) = Some times ->
  List.NoDup times ->
  length (r_values (sum_lat_lon sliced)) = length times ->
  reduce_and_label data st input_path =
    Ok (series st ++ map time_point (combine times (r_values (sum_lat_lon sliced)))) /\
  length (map time_point (combine times (r_values (sum_lat_lon sliced)))) = length times /\
  forall t, In t times -> valid_time t = true ->
    exists y, year_label t = Str.decimal y /\ String.length (year_label t) = 4%nat /\
              start_of_year y <= t < start_of_year (y + 1).
Proof.
  intros Hsel Ht N L. split; [|split].
  - unfold reduce_and_label. rewrite Hsel. cbn [bind]. rewrite Ht.
    rewrite (label_times_suffix (sum_lat_lon sliced) times times [] (series st)
               eq_refl N L).
    reflexivity.
  - rewrite length_map, length_combine. lia.
  - intros t _ V. apply year_label_spec. exact V.
Qed.

Lemma time_labels_witness :
  exists v, of_string "7.5" = Some v /\
    reduce_and_label yearly_grid (initial_state (of_Z 0) (of_Z 0) (of_Z 10) (of_Z 10))
                     "edgar_co2.nc" =
      Ok [{| date := "2019"; value := of_Z 5 |}; {| date := "2020"; value := v |}].
Proof.
  assert (E : exists sliced v,
             sel yearly_grid (of_Z 0) (of_Z 10) (of_Z 0) (of_Z 10) = Ok sliced /\
             r_time (sum_lat_lon sliced) = Some [1546300800000000000; 1577836800000000000] /\
             r_values (sum_lat_lon sliced) = [of_Z 5; v] /\
             of_string "7.5" = Some v).
  { do 2 eexists. repeat split; vm_compute; reflexivity. }
  destruct E as (sliced & v & Hs & Ht & Hv & Hp).
  assert (N : List.NoDup [1546300800000000000; 1577836800000000000]).
  { constructor; [intros [C|[]]; discriminate C|]. constructor; [intros []|constructor]. }
  destruct (time_labels yearly_grid (initial_state (of_Z 0) (of_Z 0) (of_Z 10) (of_Z 10))
              "edgar_co2.nc" sliced _ Hs Ht N) as (H & _ & _).
  { rewrite Hv. reflexivity. }
  exists v. split; [exact Hp|]. rewrite H, Hv. reflexivity.
Defined.

(** C5 as stated fails: a time coordinate that repeats a value aborts the
    run, since the selection by that value holds two numbers; and the
    label of a missing time value is not a year. *)
Lemma time_labels_repeated_or_missing :
  reduce_and_label repeated_time_grid
                   (initial_state (of_Z 0) (of_Z 0) (of_Z 10) (of_Z 10)) "edgar_co2.nc"
    = Err LibraryError /\
  reduce_and_label missing_time_grid
                   (initial_state (of_Z 0) (of_Z 0) (of_Z 10) (of_Z 10)) "edgar_co2.nc"
    = Ok [{| date := "NaT"; value := of_Z 5 |}].
Proof. split; vm_compute; reflexivity. Qed.

(** ** The merge of the sources *)

Lemma label_times_acc summed times : forall todo acc,
  label_times summed times todo acc =
  (do pts <- label_times summed times todo []; Ok (acc ++ pts)).
Proof.
  induction todo as [|tv rest IH]; intros acc.
  - cbn. rewrite app_nil_r. reflexivity.
  - cbn [label_times]. destruct (to_float (sel_time summed times tv)) as [val|e];
      cbn [bind]; [|reflexivity].
    rewrite IH. rewrite (IH ([] ++ _)).
    destruct (label_times summed times rest []) as [pts|e]; cbn [bind]; [|reflexivity].
    rewrite <- app_assoc. reflexivity.
Qed.

Lemma reduce_and_label_series data st p :
  reduce_and_label data st p =
  (do pts <- reduce_and_label data (with_series st []) p; Ok (series st ++ pts)).
Proof.
  unfold reduce_and_label. cbn [with_series lon_min lon_max lat_min lat_max series].
  destruct (sel data (lon_min st) (lon_max st) (lat_min st) (lat_max st)) as [sliced|e];
    cbn [bind]; [|reflexivity].
  destruct (r_time (sum_lat_lon sliced)) as [times|].
  - apply label_times_acc.
  - destruct (extract_year_from_filename (Str.path_name p)) as [year|]; [|reflexivity].
    destruct (String.eqb year ""); [reflexivity|].
    destruct (to_float (r_values (sum_lat_lon sliced))); reflexivity.
Qed.

Lemma normalize_with_series data st s :
  normalize data (with_series st s) =
  (do st' <- normalize data st; Ok (with_series st' s)).
Proof.
  unfold normalize. cbn [with_series lon_min lon_max lat_min lat_max series].
  destruct (lon data) as [l|]; [|reflexivity].
  destruct (nanmax l) as [m|e]; [|reflexivity]. cbn [bind].
  destruct (ltb f180 m); [|reflexivity].
  destruct (float_rem (lon_min st) f360); [|reflexivity]. cbn [bind].
  destruct (float_rem (lon_max st) f360); reflexivity.
Qed.

Lemma process_source_points v w st p st' :
  process_source v w st p = Ok st' ->
  exists pts, source_points v w st p = Ok pts /\ series st' = series st ++ pts.
Proof.
  unfold source_points, process_source.
  destruct (open_dataset w p) as [ds|]; [|discriminate]. cbn [bind].
  destruct (ds !! v) as [data|]; [|discriminate].
  rewrite normalize_with_series.
  destruct (normalize data st) as [stn|] eqn:En; [|discriminate]. cbn [bind].
  rewrite (reduce_and_label_series data stn).
  change (reduce_and_label data (with_series (with_series stn []) []) p)
    with (reduce_and_label data (with_series stn []) p).
  rewrite (reduce_and_label_series data (with_series stn [])).
  change (reduce_and_label data (with_series (with_series stn []) []) p)
    with (reduce_and_label data (with_series stn []) p).
  destruct (reduce_and_label data (with_series stn []) p) as [pts|]; [|discriminate].
  cbn [bind with_series series lon_min lon_max lat_min lat_max app].
  intros [= <-]. exists pts. cbn [series]. split; [reflexivity|].
  destruct (normalize_frame data st stn En) as (_ & _ & E). rewrite E. reflexivity.
Qed.

Lemma run_sources_points v w paths : forall st st',
  run_sources v w st paths = Ok st' ->
  exists chunks,
    points_by_source v w st paths = Ok chunks /\
    length chunks = length paths /\
    series st' = series st ++ concat chunks.
Proof.
  induction paths as [|p paths IH]; intros st st' H.
  - cbn in H. injection H as <-. exists []. cbn. rewrite app_nil_r. auto.
  - cbn [run_sources] in H.
    destruct (process_source v w st p) as [st1|] eqn:E; [|discriminate]. cbn [bind] in H.
    destruct (process_source_points _ _ _ _ _ E) as (pts & Hp & Hs).
    destruct (IH _ _ H) as (chunks & Hc & Hl & Hs').
    exists (pts :: chunks). cbn [points_by_source]. rewrite Hp, E. cbn [bind].
    rewrite Hc. cbn [bind length concat]. split; [reflexivity|]. split; [lia|].
    rewrite Hs', Hs, <- app_assoc. reflexivity.
Qed.

Lemma leb_refl s : String.leb s s = true.
Proof. destruct (String.leb_total s s); assumption. Qed.

Lemma insert_point_perm x l : Permutation (x :: l) (insert_point x l).
Proof.
  induction l as [|y l IH]; [reflexivity|]. cbn [insert_point].
  destruct (String.leb (date x) (date y)); [reflexivity|].
  rewrite perm_swap. apply perm_skip. exact IH.
Qed.

Lemma sorted_perm l : Permutation l (sorted l).
Proof.
  induction l as [|x l IH]; [reflexivity|]. cbn [sorted].
  rewrite <- insert_point_perm. apply perm_skip. exact IH.
Qed.

Lemma insert_point_hd x y l :
  date_le y x -> HdRel date_le y l -> HdRel date_le y (insert_point x l).
Proof.
  intros Hyx H. destruct l as [|z l]; cbn [insert_point].
  - constructor. exact Hyx.
  - destruct (String.leb (date x) (date z)); constructor; [exact Hyx|].
    inversion H. assumption.
Qed.

Lemma insert_point_sorted x l : Sorted date_le l -> Sorted date_le (insert_point x l).
Proof.
  induction 1 as [|y l Hs IH Hh]; cbn [insert_point].
  - repeat constructor.
  - destruct (String.leb (date x) (date y)) eqn:E.
    + constructor; [constructor; assumption|]. constructor. exact E.
    + constructor; [exact IH|]. apply insert_point_hd; [|exact Hh].
      unfold date_le. destruct (String.leb_total (date x) (date y)); congruence.
Qed.

Lemma sorted_sorted l : Sorted date_le (sorted l).
Proof.
  induction l as [|x l IH]; [constructor|]. cbn [sorted]. apply insert_point_sorted. exact IH.
Qed.

Lemma insert_point_stable p x l :
  List.filter (same_date p) (insert_point x l) = List.filter (same_date p) (x :: l).
Proof.
  induction l as [|y l IH]; [reflexivity|]. cbn [insert_point].
  destruct (String.leb (date x) (date y)) eqn:E; [reflexivity|].
  cbn [List.filter] in *. rewrite IH.
  destruct (same_date p x) eqn:Px; [|reflexivity].
  destruct (same_date p y) eqn:Py; [|reflexivity].
  unfold same_date in Px, Py. apply String.eqb_eq in Px, Py.
  rewrite Px, Py, leb_refl in E. discriminate.
Qed.

Lemma sorted_stable p l :
  List.filter (same_date p) (sorted l) = List.filter (same_date p) l.
Proof.
  induction l as [|x l IH]; [reflexivity|]. cbn [sorted].
  rewrite insert_point_stable. cbn [List.filter]. rewrite IH. reflexivity.
Qed.

(** C7: the output of a run that succeeds is the concatenation of the
    points of the sources, in the order the sources are processed, sorted
    by the period as a string: a permutation of the points in ascending
    order, in which the points of one period stand as they stood in the
    concatenation. *)
Theorem merge_sorted (args : Args) (w : World) (out : list SeriesPoint) :
  collect args w = Ok out ->
  exists a b c d chunks,
    parse_bbox (bbox args) = Ok [a; b; c; d] /\
    points_by_source (var args) w (initial_state a b c d) (Str.split "," (input args))
      = Ok chunks /\
    length chunks = length (Str.split "," (input args)) /\
    out = sorted (concat chunks) /\
    Permutation (concat chunks) out /\
    Sorted date_le out /\
    forall p, List.filter (same_date p) out = List.filter (same_date p) (concat chunks).
Proof.
  unfold collect. intros H.
  destruct (parse_bbox (bbox args)) as [box|] eqn:Eb; [|discriminate]. cbn [bind] in H.
  destruct box as [|a [|b [|c [|d [|? ?]]]]]; try discriminate.
  fold (initial_state a b c d) in H.
  destruct (run_sources (var args) w (initial_state a b c d) (Str.split "," (input args)))
    as [st|] eqn:Er; [|discriminate].
  cbn [bind] in H. injection H as <-.
  destruct (run_sources_points _ _ _ _ _ Er) as (chunks & Hc & Hl & Hs).
  cbn [initial_state series app] in Hs. rewrite Hs.
  exists a, b, c, d, chunks. split; [reflexivity|]. split; [exact Hc|]. split; [exact Hl|].
  split; [reflexivity|]. split; [apply sorted_perm|]. split; [apply sorted_sorted|].
  intros p. apply sorted_stable.
Qed.

Lemma merge_sorted_witness :
  exists out,
    collect two_years_args two_years = Ok out /\
    map date out = ["2019"; "2021"] /\
    Sorted date_le out /\
    map date (sorted [{| date := "2019"; value := zero |};
                      {| date := "10000"; value := zero |}]) = ["10000"; "2019"].
Proof.
  assert (E : exists out, collect two_years_args two_years = Ok out /\
                          map date out = ["2019"; "2021"]).
  { eexists. split; vm_compute; reflexivity. }
  destruct E as (out & Hc & Hd). exists out.
  destruct (merge_sorted two_years_args two_years out Hc)
    as (a & b & c & d & chunks & _ & _ & _ & _ & _ & Hs & _).
  split; [exact Hc|]. split; [exact Hd|]. split; [exact Hs|]. reflexivity.
Defined.

(** ** Errors *)

Lemma process_source_absent v w st p ds :
  store w !! p = Some ds -> ds !! v = None ->
  process_source v w st p = Err VariableNotFound.
Proof.
  intros H1 H2. unfold process_source, open_dataset. rewrite H1. cbn [bind].
  rewrite H2. reflexivity.
Qed.

Lemma run_sources_absent v w p ds paths :
  In p paths -> store w !! p = Some ds -> ds !! v = None ->
  forall st, exists e, run_sources v w st paths = Err e.
Proof.
  intros Hin H1 H2. induction paths as [|q paths IH]; [destruct Hin|].
  intros st. cbn [run_sources]. destruct Hin as [->|Hin].
  - rewrite (process_source_absent v w st p ds H1 H2). exists VariableNotFound. reflexivity.
  - destruct (process_source v w st q) as [st1|e]; cbn [bind].
    + apply IH. exact Hin.
    + exists e. reflexivity.
Qed.

Lemma main_error args w e : collect args w = Err e -> main args w = (Err e, w).
Proof. intros H. unfold main. rewrite H. reflexivity. Qed.

(** C8, as amended: a run in which some input dataset lacks the variable
    fails and leaves the world as it was, no file written.  It fails with
    VariableNotFound when the bounding box parses and the sources before
    the first such dataset are processed without error, whatever sources
    follow; an error before that point is the one the run fails with.  In
    general a run that fails writes nothing. *)
Theorem missing_variable_aborts (args : Args) (w : World) :
  (exists p ds, In p (Str.split "," (input args)) /\
                store w !! p = Some ds /\ ds !! var args = None) ->
  (exists e, main args w = (Err e, w)) /\
  (forall a b c d before p ds rest st,
     parse_bbox (bbox args) = Ok [a; b; c; d] ->
     Str.split "," (input args) = before ++ p :: rest ->
     run_sources (var args) w (initial_state a b c d) before = Ok st ->
     store w !! p = Some ds -> ds !! var args = None ->
     main args w = (Err VariableNotFound, w)) /\
  (forall e, fst (main args w) = Err e -> snd (main args w) = w).
Proof.
  intros (p & ds & Hin & H1 & H2). split; [|split].
  - unfold main, collect.
    destruct (parse_bbox (bbox args)) as [box|e]; cbn [bind]; [|exists e; reflexivity].
    destruct box as [|a [|b [|c [|d [|? ?]]]]];
      try (exists InvalidArgument; reflexivity).
    destruct (run_sources_absent (var args) w p ds _ Hin H1 H2
                {| lon_min := a; lat_min := b; lon_max := c; lat_max := d; series := [] |})
      as (e & ->).
    exists e. reflexivity.
  - intros a b c d before q dq rest st Hb Hs Hr Hq1 Hq2.
    apply main_error. unfold collect. rewrite Hb. cbn [bind]. rewrite Hs.
    fold (initial_state a b c d). rewrite run_sources_app, Hr. cbn [bind run_sources].
    rewrite (process_source_absent _ _ _ _ _ Hq1 Hq2). reflexivity.
  - intros e. unfold main. destruct (collect args w); [|reflexivity].
    destruct (writable w _); [discriminate|reflexivity].
Qed.

Lemma missing_variable_aborts_witness :
  main missing_variable_args missing_variable = (Err VariableNotFound, missing_variable) /\
  files (snd (main missing_variable_args missing_variable)) !! "out/series.json" = None.
Proof.
  assert (P : exists p ds, In p (Str.split "," (input missing_variable_args)) /\
                           store missing_variable !! p = Some ds /\
                           ds !! var missing_variable_args = None).
  { exists "edgar_2020_ch4.nc", {["ch4" := grid_180]}.
    split; [right; left; reflexivity|]. split; reflexivity. }
  destruct (missing_variable_aborts missing_variable_args missing_variable P) as (_ & H & _).
  assert (R : exists st,
             run_sources "v" missing_variable
               (initial_state (of_Z (-10)) (of_Z 0) (of_Z 10) (of_Z 0))
               ["edgar_2019_co2.nc"] = Ok st).
  { eexists. vm_compute. reflexivity. }
  destruct R as (st & Hr).
  assert (M : main missing_variable_args missing_variable
              = (Err VariableNotFound, missing_variable)).
  { apply (H (of_Z (-10)) (of_Z 0) (of_Z 10) (of_Z 0) ["edgar_2019_co2.nc"]
             "edgar_2020_ch4.nc" {["ch4" := grid_180]} ["edgar_2021_co2.nc"] st).
    - vm_compute. reflexivity.
    - reflexivity.
    - exact Hr.
    - reflexivity.
    - reflexivity. }
  split; [exact M|]. rewrite M. reflexivity.
Defined.

(** C8 as stated fails: a dataset lacks the variable, and the run fails
    with MissingYear, at the source before it. *)
Lemma missing_variable_not_reached :
  main missing_year_first_args missing_year_first = (Err MissingYear, missing_year_first) /\
  exists ds,
    store missing_year_first !! "edgar_2020_ch4.nc" = Some ds /\
    ds !! var missing_year_first_args = None /\
    In "edgar_2020_ch4.nc" (Str.split "," (input missing_year_first_args)).
Proof.
  split; [vm_compute; reflexivity|].
  exists {["ch4" := grid_180]}. split; [reflexivity|]. split; [reflexivity|].
  right; left; reflexivity.
Qed.

(** * Further properties of the script *)

(** ** Rows and sources of a run *)

Lemma sel_time_coord data a b c d sliced :
  sel data a b c d = Ok sliced -> time sliced = time data.
Proof.
  unfold sel. destruct (lon data) as [lons|]; [|discriminate].
  destruct (lat data) as [lats|]; [|discriminate].
  destruct (get_slice_bound lons a Left); [|discriminate]. cbn [bind].
  destruct (get_slice_bound lons b Right); [|discriminate]. cbn [bind].
  destruct (get_slice_bound lats c Left); [|discriminate]. cbn [bind].
  destruct (get_slice_bound lats d Right); [|discriminate]. cbn [bind].
  intros [= <-]. reflexivity.
Qed.

Lemma label_times_length summed times : forall todo acc r,
  label_times summed times todo acc = Ok r ->
  length r = (length acc + length todo)%nat.
Proof.
  induction todo as [|tv rest IH]; intros acc r H.
  - cbn in H. injection H as <-. cbn. lia.
  - cbn [label_times] in H.
    destruct (to_float (sel_time summed times tv)) as [val|]; [|discriminate].
    cbn [bind] in H. apply IH in H. rewrite H, length_app. cbn. lia.
Qed.

Lemma reduce_and_label_length data st p s :
  reduce_and_label data st p = Ok s ->
  length s = (length (series st) +
              match time data with Some times => length times | None => 1 end)%nat.
Proof.
  unfold reduce_and_label.
  destruct (sel data (lon_min st) (lon_max st) (lat_min st) (lat_max st))
    as [sliced|] eqn:Es; [|discriminate]. cbn [bind].
  cbn [sum_lat_lon r_time r_values]. rewrite (sel_time_coord _ _ _ _ _ _ Es).
  destruct (time data) as [times|].
  - apply label_times_length.
  - destruct (extract_year_from_filename (Str.path_name p)) as [year|]; [|discriminate].
    destruct (String.eqb year ""); [discriminate|].
    destruct (to_float _); [|discriminate]. cbn [bind].
    intros [= <-]. rewrite length_app. reflexivity.
Qed.

Lemma process_source_rows v w st p st' :
  process_source v w st p = Ok st' ->
  has_variable v w p /\
  length (series st') = (length (series st) + rows_of v w p)%nat.
Proof.
  intros H. destruct (process_source_inv _ _ _ _ _ H)
    as (ds & data & stn & E1 & E2 & En & Er & _).
  split; [exists ds, data; auto|].
  unfold rows_of. rewrite E1, E2.
  rewrite (reduce_and_label_length _ _ _ _ Er).
  destruct (normalize_frame _ _ _ En) as (_ & _ & ->). reflexivity.
Qed.

Lemma run_sources_rows v w paths : forall st st',
  run_sources v w st paths = Ok st' ->
  Forall (has_variable v w) paths /\
  length (series st') = (length (series st) + list_sum (map (rows_of v w) paths))%nat.
Proof.
  induction paths as [|p paths IH]; intros st st' H.
  - cbn in H. injection H as <-. split; [constructor|]. cbn. lia.
  - cbn [run_sources] in H.
    destruct (process_source v w st p) as [st1|] eqn:E; [|discriminate]. cbn [bind] in H.
    destruct (process_source_rows _ _ _ _ _ E) as [Hv Hr].
    destruct (IH _ _ H) as [Hf Hl]. split; [constructor; assumption|].
    cbn [map].
    change (list_sum (rows_of v w p :: map (rows_of v w) paths))
      with (rows_of v w p + list_sum (map (rows_of v w) paths))%nat.
    lia.
Qed.

Lemma split_length sep s : length (Str.split sep s) = S (occurrences sep s).
Proof.
  induction s as [|c s IH]; [reflexivity|]. cbn [Str.split occurrences].
  destruct (Ascii.eqb c sep).
  - cbn [length]. rewrite IH. reflexivity.
  - destruct (Str.split sep s) as [|h t]; [discriminate|]. cbn [length] in *. exact IH.
Qed.

Lemma collect_inv args w out :
  collect args w = Ok out ->
  exists a b c d st,
    parse_bbox (bbox args) = Ok [a; b; c; d] /\
    run_sources (var args) w (initial_state a b c d) (Str.split "," (input args)) = Ok st /\
    out = sorted (series st).
Proof.
  unfold collect. intros H.
  destruct (parse_bbox (bbox args)) as [box|] eqn:Eb; [|discriminate]. cbn [bind] in H.
  destruct box as [|a [|b [|c [|d [|? ?]]]]]; try discriminate.
  fold (initial_state a b c d) in H.
  destruct (run_sources (var args) w (initial_state a b c d) (Str.split "," (input args)))
    as [st|] eqn:Er; [|discriminate].
  cbn [bind] in H. injection H as <-.
  exists a, b, c, d, st. auto.
Qed.

(** *** The normal form of a path *)

Lemma split_cons sep c s :
  Str.split sep (String c s) =
  if Ascii.eqb c sep then EmptyString :: Str.split sep s
  else match Str.split sep s with
       | h :: t => String c h :: t
       | [] => [String c EmptyString]
       end.
Proof. reflexivity. Qed.

Lemma split_not_nil sep s : Str.split sep s <> [].
Proof.
  induction s as [|c s IH]; [discriminate|]. rewrite split_cons.
  destruct (Ascii.eqb c sep); [discriminate|].
  destruct (Str.split sep s); [contradiction|discriminate].
Qed.


Lemma split_no_sep sep s : occurrences sep s = 0%nat -> Str.split sep s = [s].
Proof.
  induction s as [|c s IH]; [reflexivity|]. cbn [occurrences]. intros H.
  rewrite split_cons. destruct (Ascii.eqb c sep); [discriminate|]. rewrite (IH H). reflexivity.
Qed.












(** The normal forms of some paths, as [str(Path(p))] gives them. *)
Lemma path_str_examples :
  map Str.path_str
    ["./out//x.json"; ""; "/"; "//"; "///"; "//a"; "///a//b/"; "a/.."; "a/./b"; "./";
     "../x"; "a/b/"; "/a/../b"; "."; "./."; "x/."; "a//"; "//a/./b//"; " "; "a/ /b"]%string =
    ["out/x.json"; "."; "/"; "//"; "/"; "//a"; "/a/b"; "a/.."; "a/b"; ".";
     "../x"; "a/b"; "/a/../b"; "."; "."; "x"; "a"; "//a/b"; " "; "a/ /b"]%string.
Proof. vm_compute. reflexivity. Qed.


(** *** What a run writes *)

Lemma main_inv args w w' :
  main args w = (Ok tt, w') ->
  exists out,
    collect args w = Ok out /\
    writable w (Str.path_str (output args)) = true /\
    w' = {| store := overwritten (Str.path_str (output args)) (store w);
            writable := writable w;
            files := <[Str.path_str (output args) := out]> (files w);
            stdout := stdout w ++
              [("Wrote " ++ Str.decimal (Z.of_nat (length out)) ++ " rows to "
                ++ Str.path_str (output args))%string] |}.
Proof.
  unfold main. destruct (collect args w) as [out|]; [|discriminate].
  destruct (writable w _) eqn:Hw; [|discriminate].
  intros [= <-]. exists out. auto.
Qed.





(** X2: a run that succeeds has parsed the bounding box and has found the
    variable in the dataset at every piece of the input string between two
    commas, one more piece than there are commas. *)
Theorem successful_run_sources (args : Args) (w w' : World) :
  main args w = (Ok tt, w') ->
  length (Str.split "," (input args)) = S (occurrences "," (input args)) /\
  Forall (has_variable (var args) w) (Str.split "," (input args)) /\
  exists a b c d, parse_bbox (bbox args) = Ok [a; b; c; d].
Proof.
  intros H. destruct (main_inv _ _ _ H) as (out & Hc & _ & _).
  destruct (collect_inv _ _ _ Hc) as (a & b & c & d & st & Hb & Hr & _).
  split; [apply split_length|].
  split; [exact (proj1 (run_sources_rows _ _ _ _ _ Hr))|].
  exists a, b, c, d. exact Hb.
Qed.

Lemma successful_run_sources_witness :
  length (Str.split "," (input two_years_args)) = 2%nat /\
  Forall (has_variable (var two_years_args) two_years)
         (Str.split "," (input two_years_args)) /\
  exists a b c d, parse_bbox (bbox two_years_args) = Ok [a; b; c; d].
Proof.
  assert (H : exists w', main two_years_args two_years = (Ok tt, w')).
  { eexists. vm_compute. reflexivity. }
  destruct H as [w' H]. exact (successful_run_sources _ _ _ H).
Defined.

(** ** The order of the output *)

Lemma string_leb_trans a : forall b c,
  String.leb a b = true -> String.leb b c = true -> String.leb a c = true.
Proof.
  unfold String.leb.
  induction a as [|x a IH]; intros [|y b] [|z c]; cbn [String.compare]; try easy.
  unfold Ascii.compare.
  destruct (N.compare_spec (N_of_ascii x) (N_of_ascii y));
    destruct (N.compare_spec (N_of_ascii y) (N_of_ascii z));
    destruct (N.compare_spec (N_of_ascii x) (N_of_ascii z));
    try lia; try easy.
  apply IH.
Qed.

Lemma sorted_id l : Sorted date_le l -> sorted l = l.
Proof.
  induction 1 as [|x l Hs IH Hd]; [reflexivity|].
  cbn [sorted]. rewrite IH. destruct Hd as [|y l' Hxy]; [reflexivity|].
  cbn [insert_point]. unfold date_le in Hxy. rewrite Hxy. reflexivity.
Qed.

Lemma insert_point_comm x y l :
  date x <> date y ->
  insert_point x (insert_point y l) = insert_point y (insert_point x l).
Proof.
  intros Hne.
  assert (Hxy : String.leb (date x) (date y) = negb (String.leb (date y) (date x))).
  { destruct (String.leb (date x) (date y)) eqn:E1, (String.leb (date y) (date x)) eqn:E2;
      try reflexivity.
    - exfalso. apply Hne. apply String.leb_antisym; assumption.
    - destruct (String.leb_total (date x) (date y)); congruence. }
  induction l as [|z l IH].
  - cbn [insert_point]. rewrite Hxy. destruct (String.leb (date y) (date x)); reflexivity.
  - cbn [insert_point].
    destruct (String.leb (date y) (date z)) eqn:Eyz, (String.leb (date x) (date z)) eqn:Exz;
      cbn [insert_point]; rewrite ?Eyz, ?Exz.
    + rewrite Hxy. destruct (String.leb (date y) (date x)); cbn [negb];
        cbn [insert_point]; rewrite ?Eyz, ?Exz; reflexivity.
    + destruct (String.leb (date x) (date y)) eqn:E.
      * rewrite (string_leb_trans _ _ _ E Eyz) in Exz. discriminate.
      * reflexivity.
    + destruct (String.leb (date y) (date x)) eqn:E.
      * rewrite (string_leb_trans _ _ _ E Exz) in Eyz. discriminate.
      * reflexivity.
    + rewrite IH. reflexivity.
Qed.

Lemma sorted_perm_eq l1 l2 :
  Permutation l1 l2 -> List.NoDup (map date l1) -> sorted l1 = sorted l2.
Proof.
  induction 1 as [|x l l' Hp IH|x y l|l l' l'' H1 IH1 H2 IH2]; intros Hn.
  - reflexivity.
  - cbn [sorted]. rewrite IH; [reflexivity|]. cbn in Hn. inversion Hn; assumption.
  - cbn [sorted]. apply insert_point_comm.
    cbn in Hn. inversion Hn as [|? ? Hin _]. subst. intros E. apply Hin. left. auto.
  - rewrite IH1 by assumption. apply IH2.
    eapply Permutation_NoDup; [|exact Hn]. apply Permutation_map. exact H1.
Qed.

(** ** Sources that leave the bounds alone *)

Lemma process_source_series v w st p :
  process_source v w st p =
  (do st' <- process_source v w (with_series st []) p;
   Ok (with_series st' (series st ++ series st'))).
Proof.
  unfold process_source.
  destruct (open_dataset w p) as [ds|]; [|reflexivity]. cbn [bind].
  destruct (ds !! v) as [data|]; [|reflexivity].
  rewrite normalize_with_series.
  destruct (normalize data st) as [stn|] eqn:En; [|reflexivity]. cbn [bind].
  rewrite (reduce_and_label_series data stn).
  destruct (reduce_and_label data (with_series stn []) p) as [pts|]; [|reflexivity].
  cbn [bind with_series series lon_min lon_max lat_min lat_max app].
  destruct (normalize_frame data st stn En) as (_ & _ & E). rewrite E. reflexivity.
Qed.

Lemma process_source_conventional v w st p st' :
  conventional v w p -> process_source v w st p = Ok st' ->
  st' = with_series st (series st').
Proof.
  intros Hc H. destruct (process_source_inv _ _ _ _ _ H)
    as (ds & data & stn & E1 & E2 & En & _ & B1 & B2 & B3 & B4).
  destruct (normalize_cases _ _ _ En) as [[U _]|[_ ->]].
  - rewrite (Hc _ _ E1 E2) in U. discriminate.
  - destruct st', st. unfold with_series. cbn in *. congruence.
Qed.

Lemma with_series_twice st s s' : with_series (with_series st s) s' = with_series st s'.
Proof. reflexivity. Qed.

Lemma run_sources_conventional v w paths : forall st,
  Forall (conventional v w) paths ->
  run_sources v w st paths =
  (do chunks <- map_result (source_points v w (with_series st [])) paths;
   Ok (with_series st (series st ++ concat chunks))).
Proof.
  induction paths as [|p paths IH]; intros st Hf.
  - cbn. rewrite app_nil_r. destruct st; reflexivity.
  - inversion Hf as [|? ? Hp Hps]; subst.
    cbn [run_sources map_result]. unfold source_points at 1.
    rewrite with_series_twice.
    rewrite (process_source_series v w st p).
    destruct (process_source v w (with_series st []) p) as [st1|] eqn:E; [|reflexivity].
    cbn [bind]. rewrite (process_source_conventional _ _ _ _ _ Hp E).
    rewrite (IH _ Hps). rewrite !with_series_twice.
    destruct (map_result (source_points v w (with_series st [])) paths) as [chunks|];
      [|reflexivity].
    cbn [bind concat with_series series lon_min lon_max lat_min lat_max].
    rewrite <- app_assoc. reflexivity.
Qed.

Lemma map_result_perm {A B : Type} (f : A -> result B) l l' :
  Permutation l l' -> forall ys, map_result f l = Ok ys ->
  exists ys', map_result f l' = Ok ys' /\ Permutation ys ys'.
Proof.
  induction 1 as [|x l l' Hp IH|x y l|l l' l'' H1 IH1 H2 IH2]; intros ys H.
  - exists ys. auto.
  - cbn [map_result] in *. destruct (f x) as [b|]; [|discriminate]. cbn [bind] in *.
    destruct (map_result f l) as [bs|]; [|discriminate]. cbn [bind] in H. injection H as <-.
    destruct (IH _ eq_refl) as (bs' & -> & Hb). exists (b :: bs'). cbn [bind]. auto.
  - cbn [map_result] in *.
    destruct (f y) as [b|]; [|discriminate]. cbn [bind] in *.
    destruct (f x) as [a|]; [|discriminate]. cbn [bind] in *.
    destruct (map_result f l) as [bs|]; [|discriminate]. cbn [bind] in *.
    injection H as <-. exists (a :: b :: bs). split; [reflexivity|apply perm_swap].
  - destruct (IH1 _ H) as (ys1 & E1 & P1). destruct (IH2 _ E1) as (ys2 & E2 & P2).
    exists ys2. split; [exact E2|]. eapply perm_trans; eassumption.
Qed.

Lemma concat_perm {A : Type} (l l' : list (list A)) :
  Permutation l l' -> Permutation (concat l) (concat l').
Proof.
  induction 1 as [|x l l' Hp IH|x y l|l l' l'' H1 IH1 H2 IH2]; cbn [concat].
  - constructor.
  - apply Permutation_app_head. exact IH.
  - rewrite !app_assoc. apply Permutation_app_tail. apply Permutation_app_comm.
  - eapply perm_trans; eassumption.
Qed.

(** X3: when no grid is on the 0 to 360 convention and the periods of
    the output are all different, the output does not depend on the order
    in which the input paths are given. *)
Theorem input_order_irrelevant (args args' : Args) (w : World) (out : list SeriesPoint) :
  bbox args' = bbox args -> var args' = var args ->
  Permutation (Str.split "," (input args)) (Str.split "," (input args')) ->
  Forall (conventional (var args) w) (Str.split "," (input args)) ->
  collect args w = Ok out ->
  List.NoDup (map date out) ->
  collect args' w = Ok out.
Proof.
  intros Hb Hv Hp Hf Hc Hn.
  destruct (collect_inv _ _ _ Hc) as (a & b & c & d & st & Eb & Er & ->).
  rewrite (run_sources_conventional _ _ _ _ Hf) in Er.
  destruct (map_result _ (Str.split "," (input args))) as [chunks|] eqn:Em; [|discriminate].
  cbn [bind] in Er. injection Er as <-.
  cbn [with_series series initial_state app] in *.
  destruct (map_result_perm _ _ _ Hp _ Em) as (chunks' & Em' & Pc).
  unfold collect. rewrite Hb, Eb. cbn [bind]. fold (initial_state a b c d).
  rewrite Hv. rewrite run_sources_conventional.
  - rewrite Em'. cbn [bind with_series series initial_state app]. f_equal.
    symmetry. apply sorted_perm_eq; [apply concat_perm; exact Pc|].
    eapply Permutation_NoDup; [|exact Hn].
    apply Permutation_map. symmetry. apply sorted_perm.
  - rewrite List.Forall_forall in *. intros p Hin. apply Hf.
    eapply Permutation_in; [symmetry; exact Hp|exact Hin].
Qed.

(** X4: when the points of the sources, taken in the order the sources
    are processed, are already in ascending order of period, the output is
    these points as they stand. *)
Theorem ordered_inputs_kept (args : Args) (w : World) (out : list SeriesPoint)
    (a b c d : float) (chunks : list (list SeriesPoint)) :
  collect args w = Ok out ->
  parse_bbox (bbox args) = Ok [a; b; c; d] ->
  points_by_source (var args) w (initial_state a b c d) (Str.split "," (input args))
    = Ok chunks ->
  Sorted date_le (concat chunks) ->
  out = concat chunks.
Proof.
  intros Hc Eb Hp Hs.
  destruct (collect_inv _ _ _ Hc) as (a' & b' & c' & d' & st & Eb' & Er & ->).
  rewrite Eb in Eb'. injection Eb' as <- <- <- <-.
  destruct (run_sources_points _ _ _ _ _ Er) as (chunks' & Hc' & _ & Hse).
  rewrite Hp in Hc'. injection Hc' as <-.
  cbn [initial_state series app] in Hse. rewrite Hse. apply sorted_id. exact Hs.
Qed.

Lemma two_years_conventional :
  Forall (conventional "v" two_years) ["edgar_2021_co2.nc"; "edgar_2019_co2.nc"]%string.
Proof.
  repeat constructor; intros ds data H1 H2;
    vm_compute in H1; injection H1 as <-; vm_compute in H2; injection H2 as <-;
    vm_compute; reflexivity.
Qed.

Lemma input_order_irrelevant_witness :
  exists out,
    collect two_years_args two_years = Ok out /\
    collect two_years_ordered_args two_years = Ok out.
Proof.
  eexists. split; [vm_compute; reflexivity|].
  apply (input_order_irrelevant two_years_args two_years_ordered_args).
  - reflexivity.
  - reflexivity.
  - apply perm_swap.
  - exact two_years_conventional.
  - vm_compute. reflexivity.
  - repeat constructor; cbn; intuition discriminate.
Defined.

Lemma ordered_inputs_kept_witness :
  exists out chunks,
    collect two_years_ordered_args two_years = Ok out /\
    map (map date) chunks = [["2019"]; ["2021"]]%string /\
    out = concat chunks.
Proof.
  eexists. eexists. split; [vm_compute; reflexivity|]. split; [|
  eapply (ordered_inputs_kept two_years_ordered_args two_years);
    [vm_compute; reflexivity|vm_compute; reflexivity|vm_compute; reflexivity|
     repeat constructor]].
  reflexivity.
Defined.

(** ** Errors *)

Lemma float_rem_f360_ok x : exists r, float_rem x f360 = Ok r.
Proof. rewrite float_rem_of_fmod. eexists. reflexivity. Qed.

Lemma normalize_err data st e :
  normalize data st = Err e -> lon data = Some [] /\ e = LibraryError.
Proof.
  unfold normalize. destruct (lon data) as [l|]; [|discriminate].
  destruct l as [|x l]; [cbn; intros [= <-]; auto|].
  unfold nanmax. destruct (List.filter _ (x :: l)); cbn [bind];
    (destruct (ltb f180 _); [|discriminate]);
    destruct (float_rem_f360_ok (lon_min st)) as [lo ->];
    destruct (float_rem_f360_ok (lon_max st)) as [hi ->]; discriminate.
Qed.

Lemma get_slice_bound_err idx v sd e :
  get_slice_bound idx v sd = Err e -> e = LibraryError.
Proof.
  unfold get_slice_bound, searchsorted_monotonic.
  destruct (positions idx v) as [|p ps].
  - destruct (is_monotonic_increasing idx); [discriminate|].
    destruct (is_monotonic_decreasing idx); [discriminate|]. intros [= <-]. reflexivity.
  - destruct (contiguous p ps); [discriminate|]. intros [= <-]. reflexivity.
Qed.

Lemma sel_err data a b c d e : sel data a b c d = Err e -> e = LibraryError.
Proof.
  unfold sel. destruct (lon data) as [lons|]; [|intros [= <-]; reflexivity].
  destruct (lat data) as [lats|]; [|intros [= <-]; reflexivity].
  destruct (get_slice_bound lons a Left) eqn:E1;
    [|cbn; intros [= <-]; eapply get_slice_bound_err; eassumption].
  destruct (get_slice_bound lons b Right) eqn:E2;
    [|cbn; intros [= <-]; eapply get_slice_bound_err; eassumption].
  destruct (get_slice_bound lats c Left) eqn:E3;
    [|cbn; intros [= <-]; eapply get_slice_bound_err; eassumption].
  destruct (get_slice_bound lats d Right) eqn:E4;
    [|cbn; intros [= <-]; eapply get_slice_bound_err; eassumption].
  discriminate.
Qed.

Lemma to_float_err vals e : to_float vals = Err e -> e = LibraryError.
Proof. destruct vals as [|v [|? ?]]; cbn; congruence. Qed.

Lemma label_times_err summed times : forall todo acc e,
  label_times summed times todo acc = Err e -> e = LibraryError.
Proof.
  induction todo as [|tv rest IH]; intros acc e; [discriminate|].
  cbn [label_times]. destruct (to_float (sel_time summed times tv)) eqn:E; cbn [bind].
  - apply IH.
  - intros [= <-]. eapply to_float_err. eassumption.
Qed.

Lemma extract_year_not_empty name year :
  extract_year_from_filename name = Some year -> String.eqb year "" = false.
Proof.
  unfold extract_year_from_filename. intros H. apply find_some in H. destruct H as [_ H].
  apply andb_true_iff in H. destruct H as [H _]. destruct year; [discriminate|reflexivity].
Qed.

Lemma reduce_and_label_err data st p e :
  reduce_and_label data st p = Err e ->
  e = LibraryError \/
  (e = MissingYear /\ time data = None /\
   extract_year_from_filename (Str.path_name p) = None).
Proof.
  unfold reduce_and_label.
  destruct (sel data (lon_min st) (lon_max st) (lat_min st) (lat_max st))
    as [sliced|] eqn:Es; cbn [bind]; [|intros [= <-]; left; eapply sel_err; eassumption].
  cbn [sum_lat_lon r_time r_values]. rewrite (sel_time_coord _ _ _ _ _ _ Es).
  destruct (time data) as [times|].
  - intros H. left. eapply label_times_err. eassumption.
  - destruct (extract_year_from_filename (Str.path_name p)) as [year|] eqn:Ey.
    + rewrite (extract_year_not_empty _ _ Ey).
      destruct (to_float _) eqn:Et; cbn [bind]; [discriminate|].
      intros [= <-]. left. eapply to_float_err. eassumption.
    + intros [= <-]. right. auto.
Qed.

Lemma process_source_err v w st p e :
  process_source v w st p = Err e -> cause v w p e.
Proof.
  unfold process_source, open_dataset.
  destruct (store w !! p) as [ds|] eqn:E1; cbn [bind]; [|intros [= <-]; exact I].
  destruct (ds !! v) as [data|] eqn:E2; [|intros [= <-]; exists ds; auto].
  destruct (normalize data st) as [stn|] eqn:En; cbn [bind].
  - destruct (reduce_and_label data stn p) as [s|] eqn:Er; cbn [bind]; [discriminate|].
    intros [= <-]. destruct (reduce_and_label_err _ _ _ _ Er) as [->|(-> & Ht & Hy)];
      [exact I|]. exists ds, data. auto.
  - intros [= <-]. destruct (normalize_err _ _ _ En) as [_ ->]. exact I.
Qed.

Lemma run_sources_err v w paths : forall st e,
  run_sources v w st paths = Err e -> exists p, In p paths /\ cause v w p e.
Proof.
  induction paths as [|p paths IH]; intros st e H; [discriminate|].
  cbn [run_sources] in H. destruct (process_source v w st p) as [st1|] eqn:E; cbn [bind] in H.
  - destruct (IH _ _ H) as (q & Hq & Hc). exists q. split; [right; exact Hq|exact Hc].
  - injection H as <-. exists p. split; [left; reflexivity|].
    eapply process_source_err. eassumption.
Qed.

Lemma parse_bbox_err value e : parse_bbox value = Err e -> e = InvalidArgument.
Proof.
  unfold parse_bbox. pose proof (map_result_py_float (Str.split "," value)) as H.
  destruct (map_result py_float (Str.split "," value)) as [parts|e']; cbn [bind].
  - destruct (negb _); [intros [= <-]; reflexivity|discriminate].
  - intros [= <-]. exact H.
Qed.

Lemma parse_bbox_four value parts :
  parse_bbox value = Ok parts -> length parts = 4%nat.
Proof.
  unfold parse_bbox. destruct (map_result py_float (Str.split "," value)) as [l|];
    cbn [bind]; [|discriminate].
  destruct (length l =? 4)%nat eqn:E; cbn [negb]; [|discriminate].
  intros [= <-]. apply Nat.eqb_eq. exact E.
Qed.

(** X5: a run fails with InvalidArgument only when the bounding box does
    not parse, with VariableNotFound only when a dataset on the command
    line lacks the variable, with MissingYear only when a source without
    time coordinate has no year in its file name, and never with
    ZeroDivisionError. *)
Theorem error_causes (args : Args) (w : World) (e : error) :
  fst (main args w) = Err e ->
  match e with
  | InvalidArgument => parse_bbox (bbox args) = Err InvalidArgument
  | ZeroDivisionError => False
  | _ => exists p, In p (Str.split "," (input args)) /\ cause (var args) w p e
  end.
Proof.
  unfold main. destruct (collect args w) as [out|e'] eqn:Ec; cbn [fst].
  { destruct (writable w _); cbn [fst]; [discriminate|]. intros [= <-].
    pose proof (split_not_nil "," (input args)) as Hn.
    destruct (Str.split "," (input args)) as [|p ps]; [contradiction|].
    exists p. split; [left; reflexivity|exact I]. }
  intros [= ->]. unfold collect in Ec.
  destruct (parse_bbox (bbox args)) as [box|e'] eqn:Eb; cbn [bind] in Ec.
  - pose proof (parse_bbox_four _ _ Eb) as Hl.
    destruct box as [|a [|b [|c [|d [|? ?]]]]]; try discriminate Hl.
    destruct (run_sources (var args) w _ (Str.split "," (input args))) as [st|e'] eqn:Er;
      cbn [bind] in Ec; [discriminate|].
    injection Ec as ->. destruct (run_sources_err _ _ _ _ _ Er) as (p & Hp & Hc).
    destruct e; try (exists p; split; assumption); destruct Hc.
  - injection Ec as ->. rewrite (parse_bbox_err _ _ Eb). reflexivity.
Qed.

Lemma error_causes_witness :
  exists p, In p (Str.split "," (input missing_year_first_args)) /\
            cause (var missing_year_first_args) missing_year_first p MissingYear.
Proof.
  apply (error_causes missing_year_first_args missing_year_first MissingYear).
  vm_compute. reflexivity.
Defined.

(** ** The convention test *)

Lemma ltb_trans a b c :
  is_nan a = false -> is_nan b = false -> is_nan c = false ->
  ltb a b = true -> ltb b c = true -> ltb a c = true.
Proof.
  intros Na Nb Nc H1 H2. apply ltb_rank in H1; [|assumption..].
  apply ltb_rank in H2; [|assumption..]. apply ltb_rank; [assumption..|].
  eapply lex_lt_trans; eassumption.
Qed.

Lemma ltb_not_ltb_trans a b c :
  is_nan a = false -> is_nan b = false -> is_nan c = false ->
  ltb a b = true -> ltb c b = false -> ltb a c = true.
Proof.
  intros Na Nb Nc H1 H2. apply ltb_rank in H1; [|assumption..]. apply ltb_rank; [assumption..|].
  destruct (lex_total (rank c) (rank b)) as [H|[H|H]].
  - apply ltb_rank in H; [congruence|assumption..].
  - rewrite H. exact H1.
  - eapply lex_lt_trans; eassumption.
Qed.

Lemma not_ltb_ltb_trans a b c :
  is_nan a = false -> is_nan b = false -> is_nan c = false ->
  ltb b a = false -> ltb b c = true -> ltb a c = true.
Proof.
  intros Na Nb Nc H1 H2. apply ltb_rank in H2; [|assumption..]. apply ltb_rank; [assumption..|].
  destruct (lex_total (rank b) (rank a)) as [H|[H|H]].
  - apply ltb_rank in H; [congruence|assumption..].
  - rewrite <- H. exact H2.
  - eapply lex_lt_trans; eassumption.
Qed.

Lemma ltb_nan_r a : ltb a nan = false.
Proof. destruct a as [[]|[]| |[] ? ?]; reflexivity. Qed.

Lemma fmax_not_nan a b : is_nan a = false -> is_nan b = false -> is_nan (fmax a b) = false.
Proof. unfold fmax. destruct (ltb a b); auto. Qed.

Lemma ltb_fmax c a b :
  is_nan c = false -> is_nan a = false -> is_nan b = false ->
  ltb c (fmax a b) = ltb c a || ltb c b.
Proof.
  intros Nc Na Nb. unfold fmax. destruct (ltb a b) eqn:E.
  - destruct (ltb c a) eqn:E1; [|reflexivity]. cbn. exact (ltb_trans c a b Nc Na Nb E1 E).
  - destruct (ltb c b) eqn:E2; [|rewrite orb_false_r; reflexivity].
    rewrite orb_true_r. exact (ltb_not_ltb_trans c b a Nc Nb Na E2 E).
Qed.

Lemma ltb_fold_fmax c : forall xs x,
  is_nan c = false -> is_nan x = false -> no_nan xs = true ->
  ltb c (fold_left fmax xs x) = existsb (ltb c) (x :: xs).
Proof.
  induction xs as [|y xs IH]; intros x Nc Nx Nn.
  - cbn. rewrite orb_false_r. reflexivity.
  - cbn in Nn. apply andb_true_iff in Nn. destruct Nn as [Ny Nn].
    apply negb_true_iff in Ny.
    cbn [fold_left]. rewrite IH; [|assumption|apply fmax_not_nan; assumption|assumption].
    cbn [existsb]. rewrite ltb_fmax by assumption. rewrite orb_assoc. reflexivity.
Qed.

Lemma existsb_filter_nan c l :
  existsb (ltb c) (List.filter (fun v => negb (is_nan v)) l) = existsb (ltb c) l.
Proof.
  induction l as [|x l IH]; [reflexivity|]. cbn [List.filter existsb].
  destruct (is_nan x) eqn:E; cbn [negb existsb]; rewrite IH; [|reflexivity].
  destruct x; try discriminate. rewrite ltb_nan_r. reflexivity.
Qed.

Lemma filter_no_nan l : no_nan (List.filter (fun v => negb (is_nan v)) l) = true.
Proof.
  induction l as [|x l IH]; [reflexivity|]. cbn [List.filter].
  destruct (is_nan x) eqn:E; cbn [negb]; [exact IH|]. cbn. rewrite E. exact IH.
Qed.

Lemma uses_0_360_labels data :
  uses_0_360 data =
  match lon data with
  | Some labels => existsb (ltb f180) labels
  | None => false
  end.
Proof.
  unfold uses_0_360. destruct (lon data) as [l|]; [|reflexivity].
  rewrite <- (existsb_filter_nan f180 l). unfold nanmax.
  destruct l as [|x0 l0]; [reflexivity|].
  pose proof (filter_no_nan (x0 :: l0)) as Hn.
  destruct (List.filter (fun v => negb (is_nan v)) (x0 :: l0)) as [|x xs]; [reflexivity|].
  cbn in Hn. apply andb_true_iff in Hn. destruct Hn as [Nx Nn]. apply negb_true_iff in Nx.
  apply ltb_fold_fmax; [reflexivity|assumption|assumption].
Qed.

(** X6: the longitude bounds are remapped exactly when some label of the
    longitude coordinate is above 180, labels that are NaN left aside; an
    empty longitude coordinate is an error, and a variable without
    longitude coordinate leaves the bounds as they are. *)
Theorem normalize_by_labels (data : DataArray) (st : State) :
  normalize data st =
  match lon data with
  | None => Ok st
  | Some [] => Err LibraryError
  | Some labels =>
      if existsb (ltb f180) labels then
        do lo <- float_rem (lon_min st) f360;
        do hi <- float_rem (lon_max st) f360;
        Ok (with_lon st lo hi)
      else Ok st
  end.
Proof.
  pose proof (uses_0_360_labels data) as U.
  destruct (lon data) as [[|x l]|] eqn:El.
  - unfold normalize. rewrite El. reflexivity.
  - destruct (existsb (ltb f180) (x :: l)).
    + apply normalize_0_360. exact U.
    + unfold normalize. unfold uses_0_360 in U. rewrite El in *.
      destruct (nanmax (x :: l)) as [m|e] eqn:En.
      * cbn [bind]. rewrite U. reflexivity.
      * unfold nanmax in En. destruct (List.filter _ _); discriminate.
  - unfold normalize. rewrite El. reflexivity.
Qed.

(** ** Missing cells *)

(** *** Sums in which no addition rounds *)

Lemma zsum_app (l1 l2 : list Z) :
  fold_right Z.add 0 (l1 ++ l2) = fold_right Z.add 0 l1 + fold_right Z.add 0 l2.
Proof. induction l1 as [|x l1 IH]; cbn [app fold_right]; lia. Qed.

Lemma zsum_nonneg (l : list Z) : Forall (fun k => 0 <= k) l -> 0 <= fold_right Z.add 0 l.
Proof. induction 1 as [|x l Hx _ IH]; cbn [fold_right]; lia. Qed.

Lemma zsum_cut (n : nat) (l : list Z) :
  Forall (fun k => 0 <= k) l ->
  Forall (fun k => 0 <= k) (firstn n l) /\ Forall (fun k => 0 <= k) (skipn n l) /\
  fold_right Z.add 0 (firstn n l) + fold_right Z.add 0 (skipn n l) = fold_right Z.add 0 l.
Proof.
  intros H. rewrite <- (firstn_skipn n l) in H at 1. apply List.Forall_app in H.
  destruct H as [H1 H2]. split; [exact H1|]. split; [exact H2|].
  rewrite <- zsum_app, firstn_skipn. reflexivity.
Qed.

Section ExactSums.
Context {A : Type} (plus : A -> A -> A) (h : Z -> A) (bound : Z).
Hypothesis plus_h :
  forall a b, 0 <= a -> 0 <= b -> a + b < bound -> plus (h a) (h b) = h (a + b).

Lemma fold_left_exact : forall (ks : list Z) (k : Z),
  Forall (fun k => 0 <= k) ks -> 0 <= k -> k + fold_right Z.add 0 ks < bound ->
  fold_left plus (map h ks) (h k) = h (k + fold_right Z.add 0 ks).
Proof.
  induction ks as [|x ks IH]; intros k Hn Hk Hb.
  - cbn [map fold_left fold_right]. rewrite Z.add_0_r. reflexivity.
  - inversion Hn as [|? ? Hx Hks]; subst. pose proof (zsum_nonneg ks Hks) as Hs.
    cbn [fold_right] in Hb. cbn [map fold_left fold_right].
    rewrite plus_h by lia. rewrite IH by (try assumption; lia). f_equal. lia.
Qed.

Lemma sum_blocks_short (r : lanes) (a : list A) :
  (length a < 8)%nat -> sum_blocks plus r a = (r, a).
Proof.
  intros H. do 8 (destruct a as [|? a]; [reflexivity|]). cbn [length] in H. lia.
Qed.

Lemma sum_blocks_exact : forall (n : nat) (ks : list Z) (r0 r1 r2 r3 r4 r5 r6 r7 : Z),
  (length ks <= n)%nat -> Forall (fun k => 0 <= k) ks ->
  0 <= r0 -> 0 <= r1 -> 0 <= r2 -> 0 <= r3 -> 0 <= r4 -> 0 <= r5 -> 0 <= r6 -> 0 <= r7 ->
  r0 + r1 + r2 + r3 + r4 + r5 + r6 + r7 + fold_right Z.add 0 ks < bound ->
  exists s0 s1 s2 s3 s4 s5 s6 s7 tail,
    sum_blocks plus (h r0, h r1, h r2, h r3, h r4, h r5, h r6, h r7) (map h ks) =
      (h s0, h s1, h s2, h s3, h s4, h s5, h s6, h s7, map h tail) /\
    (0 <= s0 /\ 0 <= s1 /\ 0 <= s2 /\ 0 <= s3 /\ 0 <= s4 /\ 0 <= s5 /\ 0 <= s6 /\ 0 <= s7) /\
    Forall (fun k => 0 <= k) tail /\
    s0 + s1 + s2 + s3 + s4 + s5 + s6 + s7 + fold_right Z.add 0 tail =
    r0 + r1 + r2 + r3 + r4 + r5 + r6 + r7 + fold_right Z.add 0 ks.
Proof.
  induction n as [|n IH]; intros ks r0 r1 r2 r3 r4 r5 r6 r7 Hl Hn H0 H1 H2 H3 H4 H5 H6 H7 Hb.
  - exists r0, r1, r2, r3, r4, r5, r6, r7, ks. destruct ks; [|cbn [length] in Hl; lia].
    split; [reflexivity|]. split; [tauto|]. split; [constructor|reflexivity].
  - destruct (Nat.lt_ge_cases (length ks) 8) as [Hs|Hs].
    { exists r0, r1, r2, r3, r4, r5, r6, r7, ks.
      split; [apply sum_blocks_short; rewrite length_map; exact Hs|].
      split; [tauto|]. split; [exact Hn|reflexivity]. }
    do 8 (destruct ks as [|? ks]; [cbn [length] in Hs; lia|]).
    repeat match goal with
           | H : Forall _ (_ :: _) |- _ => inversion H; clear H; subst
           end.
    match goal with H : Forall _ ks |- _ => pose proof (zsum_nonneg ks H) as Hz end.
    cbn [fold_right] in Hb. cbn [length] in Hl.
    cbn [map sum_blocks]. rewrite !plus_h by lia.
    edestruct (IH ks) as (s0 & s1 & s2 & s3 & s4 & s5 & s6 & s7 & tail & E & Hs' & Ht & Hsum);
      [| |idtac..|rewrite E]; try eassumption; try lia.
    exists s0, s1, s2, s3, s4, s5, s6, s7, tail.
    split; [reflexivity|]. split; [exact Hs'|]. split; [exact Ht|].
    cbn [fold_right]. lia.
Qed.

Lemma pairwise_sum_short (z : A) (fuel : nat) (a : list A) :
  (length a < 8)%nat -> pairwise_sum plus z fuel a = fold_left plus a z.
Proof.
  intros H. do 8 (destruct a as [|? a]; [destruct fuel; reflexivity|]). cbn [length] in H. lia.
Qed.

(** Natural numbers whose sum is below the bound are added without
    rounding, whatever the order of the additions. *)
Lemma pairwise_sum_exact : forall (n : nat) (ks : list Z),
  (length ks <= n)%nat -> Forall (fun k => 0 <= k) ks -> fold_right Z.add 0 ks < bound ->
  pairwise_sum plus (h 0) (length (map h ks)) (map h ks) = h (fold_right Z.add 0 ks).
Proof.
  induction n as [|n IH]; intros ks Hl Hn Hb.
  { destruct ks; [reflexivity|cbn [length] in Hl; lia]. }
  pose proof (zsum_nonneg ks Hn) as Hz.
  destruct (Nat.lt_ge_cases (length ks) 8) as [Hs|Hs].
  { rewrite pairwise_sum_short by (rewrite length_map; exact Hs).
    rewrite fold_left_exact by (try assumption; lia). reflexivity. }
  destruct (Nat.le_gt_cases (length ks) 128) as [Hm|Hm].
  - do 8 (destruct ks as [|? ks]; [cbn [length] in Hs; lia|]).
    cbn [map]. rewrite pairwise_sum_eight. cbv zeta.
    replace (length _ <=? 128)%nat with true
      by (symmetry; apply Nat.leb_le; cbn [length] in *; rewrite length_map; lia).
    repeat match goal with
           | H : Forall _ (_ :: _) |- _ => inversion H; clear H; subst
           end.
    match goal with H : Forall _ ks |- _ => pose proof (zsum_nonneg ks H) as Hz' end.
    cbn [fold_right] in Hb, Hz |- *.
    edestruct (sum_blocks_exact (length ks) ks) as
      (s0 & s1 & s2 & s3 & s4 & s5 & s6 & s7 & tail & E & Hs' & Ht & Hsum);
      [| |idtac..|rewrite E]; try eassumption; try lia.
    pose proof (zsum_nonneg tail Ht) as Hz''.
    rewrite !plus_h by lia. rewrite fold_left_exact by (try assumption; lia).
    f_equal. lia.
  - assert (Hm' : (128 < length (map h ks))%nat) by (rewrite length_map; exact Hm).
    rewrite (pairwise_sum_unfold plus (h 0) (map h ks) Hm'). cbv zeta.
    destruct (cut_lengths (map h ks) Hm') as (L1 & L2 & _).
    rewrite length_map in *.
    set (n2 := (length ks / 2 - (length ks / 2) mod 8)%nat) in *.
    rewrite firstn_map, skipn_map in *. rewrite length_map in L1, L2.
    destruct (zsum_cut n2 ks Hn) as (F1 & F2 & Hsum).
    pose proof (zsum_nonneg _ F1). pose proof (zsum_nonneg _ F2).
    rewrite !IH by (try assumption; lia).
    rewrite plus_h by lia. f_equal. exact Hsum.
Qed.

End ExactSums.

(** The sum of cells that are all zero is zero, in either type. *)
Lemma add_reduce_zeros t (l : list float) :
  Forall (fun v => v = zero) l -> add_reduce t l = zero.
Proof.
  intros H. unfold add_reduce.
  assert (E : l = map (fun _ : Z => zero) (map (fun _ => 0) l)).
  { induction H as [|v l Hv _ IH]; [reflexivity|]. cbn [map]. rewrite <- IH, Hv. reflexivity. }
  rewrite E.
  rewrite (pairwise_sum_exact (add_as t) (fun _ => zero) 1 (fun _ _ _ _ _ => ltac:(destruct t; reflexivity))
             (length l)).
  - destruct t; reflexivity.
  - rewrite length_map. reflexivity.
  - clear. induction l; constructor; [reflexivity|assumption].
  - clear. induction l; [reflexivity|]. cbn [map fold_right]. lia.
Qed.

(** *** The sum as numpy returns it *)

Section PairwiseStart.
Context {A : Type} (plus : A -> A -> A).

(** From eight elements on, the value from which a short run is added
    plays no part. *)
Lemma pairwise_sum_start : forall (f1 f2 : nat) (z1 z2 : A) (a : list A),
  (8 <= length a)%nat -> (length a <= f1)%nat -> (length a <= f2)%nat ->
  pairwise_sum plus z1 f1 a = pairwise_sum plus z2 f2 a.
Proof.
  induction f1 as [|f1 IH]; intros f2 z1 z2 a H8 H1 H2; [lia|].
  do 8 (destruct a as [|? a]; [cbn [length] in H8; lia|]).
  rewrite !pairwise_sum_eight. cbv zeta.
  destruct (length _ <=? 128)%nat eqn:E; [reflexivity|].
  apply Nat.leb_gt in E. destruct f2 as [|f2]; [lia|].
  destruct (cut_lengths _ E) as (L1 & L2 & L3 & L4).
  f_equal; apply IH; lia.
Qed.

End PairwiseStart.

(** Added to zero, a sum that started from the negative zero is the sum
    that started from zero. *)
Lemma fold_from_negative_zero t : forall (l : list float) (a b : float),
  a = b \/ (a = S754_zero true /\ b = zero) ->
  add_as t zero (fold_left (add_as t) l a) = add_as t zero (fold_left (add_as t) l b).
Proof.
  induction l as [|x l IH]; intros a b [->|[-> ->]]; try reflexivity.
  - destruct t; reflexivity.
  - cbn [fold_left]. apply IH.
    destruct t; destruct x as [[]|[]| |[] m e]; cbn; auto.
Qed.

(** numpy starts the sum of a short run from the negative zero in some
    versions and from zero in others: the reduction is the same. *)
Lemma add_reduce_start t (l : list float) :
  add_as t zero (pairwise_sum (add_as t) (S754_zero true) (length l) l) = add_reduce t l.
Proof.
  unfold add_reduce. destruct (Nat.lt_ge_cases (length l) 8) as [H|H].
  - rewrite !pairwise_sum_short by exact H. apply fold_from_negative_zero. auto.
  - f_equal. apply pairwise_sum_start; lia.
Qed.

(** Three sums as numpy returns them: eight ones added to [10 ^ 16] in
    float64 give [10 ^ 16 + 8], where adding them one by one would leave
    [10 ^ 16]; negative zeros add up to zero; and in float32 one added to
    [2 ^ 24] is lost. *)
Lemma numpy_sums :
  nansum Float64 (of_Z (10 ^ 16) :: repeat (of_Z 1) 8) = of_Z (10 ^ 16 + 8) /\
  fold_left add (repeat (of_Z 1) 8) (of_Z (10 ^ 16)) = of_Z (10 ^ 16) /\
  nansum Float64 [S754_zero true; S754_zero true] = zero /\
  as_python Float32
    (nansum Float32 [binary_normalize 24 128 (2 ^ 24) 0 false; binary_normalize 24 128 1 0 false])
  = of_Z (2 ^ 24).
Proof. vm_compute. repeat split; reflexivity. Qed.

(** X7: the sum over cells that are all missing is zero, not NaN, in
    either floating type and however many the cells are. *)
Theorem nansum_all_missing (t : Dtype) (l : list float) :
  forallb is_nan l = true -> nansum t l = zero.
Proof.
  intros H. unfold nansum. apply add_reduce_zeros.
  induction l as [|x l IH]; [constructor|]. cbn [forallb] in H. apply andb_true_iff in H.
  destruct H as [Hx H]. cbn [map]. constructor; [|exact (IH H)].
  unfold nan_to_zero. rewrite Hx. reflexivity.
Qed.

Lemma nansum_all_missing_witness :
  nansum Float64 [nan; nan; nan] = zero /\ nansum Float32 (repeat nan 300) = zero.
Proof. split; apply nansum_all_missing; reflexivity. Defined.

(** ** Bounds given on the 0 to 360 convention *)

Lemma float_rem_in_range x :
  valid x = true -> sign_of x = false -> ltb x f360 = true ->
  float_rem x f360 = Ok x.
Proof.
  intros V S L. destruct x as [s|s| |s m e]; cbn in S; subst; try discriminate.
  - reflexivity.
  - apply float_rem_small; [exact V|]. apply (leb_f360 m e V). exact L.
Qed.

(** X8: longitude bounds that are already at least 0 and below 360 are
    left as they are by the normalisation, whatever the grid. *)
Theorem normalize_in_range (data : DataArray) (st : State) :
  valid (lon_min st) = true -> valid (lon_max st) = true ->
  sign_of (lon_min st) = false -> ltb (lon_min st) f360 = true ->
  sign_of (lon_max st) = false -> ltb (lon_max st) f360 = true ->
  lon data <> Some [] ->
  normalize data st = Ok st.
Proof.
  intros V1 V2 S1 L1 S2 L2 Hne. unfold normalize.
  destruct (lon data) as [l|]; [|reflexivity].
  destruct (nanmax l) as [m|e] eqn:En.
  - cbn [bind]. destruct (ltb f180 m); [|reflexivity].
    rewrite (float_rem_in_range _ V1 S1 L1), (float_rem_in_range _ V2 S2 L2).
    cbn [bind]. destruct st; reflexivity.
  - destruct l; [congruence|]. unfold nanmax in En.
    destruct (List.filter _ _); discriminate.
Qed.

Lemma normalize_in_range_witness :
  normalize grid_0_360 (initial_state (of_Z 10) (of_Z 0) (of_Z 350) (of_Z 0)) =
  Ok (initial_state (of_Z 10) (of_Z 0) (of_Z 350) (of_Z 0)).
Proof.
  apply normalize_in_range; try reflexivity. discriminate.
Defined.

(** ** A box whose bounds are out of order *)

Lemma count_le (p q : float -> bool) l :
  Forall (fun e => p e = true -> q e = true) l -> (count p l <= count q l)%nat.
Proof.
  induction 1 as [|e l He Hl IH]; [reflexivity|]. rewrite !count_cons.
  destruct (p e); [rewrite (He eq_refl); lia|]. destruct (q e); lia.
Qed.

Lemma no_nan_forall l : no_nan l = true -> Forall (fun e => is_nan e = false) l.
Proof.
  unfold no_nan. intros H. apply List.Forall_forall. intros e He.
  rewrite forallb_forall in H. apply negb_true_iff. apply H. exact He.
Qed.

Lemma searchsorted_inverted idx lo hi :
  no_nan idx = true -> is_nan lo = false -> is_nan hi = false ->
  ltb hi lo = true ->
  (searchsorted idx hi Right <= searchsorted idx lo Left)%nat.
Proof.
  intros Hn Nlo Nhi H. cbn [searchsorted]. apply count_le.
  eapply List.Forall_impl; [|apply no_nan_forall; exact Hn].
  intros e Ne He. apply negb_true_iff in He.
  rewrite np_lt_ltb in * by assumption.
  exact (not_ltb_ltb_trans e hi lo Ne Nhi Nlo He H).
Qed.

Lemma slice_list_empty {A : Type} (start stop : nat) (l : list A) :
  (stop <= start)%nat -> slice_list start stop l = [].
Proof. intros H. unfold slice_list. replace (stop - start)%nat with 0%nat by lia. reflexivity. Qed.

Lemma concat_nils {A : Type} (l : list (list A)) :
  Forall (fun r => r = []) l -> concat l = [].
Proof. induction 1 as [|r l -> _ IH]; [reflexivity|exact IH]. Qed.

Lemma sel_no_longitude
    (data : DataArray) (lons lats : list float) (lon_min lon_max lat_min lat_max : float) :
  lon data = Some lons -> lat data = Some lats ->
  ascending lons = true -> ascending lats = true ->
  is_nan lon_min = false -> is_nan lon_max = false ->
  is_nan lat_min = false -> is_nan lat_max = false ->
  ltb lon_max lon_min = true ->
  exists sliced,
    sel data lon_min lon_max lat_min lat_max = Ok sliced /\
    r_values (sum_lat_lon sliced) = map (fun _ => zero) (cells data).
Proof.
  intros Hlon Hlat Alon Alat N1 N2 N3 N4 H.
  unfold sel. rewrite Hlon, Hlat.
  rewrite !get_slice_bound_ascending by assumption. cbn [bind].
  eexists. split; [reflexivity|]. cbn [sum_lat_lon r_values cells dtype].
  rewrite map_map. apply map_ext. intros slab.
  replace (concat _) with (@nil float); [apply empty_sum|]. symmetry.
  apply concat_nils. apply List.Forall_forall. intros r Hr.
  apply in_map_iff in Hr. destruct Hr as (row & <- & _).
  apply slice_list_empty. apply searchsorted_inverted; try assumption.
  apply ascending_no_nan. exact Alon.
Qed.

(** X9: on ascending coordinates, a box whose upper longitude bound is
    below the lower one, or whose upper latitude bound is below the lower
    one, selects no cell: every sum is zero, and nothing is raised. *)
Theorem inverted_box_sums_to_zero
    (data : DataArray) (lons lats : list float) (lon_min lon_max lat_min lat_max : float) :
  lon data = Some lons -> lat data = Some lats ->
  ascending lons = true -> ascending lats = true ->
  is_nan lon_min = false -> is_nan lon_max = false ->
  is_nan lat_min = false -> is_nan lat_max = false ->
  ltb lon_max lon_min = true \/ ltb lat_max lat_min = true ->
  exists sliced,
    sel data lon_min lon_max lat_min lat_max = Ok sliced /\
    r_values (sum_lat_lon sliced) = map (fun _ => zero) (cells data).
Proof.
  intros Hlon Hlat Alon Alat N1 N2 N3 N4 [H|H].
  - exact (sel_no_longitude data lons lats lon_min lon_max lat_min lat_max
             Hlon Hlat Alon Alat N1 N2 N3 N4 H).
  - unfold sel. rewrite Hlon, Hlat.
    rewrite !get_slice_bound_ascending by assumption. cbn [bind].
    eexists. split; [reflexivity|]. cbn [sum_lat_lon r_values cells dtype].
    rewrite map_map. apply map_ext. intros slab.
    rewrite slice_list_empty; [exact (empty_sum _)|].
    apply searchsorted_inverted; try assumption. apply ascending_no_nan. exact Alat.
Qed.

Lemma inverted_box_witness :
  exists sliced,
    sel grid_0_360 (of_Z 350) (of_Z 10) (of_Z 0) (of_Z 0) = Ok sliced /\
    r_values (sum_lat_lon sliced) = [zero].
Proof.
  apply (inverted_box_sums_to_zero grid_0_360 _ _ (of_Z 350) (of_Z 10) (of_Z 0) (of_Z 0)
           eq_refl eq_refl); try reflexivity.
  left. reflexivity.
Defined.

(** ** Integers as floats *)

Lemma digits2_pos_le_53 p : Zpos p < 2 ^ 53 -> Zpos (digits2_pos p) <= 53.
Proof.
  intros H. destruct (digits2_pos_bounds p) as [L _].
  destruct (Z_le_gt_dec (Zpos (digits2_pos p)) 53) as [|G]; [assumption|exfalso].
  assert (2 ^ 53 <= 2 ^ (Zpos (digits2_pos p) - 1)) by (apply Z.pow_le_mono_r; lia).
  lia.
Qed.

Lemma integer_mod_ulp p :
  Zpos p < 2 ^ 53 ->
  (Zpos p * 2 ^ 1074) mod ulp_of (Zpos p * 2 ^ 1074) = 0.
Proof.
  intros H. unfold ulp_of. rewrite Zdigits2_shift by lia. rewrite fexp_eq.
  pose proof (digits2_pos_le_53 p H) as Hd.
  assert (Hp : 0 < Zpos (digits2_pos p)) by lia.
  set (k := Z.max (Zpos (digits2_pos p) + 1074 + emin - 53) (-1074) - emin).
  assert (Hk : 0 <= k <= 1074) by (unfold k, emin; lia).
  replace (2 ^ 1074) with (2 ^ (1074 - k) * 2 ^ k)
    by (rewrite <- Z.pow_add_r by lia; f_equal; lia).
  rewrite Z.mul_assoc. apply Z_mod_mult.
Qed.

Lemma integer_lt_max p : Zpos p < 2 ^ 53 -> Zpos p * 2 ^ 1074 < 2 ^ (emax - emin).
Proof.
  intros H. change (emax - emin) with (1024 + 1074). rewrite Z.pow_add_r by lia.
  apply Z.mul_lt_mono_pos_r; [apply pow2_pos; lia|].
  assert (2 ^ 53 < 2 ^ 1024) by (apply Z.pow_lt_mono_r; lia). lia.
Qed.

Lemma of_Z_pos p :
  Zpos p < 2 ^ 53 ->
  exists m e, of_Z (Zpos p) = S754_finite false m e /\
              valid (S754_finite false m e) = true /\
              Zpos m * 2 ^ (e - emin) = Zpos p * 2 ^ 1074.
Proof.
  intros H. unfold of_Z. cbn [binary_normalize].
  pose proof (binary_round_spec false p 0 ltac:(unfold emin; lia)) as R.
  change (0 - emin) with 1074 in R.
  destruct (rounds_to_exact _ _ _ R (integer_mod_ulp p H) (integer_lt_max p H))
    as (m & e & E & V & M).
  exists m, e. rewrite E in *. auto.
Qed.

Lemma of_Z_neg p :
  Zpos p < 2 ^ 53 ->
  exists m e, of_Z (Zneg p) = S754_finite true m e /\
              valid (S754_finite true m e) = true /\
              Zpos m * 2 ^ (e - emin) = Zpos p * 2 ^ 1074.
Proof.
  intros H. unfold of_Z. cbn [binary_normalize].
  pose proof (binary_round_spec true p 0 ltac:(unfold emin; lia)) as R.
  change (0 - emin) with 1074 in R.
  destruct (rounds_to_exact _ _ _ R (integer_mod_ulp p H) (integer_lt_max p H))
    as (m & e & E & V & M).
  exists m, e. rewrite E in *. auto.
Qed.

Lemma Y360_360 : Y360 = 360 * 2 ^ 1074.
Proof. rewrite Y360_eq. change (2 ^ 1074) with (2 ^ 44 * 2 ^ 1030). lia. Qed.

(** A positive float of magnitude [k * 2 ^ 1074], for an integer [k] below
    [2 ^ 53], is [of_Z k]. *)
Lemma of_Z_unique k m e :
  0 < k < 2 ^ 53 ->
  valid (S754_finite false m e) = true ->
  Zpos m * 2 ^ (e - emin) = k * 2 ^ 1074 ->
  S754_finite false m e = of_Z k.
Proof.
  intros Hk V M. destruct k as [|p|p]; try lia.
  destruct (of_Z_pos p ltac:(lia)) as (m' & e' & -> & V' & M').
  apply valid_magnitude_inj; [assumption..|]. lia.
Qed.

Lemma float_rem_integer n :
  - 2 ^ 53 < n < 2 ^ 53 ->
  float_rem (of_Z n) f360 = Ok (of_Z (n mod 360)).
Proof.
  intros Hn. pose proof (Z.mod_pos_bound n 360 ltac:(lia)) as Hm.
  assert (H53 : 360 < 2 ^ 53) by (vm_compute; reflexivity).
  rewrite float_rem_of_fmod. destruct n as [|p|p].
  - reflexivity.
  - destruct (of_Z_pos p ltac:(lia)) as (m & e & -> & V & M).
    destruct (fmod_f360 false m e V) as [_ H]. cbv zeta in H. rewrite M, Y360_360 in H.
    rewrite Z.rem_mod_nonneg in H by (try apply Z.mul_nonneg_nonneg; try apply Z.mul_pos_pos; lia).
    rewrite Zmult_mod_distr_r in H.
    destruct H as [[H0 ->]|(Hpos & m' & e' & -> & V' & M')].
    + assert (Zpos p mod 360 = 0) by nia. rewrite H. reflexivity.
    + f_equal. apply of_Z_unique; [|assumption|exact M'].
      split; [|lia]. destruct (Z.eq_dec (Zpos p mod 360) 0) as [E|]; [|lia].
      rewrite E in Hpos. lia.
  - destruct (of_Z_neg p ltac:(lia)) as (m & e & -> & V & M).
    destruct (fmod_f360 true m e V) as [_ H]. cbv zeta in H. rewrite M, Y360_360 in H.
    rewrite Z.rem_mod_nonneg in H by (try apply Z.mul_nonneg_nonneg; try apply Z.mul_pos_pos; lia).
    rewrite Zmult_mod_distr_r in H.
    assert (Hneg : (Zpos p mod 360 = 0 /\ Zneg p mod 360 = 0) \/
                   (0 < Zpos p mod 360 /\ Zneg p mod 360 = 360 - Zpos p mod 360)).
    { change (Zneg p) with (- Zpos p). Z.div_mod_to_equations. lia. }
    destruct H as [[H0 ->]|(Hpos & m' & e' & -> & V' & M')].
    + destruct Hneg as [[_ ->]|[Hr _]]; [reflexivity|nia].
    + destruct Hneg as [[Hr _]|[Hr Hk]]; [rewrite Hr in Hpos; lia|].
      f_equal.
      pose proof valid_f360 as Vf. rewrite f360_eq in Vf.
      pose proof (add_finite_pos true m' e' false 6333186975989760 (-44) V' Vf) as R.
      rewrite <- f360_eq in R. rewrite scaled_f360, Y360_360, scaled_finite, M' in R.
      cbn [cond_Zopp] in R.
      replace (- (Zpos p mod 360 * 2 ^ 1074) + 360 * 2 ^ 1074)
        with (Zneg p mod 360 * 2 ^ 1074) in R by (rewrite Hk; ring).
      assert (P : 0 < 2 ^ 1074) by (apply pow2_pos; lia).
      pose proof (Z.mod_pos_bound (Zpos p) 360 ltac:(lia)) as Hm'.
      specialize (R ltac:(apply Z.mul_pos_pos; lia)).
      destruct (Zneg p mod 360) as [|q|q] eqn:Eq; try lia.
      destruct (rounds_to_exact _ _ _ R (integer_mod_ulp q ltac:(lia)) (integer_lt_max q ltac:(lia)))
        as (m2 & e2 & E2 & V2 & M2).
      rewrite E2. apply of_Z_unique; [lia|rewrite <- E2; exact V2|exact M2].
Qed.

(** X10: on a grid on the 0 to 360 convention, longitude bounds that are
    whole numbers are remapped to their remainders modulo 360 exactly. *)
Theorem normalize_integer_bounds (data : DataArray) (st : State) (a b : Z) :
  uses_0_360 data = true ->
  lon_min st = of_Z a -> lon_max st = of_Z b ->
  - 2 ^ 53 < a < 2 ^ 53 -> - 2 ^ 53 < b < 2 ^ 53 ->
  normalize data st = Ok (with_lon st (of_Z (a mod 360)) (of_Z (b mod 360))).
Proof.
  intros U Ea Eb Ha Hb. rewrite (normalize_0_360 _ _ U), Ea, Eb.
  rewrite (float_rem_integer a Ha), (float_rem_integer b Hb). reflexivity.
Qed.

Lemma normalize_integer_bounds_witness :
  normalize grid_0_360 (initial_state (of_Z (-190)) (of_Z 0) (of_Z 725) (of_Z 0)) =
  Ok (initial_state (of_Z 170) (of_Z 0) (of_Z 5) (of_Z 0)).
Proof.
  apply (normalize_integer_bounds grid_0_360
           (initial_state (of_Z (-190)) (of_Z 0) (of_Z 725) (of_Z 0)) (-190) 725);
    try reflexivity; lia.
Defined.

(** ** [float] of the decimal digits of an integer *)

Lemma digit_char d :
  0 <= d < 10 ->
  is_ascii_digit (ascii_of_N (Z.to_N (48 + d))) = true /\
  digit_val (ascii_of_N (Z.to_N (48 + d))) = d.
Proof.
  intros H.
  assert (C : d = 0 \/ d = 1 \/ d = 2 \/ d = 3 \/ d = 4 \/ d = 5 \/ d = 6 \/ d = 7 \/
              d = 8 \/ d = 9) by lia.
  repeat (destruct C as [->|C]; [split; reflexivity|]). subst. split; reflexivity.
Qed.

Lemma digits_of_pos_S f n acc :
  Str.digits_of_pos (S f) n acc =
  if n <? 10 then String (ascii_of_N (Z.to_N (48 + n mod 10))) acc
  else Str.digits_of_pos f (n / 10) (String (ascii_of_N (Z.to_N (48 + n mod 10))) acc).
Proof. reflexivity. Qed.

Lemma digits_of_pos_spec : forall f n acc,
  0 <= n < 10 ^ Z.of_nat (S f) ->
  exists ds,
    ds <> [] /\ Forall (fun c => is_ascii_digit c = true) ds /\
    list_ascii_of_string (Str.digits_of_pos (S f) n acc) = ds ++ list_ascii_of_string acc /\
    forall a k rest,
      read_digits a k (ds ++ rest) =
      read_digits (a * 10 ^ Z.of_nat (length ds) + n) (k + Z.of_nat (length ds)) rest.
Proof.
  induction f as [|f IH]; intros n acc Hn.
  - change (10 ^ Z.of_nat 1) with 10 in Hn.
    rewrite digits_of_pos_S. destruct (Z.ltb_spec n 10) as [_|]; [|lia].
    rewrite Z.mod_small by lia. destruct (digit_char n Hn) as [D V].
    exists [ascii_of_N (Z.to_N (48 + n))]. split; [discriminate|].
    split; [repeat constructor; exact D|]. split; [reflexivity|].
    intros a k rest. cbn [app read_digits length]. rewrite D, V.
    f_equal. change (10 ^ Z.of_nat 1) with 10. lia.
  - rewrite digits_of_pos_S.
    pose proof (Z.mod_pos_bound n 10 ltac:(lia)) as Hm.
    destruct (digit_char (n mod 10) Hm) as [D V].
    destruct (Z.ltb_spec n 10) as [Hs|Hl].
    + rewrite Z.mod_small in * by lia.
      exists [ascii_of_N (Z.to_N (48 + n))]. split; [discriminate|].
      split; [repeat constructor; exact D|]. split; [reflexivity|].
      intros a k rest. cbn [app read_digits length]. rewrite D, V.
      f_equal. change (10 ^ Z.of_nat 1) with 10. lia.
    + assert (Hq : 0 <= n / 10 < 10 ^ Z.of_nat (S f)).
      { split; [apply Z.div_pos; lia|]. apply Z.div_lt_upper_bound; [lia|].
        rewrite (Nat2Z.inj_succ (S f)), Z.pow_succ_r in Hn by lia. lia. }
      destruct (IH (n / 10) (String (ascii_of_N (Z.to_N (48 + n mod 10))) acc) Hq)
        as (ds & Hne & Hd & Hs & Hr).
      exists (ds ++ [ascii_of_N (Z.to_N (48 + n mod 10))]).
      split; [destruct ds; discriminate|].
      split; [apply Forall_app; split; [exact Hd|repeat constructor; exact D]|].
      split; [rewrite Hs, <- app_assoc; reflexivity|].
      intros a k rest. rewrite <- app_assoc. cbn [app]. rewrite Hr.
      cbn [read_digits]. rewrite D, V. rewrite length_app. cbn [length].
      rewrite Nat2Z.inj_add. change (Z.of_nat 1) with 1.
      rewrite Z.pow_add_r by lia. change (10 ^ 1) with 10.
      pose proof (Z.div_mod n 10 ltac:(lia)).
      f_equal; lia.
Qed.

Lemma decimal_spec n :
  0 <= n ->
  exists ds,
    ds <> [] /\ Forall (fun c => is_ascii_digit c = true) ds /\
    list_ascii_of_string (Str.decimal n) = ds /\
    read_digits 0 0 ds = (n, Z.of_nat (length ds), []).
Proof.
  intros Hn. unfold Str.decimal.
  assert (Hb : 0 <= n < 10 ^ Z.of_nat (S (Z.to_nat (Z.log2 n)))).
  { split; [exact Hn|]. rewrite Nat2Z.inj_succ, Z2Nat.id by apply Z.log2_nonneg.
    destruct (Z.eq_dec n 0) as [->|]; [reflexivity|].
    destruct (Z.log2_spec n ltac:(lia)) as [_ H].
    eapply Z.lt_le_trans; [exact H|]. apply Z.pow_le_mono_l.
    pose proof (Z.log2_nonneg n). lia. }
  destruct (digits_of_pos_spec _ _ EmptyString Hb) as (ds & Hne & Hd & Hs & Hr).
  exists ds. split; [exact Hne|]. split; [exact Hd|].
  cbn [list_ascii_of_string] in Hs. rewrite app_nil_r in Hs. split; [exact Hs|].
  specialize (Hr 0 0 []). rewrite app_nil_r in Hr. rewrite Hr. cbn [read_digits].
  rewrite Z.mul_0_l, !Z.add_0_l. reflexivity.
Qed.

Lemma digit_not_special c :
  is_ascii_digit c = true ->
  is_space c = false /\ Ascii.eqb c "_" = false /\ Ascii.eqb c "-" = false /\
  Ascii.eqb c "+" = false /\ Ascii.eqb c "," = false /\
  lower c = c /\ Ascii.eqb c "i" = false /\ Ascii.eqb c "n" = false.
Proof.
  destruct c as [[] [] [] [] [] [] [] []]; try discriminate; intros _; repeat split; reflexivity.
Qed.

Lemma lstrip_head c l : is_space c = false -> lstrip (c :: l) = c :: l.
Proof. intros H. cbn [lstrip]. rewrite H. reflexivity. Qed.

Lemma lstrip_id l : Forall (fun c => is_space c = false) l -> lstrip l = l.
Proof. intros H. destruct H as [|c l Hc _]; [reflexivity|]. apply lstrip_head. exact Hc. Qed.

Lemma strip_id l : Forall (fun c => is_space c = false) l -> strip l = l.
Proof.
  intros H. unfold strip. rewrite (lstrip_id l H).
  rewrite lstrip_id by (apply Forall_rev; exact H). apply rev_involutive.
Qed.

Lemma drop_underscores_digits : forall ds prev,
  Ascii.eqb prev "_" = false ->
  Forall (fun c => is_ascii_digit c = true) ds ->
  drop_underscores prev ds = Some ds.
Proof.
  induction ds as [|c ds IH]; intros prev Hp Hd.
  - cbn. rewrite Hp. reflexivity.
  - inversion Hd as [|? ? Hc Hds]; subst.
    destruct (digit_not_special c Hc) as (_ & Hu & _).
    cbn [drop_underscores]. rewrite Hu, Hp. cbn [andb].
    rewrite (IH c Hu Hds). reflexivity.
Qed.

Lemma drop_underscores_minus l :
  drop_underscores Ascii.zero ("-"%char :: l) = option_map (cons "-"%char) (drop_underscores "-" l).
Proof. reflexivity. Qed.

Lemma lower_string_digits c ds :
  is_ascii_digit c = true ->
  (String.eqb (lower_string (c :: ds)) "inf" || String.eqb (lower_string (c :: ds)) "infinity")
  = false /\
  String.eqb (lower_string (c :: ds)) "nan" = false.
Proof.
  intros Hc. destruct (digit_not_special c Hc) as (_ & _ & _ & _ & _ & Hl & Hi & Hn).
  unfold lower_string. cbn [map string_of_list_ascii String.eqb]. rewrite Hl, Hi, Hn.
  split; reflexivity.
Qed.

Lemma parse_number_digits sg n ds :
  ds <> [] -> read_digits 0 0 ds = (n, Z.of_nat (length ds), []) ->
  parse_number sg ds = Some (of_decimal sg n 0).
Proof.
  intros Hne Hr. unfold parse_number. rewrite Hr.
  assert ((Z.of_nat (length ds) + 0 =? 0) = false) as ->.
  { apply Z.eqb_neq. destruct ds; [congruence|]. cbn [length]. lia. }
  cbn [read_exponent]. reflexivity.
Qed.

Lemma of_decimal_integer sg n :
  0 <= n -> of_decimal sg n 0 = if n =? 0 then S754_zero sg else of_Z (cond_Zopp sg n).
Proof.
  intros H. destruct n as [|p|p]; [reflexivity| |lia].
  unfold of_decimal, of_Z. cbn [Z.leb Z.ltb Z.compare Z.eqb]. rewrite Z.mul_1_r. reflexivity.
Qed.

Lemma of_string_digits (neg : bool) n :
  0 <= n ->
  of_string (if neg then String "-" (Str.decimal n) else Str.decimal n) =
  Some (of_decimal neg n 0).
Proof.
  intros Hn. destruct (decimal_spec n Hn) as (ds & Hne & Hd & Hs & Hr).
  assert (Hsp : Forall (fun c => is_space c = false) ds).
  { eapply List.Forall_impl; [|exact Hd]. intros c Hc. apply (digit_not_special c Hc). }
  destruct ds as [|c ds']; [congruence|].
  inversion Hd as [|? ? Hc Hds]; subst.
  destruct (digit_not_special c Hc) as (_ & Hu & Hm & Hp & _).
  destruct (lower_string_digits c ds' Hc) as [Hinf Hnan].
  unfold of_string. destruct neg.
  - cbn [list_ascii_of_string]. rewrite Hs.
    rewrite strip_id by (constructor; [reflexivity|exact Hsp]).
    rewrite drop_underscores_minus.
    rewrite (drop_underscores_digits (c :: ds') "-" eq_refl Hd).
    cbn [option_map read_sign]. change (Ascii.eqb "-" "-") with true. cbv iota.
    rewrite Hinf, Hnan. apply parse_number_digits; [discriminate|exact Hr].
  - rewrite Hs. rewrite strip_id by exact Hsp.
    rewrite (drop_underscores_digits (c :: ds') Ascii.zero eq_refl Hd).
    cbn [read_sign]. rewrite Hm, Hp. rewrite Hinf, Hnan.
    apply parse_number_digits; [discriminate|exact Hr].
Qed.

Lemma float_of_int_text z : of_string (int_text z) = Some (of_Z z).
Proof.
  unfold int_text. destruct (Z.ltb_spec z 0) as [H|H].
  - rewrite (of_string_digits true (- z)) by lia. rewrite of_decimal_integer by lia.
    destruct (Z.eqb_spec (- z) 0); [lia|]. cbn [cond_Zopp]. rewrite Z.opp_involutive. reflexivity.
  - rewrite (of_string_digits false z) by lia. rewrite of_decimal_integer by lia.
    destruct (Z.eqb_spec z 0) as [->|]; reflexivity.
Qed.

Lemma of_Z_scaled z : - 2 ^ 53 < z < 2 ^ 53 -> scaled (of_Z z) = z * 2 ^ 1074.
Proof.
  intros H. destruct z as [|p|p].
  - reflexivity.
  - destruct (of_Z_pos p ltac:(lia)) as (m & e & -> & _ & M). rewrite scaled_finite. exact M.
  - destruct (of_Z_neg p ltac:(lia)) as (m & e & -> & _ & M). rewrite scaled_finite.
    cbn [cond_Zopp]. rewrite M. change (Zneg p) with (- Zpos p). ring.
Qed.

(** ** Splitting at commas *)


Lemma split_app sep s t :
  occurrences sep s = 0%nat ->
  Str.split sep (s ++ String sep t) = s :: Str.split sep t.
Proof.
  induction s as [|c s IH]; intros H.
  - change (String.append EmptyString (String sep t)) with (String sep t). cbn [Str.split].
    destruct (Ascii.eqb_spec sep sep); [reflexivity|congruence].
  - cbn [occurrences] in H.
    change (String.append (String c s) (String sep t))
      with (String c (String.append s (String sep t))).
    cbn [Str.split].
    destruct (Ascii.eqb c sep); [discriminate|]. rewrite (IH H). reflexivity.
Qed.

Lemma occurrences_zero c s :
  Forall (fun a => Ascii.eqb a c = false) (list_ascii_of_string s) -> occurrences c s = 0%nat.
Proof.
  induction s as [|a s IH]; [reflexivity|]. cbn [list_ascii_of_string occurrences].
  intros H. inversion H as [|? ? Ha Hs]; subst. rewrite Ha. apply IH. exact Hs.
Qed.

Lemma int_text_no_comma z : occurrences "," (int_text z) = 0%nat.
Proof.
  assert (D : forall n, 0 <= n ->
            Forall (fun a => Ascii.eqb a "," = false) (list_ascii_of_string (Str.decimal n))).
  { intros n Hn. destruct (decimal_spec n Hn) as (ds & _ & Hd & -> & _).
    eapply List.Forall_impl; [|exact Hd]. intros c Hc. apply (digit_not_special c Hc). }
  apply occurrences_zero. unfold int_text. destruct (Z.ltb_spec z 0).
  - cbn [list_ascii_of_string]. constructor; [reflexivity|]. apply D. lia.
  - apply D. lia.
Qed.

(** X11: the parser reads back a box of four integers written in
    decimal: the floats it returns are the four integers, which are
    represented exactly below [2 ^ 53]. *)
Theorem parse_bbox_integers (a b c d : Z) :
  parse_bbox (int_text a ++ "," ++ int_text b ++ "," ++ int_text c ++ "," ++ int_text d)
    = Ok [of_Z a; of_Z b; of_Z c; of_Z d] /\
  forall z, - 2 ^ 53 < z < 2 ^ 53 -> scaled (of_Z z) = z * 2 ^ 1074.
Proof.
  split; [|exact of_Z_scaled].
  unfold parse_bbox.
  change ("," ++ int_text b ++ "," ++ int_text c ++ "," ++ int_text d)%string
    with (String "," (int_text b ++ String "," (int_text c ++ String "," (int_text d)))).
  rewrite !split_app by apply int_text_no_comma.
  rewrite split_no_sep by apply int_text_no_comma.
  cbn [map_result]. unfold py_float. rewrite !float_of_int_text. reflexivity.
Qed.

(** ** Blanks around a number *)







(** ** The year in a file name *)

Lemma four_digits_all :
  forallb four_digits_ok (map Z.of_nat (seq 0 (Z.to_nat 10000))) = true.
Proof. vm_compute. reflexivity. Qed.

Lemma format_04d_four_digits n : 0 <= n <= 9999 -> Str.format_04d n = four_digits n.
Proof.
  intros H. pose proof four_digits_all as A. rewrite forallb_forall in A.
  apply String.eqb_eq. apply (A n).
  apply in_map_iff. exists (Z.to_nat n). split; [lia|]. apply in_seq. lia.
Qed.

Lemma digit_chr_val c :
  is_ascii_digit c = true -> exists k, c = digit_chr k /\ 0 <= k < 10.
Proof.
  intros H. exists (digit_val c). revert H.
  destruct c as [[] [] [] [] [] [] [] []]; try discriminate; intros _;
    (split; [reflexivity|vm_compute; split; congruence]).
Qed.

(** Below 128 the digits are the ten ASCII digits. *)
Lemma is_digit_ascii c :
  Str.is_digit c = true -> (N_of_ascii c <? 128)%N = true -> is_ascii_digit c = true.
Proof.
  destruct c as [[] [] [] [] [] [] [] []]; vm_compute; congruence.
Qed.

(** The pieces of ASCII text are ASCII text. *)
Lemma split_isascii sep s :
  Str.isascii s = true -> Forall (fun x => Str.isascii x = true) (Str.split sep s).
Proof.
  induction s as [|c s IH]; [repeat constructor|]. cbn [Str.isascii]. intros H.
  apply andb_true_iff in H. destruct H as [Hc Hs]. specialize (IH Hs). rewrite split_cons.
  destruct (Ascii.eqb c sep); [constructor; [reflexivity|exact IH]|].
  destruct (Str.split sep s) as [|x t].
  - repeat constructor. cbn [Str.isascii]. rewrite Hc. reflexivity.
  - inversion IH; subst. constructor; [|assumption]. cbn [Str.isascii]. rewrite Hc. assumption.
Qed.

Lemma year_token_number year :
  Str.isascii year = true ->
  year_token year = true -> exists n, 0 <= n <= 9999 /\ year = Str.format_04d n.
Proof.
  unfold year_token. intros Ha H.
  apply andb_true_iff in H. destruct H as [Hd Hl]. apply Nat.eqb_eq in Hl.
  destruct year as [|a [|b [|c [|d [|? ?]]]]]; try discriminate.
  cbn [Str.isdigit Str.all_digits] in Hd. cbn [Str.isascii] in Ha.
  repeat (apply andb_true_iff in Hd; let H := fresh "D" in destruct Hd as [H Hd]).
  repeat (apply andb_true_iff in Ha; let H := fresh "A" in destruct Ha as [H Ha]).
  apply is_digit_ascii in D, D0, D1, D2; try assumption.
  destruct (digit_chr_val a D) as (ka & -> & Hka).
  destruct (digit_chr_val b D0) as (kb & -> & Hb).
  destruct (digit_chr_val c D1) as (kc & -> & Hc).
  destruct (digit_chr_val d D2) as (kd & -> & Hd').
  exists (1000 * ka + 100 * kb + 10 * kc + kd).
  split; [lia|]. rewrite format_04d_four_digits by lia. unfold four_digits.
  repeat f_equal; Z.div_mod_to_equations; lia.
Qed.

Lemma extract_year_token name year :
  extract_year_from_filename name = Some year ->
  In year (Str.split "_" name) /\ year_token year = true.
Proof. unfold extract_year_from_filename. intros H. apply find_some in H. exact H. Qed.

Lemma extract_year_ascii name year :
  Str.isascii name = true -> extract_year_from_filename name = Some year ->
  Str.isascii year = true.
Proof.
  intros Ha H. destruct (extract_year_token _ _ H) as [Hin _].
  pose proof (split_isascii "_" name Ha) as F. rewrite List.Forall_forall in F.
  apply F. exact Hin.
Qed.

(** Four superscript digits pass [isdigit]: the year taken from a file
    name that is not ASCII text need not be a number. *)
Lemma superscript_year :
  let two := ascii_of_N 178 in
  let year := String two (String two (String two (String two EmptyString))) in
  extract_year_from_filename ("run_" ++ year ++ "_v1") = Some year /\
  Float.of_string year = None.
Proof. vm_compute. split; reflexivity. Qed.

(** X13: the year taken from a file name that is ASCII text is one of its
    pieces between underscores and is written with four decimal digits: it
    is [%04d] of a number from 0 to 9999. *)
Theorem extract_year_shape (filename year : string) :
  Str.isascii filename = true ->
  extract_year_from_filename filename = Some year ->
  In year (Str.split "_" filename) /\
  exists n, 0 <= n <= 9999 /\ year = Str.format_04d n.
Proof.
  intros Ha H. destruct (extract_year_token _ _ H) as [Hin T].
  split; [exact Hin|]. exact (year_token_number _ (extract_year_ascii _ _ Ha H) T).
Qed.

Lemma extract_year_shape_witness :
  In "0042"%string (Str.split "_" "run_0042_v1") /\
  exists n, 0 <= n <= 9999 /\ "0042"%string = Str.format_04d n.
Proof. apply (extract_year_shape "run_0042_v1" "0042"); reflexivity. Defined.

(** ** The directory of an input path *)

Lemma split_app_all sep s t :
  Str.split sep (s ++ String sep t) = Str.split sep s ++ Str.split sep t.
Proof.
  induction s as [|c s IH].
  - change (String.append EmptyString (String sep t)) with (String sep t). cbn [Str.split].
    destruct (Ascii.eqb_spec sep sep); [reflexivity|congruence].
  - change (String.append (String c s) (String sep t))
      with (String c (String.append s (String sep t))).
    cbn [Str.split]. rewrite IH. destruct (Ascii.eqb c sep); [reflexivity|].
    pose proof (split_not_nil sep s). destruct (Str.split sep s); [congruence|reflexivity].
Qed.

Lemma path_name_last dir name :
  occurrences "/" name = 0%nat -> name <> ""%string -> name <> "."%string ->
  Str.path_name (dir ++ String "/" name) = name /\ Str.path_name name = name.
Proof.
  intros Hs He Hd.
  assert (K : negb (String.eqb name "" || String.eqb name ".") = true).
  { apply negb_true_iff. apply orb_false_iff. split; apply String.eqb_neq; assumption. }
  unfold Str.path_name. rewrite split_app_all, (split_no_sep "/" name Hs).
  rewrite List.filter_app. cbn [List.filter]. rewrite K. split.
  - apply last_last.
  - reflexivity.
Qed.

(** X14: the directories of an input path play no part: a source is
    reduced and labelled as if the path were its last component. *)
Theorem directory_ignored (data : DataArray) (st : State) (dir name : string) :
  occurrences "/" name = 0%nat -> name <> ""%string -> name <> "."%string ->
  reduce_and_label data st (dir ++ String "/" name) = reduce_and_label data st name.
Proof.
  intros Hs He Hd. destruct (path_name_last dir name Hs He Hd) as [E1 E2].
  unfold reduce_and_label. rewrite E1, E2. reflexivity.
Qed.

Lemma directory_ignored_witness :
  reduce_and_label grid_180 box_10 ("/data/edgar_2020_v8" ++ String "/" "emissions.nc") =
  reduce_and_label grid_180 box_10 "emissions.nc".
Proof.
  apply (directory_ignored grid_180 box_10 "/data/edgar_2020_v8" "emissions.nc");
    [reflexivity|discriminate|discriminate].
Defined.

(** ** The order of the labels *)

Lemma next_year_all : forallb next_year_ok (map Z.of_nat (seq 1677 585)) = true.
Proof. vm_compute. reflexivity. Qed.

Lemma decimal_year_le : forall (k : nat) (a : Z),
  1677 <= a -> a + Z.of_nat k <= 2262 ->
  String.leb (Str.decimal a) (Str.decimal (a + Z.of_nat k)) = true.
Proof.
  induction k as [|k IH]; intros a Ha Hb.
  - rewrite Z.add_0_r. apply leb_refl.
  - eapply string_leb_trans; [apply (IH a Ha); lia|].
    replace (a + Z.of_nat (S k)) with (a + Z.of_nat k + 1) by lia.
    pose proof next_year_all as A. rewrite forallb_forall in A.
    apply (A (a + Z.of_nat k)). apply in_map_iff.
    exists (Z.to_nat (a + Z.of_nat k)). split; [lia|]. apply in_seq. lia.
Qed.

Lemma days_before_year_mono a b : a <= b -> days_before_year a <= days_before_year b.
Proof.
  intros H. unfold days_before_year, leap_years_before. Z.div_mod_to_equations. lia.
Qed.

Lemma days_to_year_mono d1 d2 :
  -106752 <= d1 -> d1 <= d2 -> d2 <= 106751 ->
  days_to_year d1 <= days_to_year d2.
Proof.
  intros H1 H H2.
  destruct (days_to_year_spec d1 ltac:(lia)) as (_ & L1 & U1).
  destruct (days_to_year_spec d2 ltac:(lia)) as (_ & L2 & U2).
  destruct (Z_le_gt_dec (days_to_year d1) (days_to_year d2)) as [|G]; [assumption|exfalso].
  pose proof (days_before_year_mono (days_to_year d2 + 1) (days_to_year d1) ltac:(lia)). lia.
Qed.

Lemma valid_time_days t :
  valid_time t = true ->
  t <> NaT /\ -106752 <= t / ns_per_day <= 106751.
Proof.
  unfold valid_time, in_range, NaT. intros H.
  apply andb_true_iff in H. destruct H as [R N]. apply andb_true_iff in R.
  destruct R as [R1 R2]. apply Z.leb_le in R1. apply Z.ltb_lt in R2.
  apply negb_true_iff in N. apply Z.eqb_neq in N. split; [exact N|].
  unfold ns_per_day. Z.div_mod_to_equations. lia.
Qed.

Lemma year_label_decimal t :
  valid_time t = true ->
  year_label t = Str.decimal (days_to_year (t / ns_per_day)).
Proof.
  intros H. destruct (valid_time_days t H) as [N D].
  destruct (days_to_year_spec _ D) as (Y & _).
  unfold year_label, year_str. rewrite (proj2 (Z.eqb_neq _ _) N).
  apply (year_text_four _ Y).
Qed.

Lemma year_label_mono t1 t2 :
  valid_time t1 = true -> valid_time t2 = true -> t1 <= t2 ->
  String.leb (year_label t1) (year_label t2) = true.
Proof.
  intros V1 V2 H. rewrite (year_label_decimal t1 V1), (year_label_decimal t2 V2).
  destruct (valid_time_days t1 V1) as [_ D1]. destruct (valid_time_days t2 V2) as [_ D2].
  assert (Hd : t1 / ns_per_day <= t2 / ns_per_day).
  { apply Z.div_le_mono; [reflexivity|exact H]. }
  pose proof (days_to_year_mono _ _ (proj1 D1) Hd (proj2 D2)) as Hy.
  destruct (days_to_year_spec _ D1) as (Y1 & _).
  destruct (days_to_year_spec _ D2) as (Y2 & _).
  replace (days_to_year (t2 / ns_per_day))
    with (days_to_year (t1 / ns_per_day) +
          Z.of_nat (Z.to_nat (days_to_year (t2 / ns_per_day) - days_to_year (t1 / ns_per_day))))
    by lia.
  apply decimal_year_le; lia.
Qed.

Lemma chronological_nodup times : StronglySorted Z.lt times -> List.NoDup times.
Proof.
  induction 1 as [|t l Hs IH Hf]; constructor; [|exact IH].
  intros Hin. rewrite List.Forall_forall in Hf. specialize (Hf t Hin). lia.
Qed.

Lemma time_points_sorted : forall times vals,
  Forall (fun t => valid_time t = true) times -> StronglySorted Z.lt times ->
  Sorted date_le (map time_point (combine times vals)).
Proof.
  induction times as [|t times IH]; intros vals Hv Hs; [constructor|].
  destruct vals as [|v vals]; [constructor|].
  inversion Hv as [|? ? Vt Vts]; subst. inversion Hs as [|? ? Hs' Hlt]; subst.
  cbn [combine map]. constructor; [apply IH; assumption|].
  destruct times as [|t' times']; [constructor|].
  destruct vals as [|v' vals']; [constructor|].
  cbn [combine map]. constructor. unfold date_le, time_point. cbn [date fst].
  inversion Vts; subst. inversion Hlt; subst. apply year_label_mono; try assumption. lia.
Qed.

(** X15: for a source whose time steps are timestamps in ascending
    order, the points come out labelled with the years of the steps, in
    the order of the steps, and this order is already the sorted one. *)
Theorem time_steps_in_order
    (data : DataArray) (st : State) (input_path : string) (sliced : DataArray)
    (times : list datetime64) :
  sel data (lon_min st) (lon_max st) (lat_min st) (lat_max st) = Ok sliced ->
  r_time (sum_lat_lon sliced) = Some times ->
  length (r_values (sum_lat_lon sliced)) = length times ->
  chronological times ->
  series st = [] ->
  exists pts,
    reduce_and_label data st input_path = Ok pts /\
    map date pts = map year_label times /\
    Sorted date_le pts /\ sorted pts = pts.
Proof.
  intros Hsel Ht Hl [Hv Hs] He.
  exists (map time_point (combine times (r_values (sum_lat_lon sliced)))).
  assert (Hp : Sorted date_le (map time_point (combine times (r_values (sum_lat_lon sliced)))))
    by (apply time_points_sorted; assumption).
  split; [|split; [|split; [exact Hp|apply sorted_id; exact Hp]]].
  - unfold reduce_and_label. rewrite Hsel. cbn [bind]. rewrite Ht, He.
    rewrite (label_times_suffix (sum_lat_lon sliced) times times [] [] eq_refl
               (chronological_nodup _ Hs) Hl).
    reflexivity.
  - rewrite map_map. unfold time_point. cbn [date].
    rewrite <- (map_map fst year_label). f_equal.
    clear - Hl. revert Hl. generalize (r_values (sum_lat_lon sliced)).
    induction times as [|t times IH]; intros [|v vals] H; try discriminate; [reflexivity|].
    cbn [combine map fst]. f_equal. apply IH. cbn in H. lia.
Qed.

Lemma time_steps_in_order_witness :
  exists pts,
    reduce_and_label yearly_grid (initial_state (of_Z 0) (of_Z 0) (of_Z 10) (of_Z 10))
                     "edgar_co2.nc" = Ok pts /\
    map date pts = ["2019"; "2020"]%string /\
    Sorted date_le pts /\ sorted pts = pts.
Proof.
  change ["2019"; "2020"]%string
    with (map year_label [1546300800000000000; 1577836800000000000]).
  eapply (time_steps_in_order yearly_grid
            (initial_state (of_Z 0) (of_Z 0) (of_Z 10) (of_Z 10)) "edgar_co2.nc").
  - vm_compute. reflexivity.
  - reflexivity.
  - reflexivity.
  - split; repeat constructor.
  - reflexivity.
Defined.

(** ** A repeated time step *)

Lemma time_positions_bound times tv : forall k i,
  In i (time_positions_from k times tv) -> (k <= i < k + length times)%nat.
Proof.
  induction times as [|t times IH]; intros k i H; [destruct H|].
  cbn [time_positions_from] in H. cbn [length].
  destruct (t =? tv); [destruct H as [<-|H]; [lia|]|]; apply IH in H; lia.
Qed.

Lemma time_positions_count times tv : forall k,
  length (time_positions_from k times tv) = count_occ Z.eq_dec times tv.
Proof.
  induction times as [|t times IH]; intros k; [reflexivity|].
  cbn [time_positions_from count_occ].
  destruct (Z.eqb_spec t tv) as [E|E], (Z.eq_dec t tv) as [E'|E']; try congruence;
    cbn [length]; rewrite IH; reflexivity.
Qed.

Lemma flat_map_singletons (vals : list float) (ps : list nat) :
  Forall (fun i => (i < length vals)%nat) ps ->
  length (flat_map (fun i => match nth_error vals i with
                             | Some v => [v]
                             | None => []
                             end) ps) = length ps.
Proof.
  induction 1 as [|i ps Hi _ IH]; [reflexivity|]. cbn [flat_map].
  rewrite length_app, IH. destruct (nth_error vals i) eqn:E; [reflexivity|].
  apply nth_error_None in E. lia.
Qed.

Lemma sel_time_length summed times tv :
  length (r_values summed) = length times ->
  length (sel_time summed times tv) = count_occ Z.eq_dec times tv.
Proof.
  intros H. unfold sel_time. rewrite flat_map_singletons.
  - apply time_positions_count.
  - apply List.Forall_forall. intros i Hi. apply time_positions_bound in Hi. lia.
Qed.

Lemma label_times_ok summed times : forall todo acc r,
  length (r_values summed) = length times ->
  label_times summed times todo acc = Ok r ->
  Forall (fun tv => count_occ Z.eq_dec times tv = 1%nat) todo.
Proof.
  induction todo as [|tv rest IH]; intros acc r Hl H; [constructor|].
  cbn [label_times] in H.
  destruct (to_float (sel_time summed times tv)) as [val|] eqn:E; [|discriminate].
  cbn [bind] in H. constructor; [|eapply IH; eassumption].
  rewrite <- (sel_time_length summed times tv Hl).
  destruct (sel_time summed times tv) as [|v [|? ?]]; try discriminate. reflexivity.
Qed.

(** X16: a source whose time coordinate holds some value twice fails
    with an error of the library. *)
Theorem repeated_time_fails
    (data : DataArray) (st : State) (input_path : string) (sliced : DataArray)
    (times : list datetime64) :
  sel data (lon_min st) (lon_max st) (lat_min st) (lat_max st) = Ok sliced ->
  r_time (sum_lat_lon sliced) = Some times ->
  length (r_values (sum_lat_lon sliced)) = length times ->
  ~ List.NoDup times ->
  reduce_and_label data st input_path = Err LibraryError.
Proof.
  intros Hsel Ht Hl Hn. unfold reduce_and_label. rewrite Hsel. cbn [bind]. rewrite Ht.
  destruct (label_times (sum_lat_lon sliced) times times (series st)) as [r|e] eqn:E.
  - exfalso. apply Hn. apply (NoDup_count_occ' Z.eq_dec). intros t Hin.
    pose proof (label_times_ok _ _ _ _ _ Hl E) as F.
    rewrite List.Forall_forall in F. apply F. exact Hin.
  - f_equal. eapply label_times_err. exact E.
Qed.

Lemma repeated_time_fails_witness :
  reduce_and_label repeated_time_grid
                   (initial_state (of_Z 0) (of_Z 0) (of_Z 10) (of_Z 10)) "edgar_co2.nc"
    = Err LibraryError.
Proof.
  eapply (repeated_time_fails repeated_time_grid
            (initial_state (of_Z 0) (of_Z 0) (of_Z 10) (of_Z 10)) "edgar_co2.nc").
  - vm_compute. reflexivity.
  - reflexivity.
  - reflexivity.
  - intros H. inversion H as [|? ? Hin _]. apply Hin. left. reflexivity.
Defined.

(** ** A coordinate in descending order *)

Lemma non_increasing_cons a idx :
  is_monotonic_decreasing (a :: idx) = true -> no_nan (a :: idx) = true ->
  is_nan a = false /\ is_monotonic_decreasing idx = true /\ no_nan idx = true /\
  Forall (fun b => is_nan b = false /\ leb b a = true) idx.
Proof.
  revert a. induction idx as [|b idx IH]; intros a M N.
  - cbn in N. destruct (is_nan a); [discriminate|]. auto.
  - unfold is_monotonic_decreasing in *.
    change (monotonic (fun x y => leb y x) (a :: b :: idx))
      with (leb b a && monotonic (fun x y => leb y x) (b :: idx)) in M.
    apply andb_true_iff in M. destruct M as [Lba M].
    cbn [no_nan forallb] in N. apply andb_true_iff in N. destruct N as [Na N].
    apply negb_true_iff in Na.
    destruct (IH b M N) as (Nb & Mi & Ni & Fb).
    split; [exact Na|]. split; [exact M|]. split; [exact N|].
    constructor; [split; assumption|].
    eapply List.Forall_impl; [|exact Fb]. cbn beta. intros c [Nc Lcb].
    split; [exact Nc|]. apply (leb_trans c b a); assumption.
Qed.

Lemma leb_ltb_false a v :
  is_nan a = false -> is_nan v = false -> ltb v a = false -> leb a v = true.
Proof. intros Na Nv H. rewrite leb_negb_ltb by assumption. rewrite H. reflexivity. Qed.

Lemma below_tail a idx v :
  is_nan a = false -> is_nan v = false ->
  Forall (fun b => is_nan b = false /\ leb b a = true) idx ->
  (ltb v a = false -> Forall (fun b => ltb v b = false) idx) /\
  (leb v a = false -> Forall (fun b => leb v b = false) idx).
Proof.
  intros Na Nv F. split; intros H; eapply List.Forall_impl; try exact F; cbn beta;
    intros b [Nb Lba].
  - pose proof (leb_trans b a v Nb Na Nv Lba (leb_ltb_false a v Na Nv H)) as L.
    rewrite leb_negb_ltb in L by assumption. apply negb_true_iff in L. exact L.
  - destruct (leb v b) eqn:E; [|reflexivity].
    rewrite (leb_trans v b a Nv Nb Na E Lba) in H. discriminate.
Qed.

Lemma eqb_leb_ltb a v :
  is_nan a = false -> is_nan v = false ->
  eqb a v = leb v a && negb (ltb v a).
Proof.
  intros Na Nv.
  destruct (eqb a v) eqn:E, (leb v a) eqn:L, (ltb v a) eqn:T; cbn; try reflexivity; exfalso.
  - apply eqb_rank in E; [|assumption..]. apply ltb_rank in T; [|assumption..].
    rewrite E in T. exact (lex_lt_irrefl _ T).
  - apply eqb_rank in E; [|assumption..].
    assert (leb v a = true); [|congruence].
    apply leb_rank; [assumption..|]. rewrite E. apply lex_lt_irrefl.
  - apply eqb_rank in E; [|assumption..].
    assert (leb v a = true); [|congruence].
    apply leb_rank; [assumption..|]. rewrite E. apply lex_lt_irrefl.
  - assert (eqb a v = true); [|congruence]. apply eqb_rank; [assumption..|].
    apply leb_rank in L; [|assumption..].
    destruct (lex_total (rank a) (rank v)) as [C|[C|C]]; [tauto|exact C|].
    apply ltb_rank in C; [congruence|assumption..].
Qed.

Lemma positions_from_descending idx : forall i v,
  is_monotonic_decreasing idx = true -> no_nan idx = true -> is_nan v = false ->
  (count (ltb v) idx <= count (leb v) idx)%nat /\
  positions_from i idx v =
  seq (i + count (ltb v) idx) (count (leb v) idx - count (ltb v) idx).
Proof.
  induction idx as [|a idx IH]; intros i v M N Nv.
  - cbn. split; [lia|reflexivity].
  - destruct (non_increasing_cons a idx M N) as (Na & Mi & Ni & F).
    destruct (IH (S i) v Mi Ni Nv) as [Le Pos].
    destruct (below_tail a idx v Na Nv F) as [T1 T2].
    cbn [positions_from]. rewrite !count_cons.
    rewrite label_eq_eqb by assumption. rewrite (eqb_leb_ltb a v Na Nv).
    destruct (ltb v a) eqn:Lva.
    + assert (Lv : leb v a = true).
      { rewrite leb_negb_ltb by assumption.
        destruct (ltb a v) eqn:E; [|reflexivity]. exfalso.
        apply ltb_rank in E; [|assumption..]. apply ltb_rank in Lva; [|assumption..].
        exact (lex_lt_asym _ _ E Lva). }
      rewrite Lv. cbn [andb negb]. split; [lia|]. rewrite Pos. f_equal; lia.
    + rewrite (count_zero _ _ (T1 eq_refl)) in *.
      destruct (leb v a) eqn:Lv; cbn [andb negb].
      * split; [lia|]. rewrite Pos. rewrite !Nat.add_0_r, !Nat.sub_0_r. reflexivity.
      * rewrite (count_zero _ _ (T2 eq_refl)) in *. split; [lia|]. rewrite Pos. reflexivity.
Qed.

Lemma count_rev p l : count p (rev l) = count p l.
Proof.
  unfold count. induction l as [|a l IH]; [reflexivity|]. cbn [rev List.filter].
  rewrite List.filter_app, length_app, IH. cbn [List.filter].
  destruct (p a); cbn [length]; lia.
Qed.

Lemma count_negb p l : (count p l + count (fun e => negb (p e)) l = length l)%nat.
Proof.
  induction l as [|a l IH]; [reflexivity|]. rewrite !count_cons. cbn [length].
  destruct (p a); cbn [negb]; lia.
Qed.

Lemma count_ext p q l :
  Forall (fun e => p e = q e) l -> count p l = count q l.
Proof.
  induction 1 as [|a l Ha _ IH]; [reflexivity|]. rewrite !count_cons, Ha, IH. reflexivity.
Qed.

Lemma get_slice_bound_descending idx v :
  descending idx = true -> is_nan v = false ->
  get_slice_bound idx v Left = Ok (count (ltb v) idx) /\
  get_slice_bound idx v Right = Ok (count (leb v) idx).
Proof.
  unfold descending. intros D Nv. apply andb_true_iff in D. destruct D as [D N].
  apply andb_true_iff in D. destruct D as [M I]. apply negb_true_iff in I.
  pose proof (no_nan_forall idx N) as Fn.
  destruct (positions_from_descending idx 0%nat v M N Nv) as [Le Pos].
  unfold get_slice_bound, positions. rewrite Pos. cbn [Nat.add].
  destruct (count (leb v) idx - count (ltb v) idx)%nat as [|k] eqn:Ek.
  - cbn [seq]. unfold searchsorted_monotonic. rewrite I, M.
    cbn [flip searchsorted]. rewrite !count_rev.
    pose proof (count_negb (fun e => np_lt v e) idx) as C1.
    pose proof (count_negb (fun e => np_lt e v) idx) as C2.
    assert (E1 : count (fun e => np_lt v e) idx = count (ltb v) idx).
    { apply count_ext. eapply List.Forall_impl; [|exact Fn]. intros e Ne.
      apply np_lt_ltb; assumption. }
    assert (E2 : count (fun e => negb (np_lt e v)) idx = count (leb v) idx).
    { apply count_ext. eapply List.Forall_impl; [|exact Fn]. intros e Ne. cbn beta.
      rewrite np_lt_ltb by assumption. symmetry. apply leb_negb_ltb; assumption. }
    split; f_equal; lia.
  - cbn [seq]. rewrite contiguous_seq, last_seq. split; [reflexivity|].
    f_equal. destruct k; lia.
Qed.

Lemma count_descending_le idx lo hi :
  no_nan idx = true -> is_nan lo = false -> is_nan hi = false ->
  ltb lo hi = true ->
  (count (leb hi) idx <= count (ltb lo) idx)%nat.
Proof.
  intros N Nlo Nhi H. apply count_le.
  eapply List.Forall_impl; [|apply no_nan_forall; exact N].
  intros e Ne He. rewrite leb_negb_ltb in He by assumption. apply negb_true_iff in He.
  exact (ltb_not_ltb_trans lo hi e Nlo Nhi Ne H He).
Qed.

(** X17: on a grid whose latitudes are stored in descending order, a box
    with [lat_min] below [lat_max] selects no latitude: every sum is zero,
    and nothing is raised. *)
Theorem descending_latitudes_select_nothing
    (data : DataArray) (lons lats : list float) (lon_min lon_max lat_min lat_max : float) :
  lon data = Some lons -> lat data = Some lats ->
  ascending lons = true -> descending lats = true ->
  is_nan lon_min = false -> is_nan lon_max = false ->
  is_nan lat_min = false -> is_nan lat_max = false ->
  ltb lat_min lat_max = true ->
  exists sliced,
    sel data lon_min lon_max lat_min lat_max = Ok sliced /\
    lat sliced = Some [] /\
    r_values (sum_lat_lon sliced) = map (fun _ => zero) (cells data).
Proof.
  intros Hlon Hlat Alon Dlat N1 N2 N3 N4 Hlt.
  unfold sel. rewrite Hlon, Hlat.
  rewrite !get_slice_bound_ascending by assumption. cbn [bind].
  destruct (get_slice_bound_descending lats lat_min Dlat N3) as [-> _].
  destruct (get_slice_bound_descending lats lat_max Dlat N4) as [_ ->]. cbn [bind].
  assert (Hle : (count (leb lat_max) lats <= count (ltb lat_min) lats)%nat).
  { apply count_descending_le; try assumption.
    unfold descending in Dlat. apply andb_true_iff in Dlat. apply Dlat. }
  eexists. split; [reflexivity|]. cbn [lat sum_lat_lon r_values cells dtype].
  split; [rewrite slice_list_empty by exact Hle; reflexivity|].
  rewrite map_map. apply map_ext. intros slab.
  rewrite slice_list_empty by exact Hle. exact (empty_sum _).
Qed.

Lemma descending_latitudes_witness :
  exists sliced,
    sel descending_grid (of_Z 0) (of_Z 10) (of_Z 0) (of_Z 10) = Ok sliced /\
    lat sliced = Some [] /\
    r_values (sum_lat_lon sliced) = [zero].
Proof.
  apply (descending_latitudes_select_nothing descending_grid _ _
           (of_Z 0) (of_Z 10) (of_Z 0) (of_Z 10) eq_refl eq_refl); reflexivity.
Defined.

(** ** Running the script again *)







(** ** Sums of whole numbers *)

Lemma of_Z_not_nan k : - 2 ^ 53 < k < 2 ^ 53 -> is_nan (of_Z k) = false.
Proof.
  intros H. destruct k as [|p|p]; [reflexivity| |].
  - destruct (of_Z_pos p ltac:(lia)) as (m & e & -> & _). reflexivity.
  - destruct (of_Z_neg p ltac:(lia)) as (m & e & -> & _). reflexivity.
Qed.

Lemma add_of_Z a b :
  0 <= a -> 0 <= b -> a + b < 2 ^ 53 ->
  add (of_Z a) (of_Z b) = of_Z (a + b).
Proof.
  intros Ha Hb H. destruct a as [|p|p]; [|  |lia].
  - change (of_Z 0) with (S754_zero false). rewrite Z.add_0_l. destruct b as [|q|q]; [reflexivity| |lia].
    destruct (of_Z_pos q ltac:(lia)) as (m & e & -> & _). reflexivity.
  - destruct b as [|q|q]; [| |lia].
    + rewrite Z.add_0_r. change (of_Z 0) with (S754_zero false).
      destruct (of_Z_pos p ltac:(lia)) as (m & e & -> & _). reflexivity.
    + destruct (of_Z_pos p ltac:(lia)) as (m1 & e1 & E1 & V1 & M1).
      destruct (of_Z_pos q ltac:(lia)) as (m2 & e2 & E2 & V2 & M2).
      rewrite E1, E2.
      pose proof (add_finite_pos false m1 e1 false m2 e2 V1 V2) as R.
      rewrite !scaled_finite in R. cbn [cond_Zopp] in R. rewrite M1, M2 in R.
      assert (P : 0 < 2 ^ 1074) by (apply pow2_pos; lia).
      rewrite <- Z.mul_add_distr_r in R.
      specialize (R ltac:(apply Z.mul_pos_pos; lia)).
      change (Zpos p + Zpos q) with (Zpos (p + q)) in *.
      destruct (rounds_to_exact _ _ _ R (integer_mod_ulp (p + q) H) (integer_lt_max (p + q) H))
        as (m & e & E & V & M).
      rewrite E. apply of_Z_unique; [lia|rewrite <- E; exact V|exact M].
Qed.

Lemma total_nonneg l : counts l -> 0 <= total l.
Proof.
  induction 1 as [|c l Hc _ IH]; [reflexivity|]. cbn [total fold_right].
  fold (total l). destruct c; lia.
Qed.

Lemma cells_of_counts (l : list (option Z)) :
  counts l -> total l < 2 ^ 53 ->
  exists ks,
    map nan_to_zero (map cell l) = map of_Z ks /\
    Forall (fun k => 0 <= k) ks /\ fold_right Z.add 0 ks = total l.
Proof.
  induction 1 as [|c l Hc Hl IH]; intros Hb.
  - exists []. split; [reflexivity|]. split; [constructor|reflexivity].
  - pose proof (total_nonneg l Hl) as Ht.
    cbn [total fold_right] in Hb. fold (total l) in Hb.
    destruct c as [k|].
    + destruct (IH ltac:(lia)) as (ks & E & F & S).
      exists (k :: ks). cbn [map cell]. unfold nan_to_zero at 1.
      rewrite (of_Z_not_nan k) by lia. rewrite E.
      split; [reflexivity|]. split; [constructor; assumption|].
      cbn [fold_right total]. fold (total l). rewrite S. reflexivity.
    + destruct (IH Hb) as (ks & E & F & S).
      exists (0 :: ks). cbn [map cell]. change (nan_to_zero nan) with (of_Z 0). rewrite E.
      split; [reflexivity|]. split; [constructor; [lia|assumption]|].
      cbn [fold_right total]. fold (total l). rewrite S. reflexivity.
Qed.

(** X19: in a variable of type float64, cells that hold natural numbers
    are added up exactly, missing cells counting for nothing, as long as
    the sum is below [2 ^ 53], however numpy groups the additions. *)
Theorem nansum_counts (l : list (option Z)) :
  counts l -> total l < 2 ^ 53 ->
  nansum Float64 (map cell l) = of_Z (total l) /\
  scaled (of_Z (total l)) = total l * 2 ^ 1074.
Proof.
  intros Hc H. pose proof (total_nonneg l Hc) as Ht.
  split; [|apply of_Z_scaled; lia].
  destruct (cells_of_counts l Hc H) as (ks & E & F & S).
  unfold nansum, add_reduce. rewrite E. cbn [add_as]. change zero with (of_Z 0).
  rewrite (pairwise_sum_exact add of_Z (2 ^ 53) add_of_Z (length ks) ks (le_n _) F)
    by (rewrite S; exact H).
  rewrite add_of_Z by (rewrite ?S; lia). rewrite S. reflexivity.
Qed.

Lemma nansum_counts_witness :
  nansum Float64 [of_Z 1; nan; of_Z 2; of_Z 3] = of_Z 6 /\ scaled (of_Z 6) = 6 * 2 ^ 1074.
Proof.
  apply (nansum_counts [Some 1; None; Some 2; Some 3]).
  - repeat constructor; lia.
  - reflexivity.
Defined.

(** ** The range of the longitude bounds *)

Lemma float_rem_normalised x r :
  valid x = true -> float_rem x f360 = Ok r -> normalised r = true.
Proof.
  intros V H. destruct (remapped_exists x V) as (r' & H' & _ & Hn & Hf & _).
  assert (r' = r) by congruence. subst r'. unfold normalised.
  destruct (is_finite x).
  - destruct (Hf eq_refl) as [-> ->]. apply orb_true_r.
  - rewrite (Hn eq_refl). reflexivity.
Qed.

Lemma normalize_range a c data st st' :
  valid (lon_min st) = true -> valid (lon_max st) = true ->
  (lon_min st = a \/ normalised (lon_min st) = true) ->
  (lon_max st = c \/ normalised (lon_max st) = true) ->
  normalize data st = Ok st' ->
  (lon_min st' = a \/ normalised (lon_min st') = true) /\
  (lon_max st' = c \/ normalised (lon_max st') = true).
Proof.
  intros V1 V2 I1 I2 H.
  destruct (normalize_cases _ _ _ H) as [(_ & lo & hi & Hlo & Hhi & ->)|[_ ->]];
    [|split; assumption].
  cbn [with_lon lon_min lon_max]. split; right.
  - exact (float_rem_normalised _ _ V1 Hlo).
  - exact (float_rem_normalised _ _ V2 Hhi).
Qed.

Lemma run_sources_range a c v w paths : forall st st',
  valid (lon_min st) = true -> valid (lon_max st) = true ->
  (lon_min st = a \/ normalised (lon_min st) = true) ->
  (lon_max st = c \/ normalised (lon_max st) = true) ->
  run_sources v w st paths = Ok st' ->
  (lon_min st' = a \/ normalised (lon_min st') = true) /\
  (lon_max st' = c \/ normalised (lon_max st') = true).
Proof.
  induction paths as [|p paths IH]; intros st st' V1 V2 I1 I2 H.
  - cbn in H. injection H as <-. split; assumption.
  - cbn [run_sources] in H.
    destruct (process_source v w st p) as [st1|] eqn:E; [|discriminate]. cbn [bind] in H.
    destruct (process_source_inv _ _ _ _ _ E)
      as (ds & data & stn & _ & _ & Hn & _ & E1 & E2 & _).
    destruct (normalize_valid _ _ _ V1 V2 Hn) as [W1 W2].
    destruct (normalize_range a c _ _ _ V1 V2 I1 I2 Hn) as [J1 J2].
    apply (IH st1 st'); [rewrite E1; exact W1|rewrite E2; exact W2| | |exact H].
    + rewrite E1. exact J1.
    + rewrite E2. exact J2.
Qed.

(** X20: whatever sources have been processed, each longitude bound is
    the one parsed from the command line, or a float from 0 to 360, or
    NaN. *)
Theorem bounds_stay_in_range
    (args : Args) (w : World) (a b c d : float) (paths : list string) (st : State) :
  parse_bbox (bbox args) = Ok [a; b; c; d] ->
  run_sources (var args) w (initial_state a b c d) paths = Ok st ->
  (lon_min st = a \/ normalised (lon_min st) = true) /\
  (lon_max st = c \/ normalised (lon_max st) = true).
Proof.
  intros Hb Hr. pose proof (parse_bbox_valid _ _ Hb) as V.
  inversion V as [|? ? Va V1]; subst. inversion V1 as [|? ? _ V2]; subst.
  inversion V2 as [|? ? Vc _]; subst.
  exact (run_sources_range a c _ _ _ (initial_state a b c d) st Va Vc
           (or_introl eq_refl) (or_introl eq_refl) Hr).
Qed.

Lemma bounds_stay_in_range_witness :
  exists st,
    run_sources "v" two_conventions box_10 ["edgar_2020_co2.nc"; "edgar_2021_co2.nc"]%string
      = Ok st /\
    (lon_min st = of_Z (-10) \/ normalised (lon_min st) = true) /\
    (lon_max st = of_Z 10 \/ normalised (lon_max st) = true).
Proof.
  assert (H : exists st,
             run_sources "v" two_conventions box_10
               ["edgar_2020_co2.nc"; "edgar_2021_co2.nc"]%string = Ok st).
  { eexists. vm_compute. reflexivity. }
  destruct H as [st H]. exists st. split; [exact H|].
  apply (bounds_stay_in_range
           {| input := ""; bbox := "-10,0,10,0"; var := "v"; output := "" |}
           two_conventions (of_Z (-10)) (of_Z 0) (of_Z 10) (of_Z 0)
           ["edgar_2020_co2.nc"; "edgar_2021_co2.nc"]%string st).
  - vm_compute. reflexivity.
  - exact H.
Defined.

(** ** A box across longitude 0 *)

Lemma ltb_of_Z x y :
  0 <= x -> x < y -> y < 2 ^ 53 -> ltb (of_Z x) (of_Z y) = true.
Proof.
  intros Hx Hxy Hy. destruct y as [|q|q]; try lia.
  destruct (of_Z_pos q Hy) as (m2 & e2 & -> & V2 & M2).
  destruct x as [|p|p]; [reflexivity| |lia].
  destruct (of_Z_pos p ltac:(lia)) as (m1 & e1 & -> & V1 & M1).
  unfold ltb, SFltb. rewrite (SFcompare_pos m1 e1 m2 e2 V1 V2), M1, M2.
  assert (P : 0 < 2 ^ 1074) by (apply pow2_pos; lia).
  replace (Zpos p * 2 ^ 1074 ?= Zpos q * 2 ^ 1074) with Lt; [reflexivity|].
  symmetry. apply Z.compare_lt_iff. apply Z.mul_lt_mono_pos_r; assumption.
Qed.

(** X21: on an ascending grid on the 0 to 360 convention, a box that
    runs from a negative whole longitude to a positive one less than a
    full turn away is remapped to bounds that are out of order, and
    selects no cell: every sum is zero. *)
Theorem straddling_box_sums_to_zero
    (data : DataArray) (st : State) (lons lats : list float) (a b : Z) :
  uses_0_360 data = true ->
  lon data = Some lons -> lat data = Some lats ->
  ascending lons = true -> ascending lats = true ->
  lon_min st = of_Z a -> lon_max st = of_Z b ->
  - 360 < a < 0 -> 0 <= b < a + 360 ->
  is_nan (lat_min st) = false -> is_nan (lat_max st) = false ->
  exists stn sliced,
    normalize data st = Ok stn /\
    lon_min stn = of_Z (a + 360) /\ lon_max stn = of_Z b /\
    sel data (lon_min stn) (lon_max stn) (lat_min stn) (lat_max stn) = Ok sliced /\
    r_values (sum_lat_lon sliced) = map (fun _ => zero) (cells data).
Proof.
  intros U Hlon Hlat Alon Alat Ea Eb Ha Hb N3 N4.
  assert (H53 : 360 < 2 ^ 53) by (vm_compute; reflexivity).
  assert (Hn : normalize data st = Ok (with_lon st (of_Z (a + 360)) (of_Z b))).
  { rewrite (normalize_0_360 _ _ U), Ea, Eb.
    rewrite (float_rem_integer a ltac:(lia)), (float_rem_integer b ltac:(lia)).
    replace (a mod 360) with (a + 360) by (Z.div_mod_to_equations; lia).
    rewrite (Z.mod_small b 360) by lia. reflexivity. }
  assert (Hlt : ltb (of_Z b) (of_Z (a + 360)) = true) by (apply ltb_of_Z; lia).
  destruct (sel_no_longitude data lons lats (of_Z (a + 360)) (of_Z b)
              (lat_min st) (lat_max st) Hlon Hlat Alon Alat
              (of_Z_not_nan (a + 360) ltac:(lia)) (of_Z_not_nan b ltac:(lia)) N3 N4 Hlt)
    as (sliced & Hs & Hv).
  exists (with_lon st (of_Z (a + 360)) (of_Z b)), sliced.
  split; [exact Hn|]. split; [reflexivity|]. split; [reflexivity|].
  split; [exact Hs|exact Hv].
Qed.

Lemma straddling_box_witness :
  exists stn sliced,
    normalize grid_0_360 box_10 = Ok stn /\
    lon_min stn = of_Z 350 /\ lon_max stn = of_Z 10 /\
    sel grid_0_360 (lon_min stn) (lon_max stn) (lat_min stn) (lat_max stn) = Ok sliced /\
    r_values (sum_lat_lon sliced) = [zero].
Proof.
  apply (straddling_box_sums_to_zero grid_0_360 box_10 _ _ (-10) 10 eq_refl eq_refl eq_refl);
    try reflexivity; lia.
Defined.

(** ** The file name of a source with a time coordinate *)

(** X22: for a source whose variable has a time coordinate the file name
    plays no part: the points are the same under any input path. *)
Theorem file_name_unused_with_time
    (data : DataArray) (st : State) (times : list datetime64) (p q : string) :
  time data = Some times ->
  reduce_and_label data st p = reduce_and_label data st q.
Proof.
  intros Ht. unfold reduce_and_label.
  destruct (sel data (lon_min st) (lon_max st) (lat_min st) (lat_max st))
    as [sliced|] eqn:Es; [|reflexivity]. cbn [bind].
  cbn [sum_lat_lon r_time]. rewrite (sel_time_coord _ _ _ _ _ _ Es), Ht. reflexivity.
Qed.

Lemma file_name_unused_with_time_witness :
  reduce_and_label yearly_grid (initial_state (of_Z 0) (of_Z 0) (of_Z 10) (of_Z 10))
                   "edgar_1999_co2.nc" =
  reduce_and_label yearly_grid (initial_state (of_Z 0) (of_Z 0) (of_Z 10) (of_Z 10))
                   "no_year_here.nc".
Proof.
  apply (file_name_unused_with_time yearly_grid _
           [1546300800000000000; 1577836800000000000]).
  reflexivity.
Defined.

(** ** The order of four-digit years *)

Lemma next_four_digits_all :
  forallb next_four_digits_ok (map Z.of_nat (seq 0 (Z.to_nat 9999))) = true.
Proof. vm_compute. reflexivity. Qed.

Lemma next_four_digits n :
  0 <= n < 9999 ->
  String.leb (Str.format_04d n) (Str.format_04d (n + 1)) = true /\
  String.leb (Str.format_04d (n + 1)) (Str.format_04d n) = false.
Proof.
  intros H. pose proof next_four_digits_all as A. rewrite forallb_forall in A.
  assert (I : In n (map Z.of_nat (seq 0 (Z.to_nat 9999)))).
  { apply in_map_iff. exists (Z.to_nat n). split; [lia|]. apply in_seq. lia. }
  specialize (A n I). unfold next_four_digits_ok in A.
  apply andb_true_iff in A. destruct A as [A1 A2]. apply negb_true_iff in A2. auto.
Qed.

Lemma format_04d_mono : forall (k : nat) (a : Z),
  0 <= a -> a + Z.of_nat k <= 9999 ->
  String.leb (Str.format_04d a) (Str.format_04d (a + Z.of_nat k)) = true.
Proof.
  induction k as [|k IH]; intros a Ha Hb.
  - rewrite Z.add_0_r. apply leb_refl.
  - eapply string_leb_trans; [apply (IH a Ha); lia|].
    replace (a + Z.of_nat (S k)) with (a + Z.of_nat k + 1) by lia.
    apply next_four_digits. lia.
Qed.

Lemma format_04d_le a b :
  0 <= a -> a <= b -> b <= 9999 ->
  String.leb (Str.format_04d a) (Str.format_04d b) = true.
Proof.
  intros Ha Hab Hb. replace b with (a + Z.of_nat (Z.to_nat (b - a))) by lia.
  apply format_04d_mono; lia.
Qed.

Lemma format_04d_order a b :
  0 <= a <= 9999 -> 0 <= b <= 9999 ->
  String.leb (Str.format_04d a) (Str.format_04d b) = (a <=? b).
Proof.
  intros Ha Hb. destruct (Z.leb_spec a b) as [H|H].
  - apply format_04d_le; lia.
  - destruct (String.leb (Str.format_04d a) (Str.format_04d b)) eqn:E; [|reflexivity].
    exfalso. destruct (next_four_digits b ltac:(lia)) as [_ N].
    rewrite (string_leb_trans _ _ _ (format_04d_le (b + 1) a ltac:(lia) ltac:(lia) ltac:(lia)) E)
      in N.
    discriminate.
Qed.

(** X23: the years taken from two file names that are ASCII text are the
    four-digit texts of two numbers from 0 to 9999, and they compare as
    strings the way the numbers compare. *)
Theorem file_name_years_order (name1 name2 year1 year2 : string) :
  Str.isascii name1 = true -> Str.isascii name2 = true ->
  extract_year_from_filename name1 = Some year1 ->
  extract_year_from_filename name2 = Some year2 ->
  exists n1 n2,
    year1 = Str.format_04d n1 /\ year2 = Str.format_04d n2 /\
    0 <= n1 <= 9999 /\ 0 <= n2 <= 9999 /\
    String.leb year1 year2 = (n1 <=? n2).
Proof.
  intros A1 A2 H1 H2.
  destruct (extract_year_token _ _ H1) as [_ T1]. destruct (extract_year_token _ _ H2) as [_ T2].
  destruct (year_token_number _ (extract_year_ascii _ _ A1 H1) T1) as (n1 & R1 & ->).
  destruct (year_token_number _ (extract_year_ascii _ _ A2 H2) T2) as (n2 & R2 & ->).
  exists n1, n2. split; [reflexivity|]. split; [reflexivity|].
  split; [exact R1|]. split; [exact R2|]. apply format_04d_order; assumption.
Qed.

Lemma file_name_years_order_witness :
  exists n1 n2,
    "0999"%string = Str.format_04d n1 /\ "2021"%string = Str.format_04d n2 /\
    0 <= n1 <= 9999 /\ 0 <= n2 <= 9999 /\
    String.leb "0999" "2021" = (n1 <=? n2).
Proof.
  apply (file_name_years_order "edgar_0999_co2.nc" "edgar_2021_co2.nc"); reflexivity.
Defined.
